(** * PartnersAI: chat-export parser and entitlement engine

    A shallow embedding of the parts of the repository that carry logic:

    - [AdminApi]       the [validate-promo] and [redeem-promo] actions of the
                       admin edge function, over the promo / redemption /
                       subscription tables;
    - [Double], [CreateOrder]
                       the amount computed by [razorpay-create-order], in the
                       double-precision arithmetic of JavaScript numbers;
    - [Subscription]   the [useSubscription] hook ([incrementUsage]);
    - [Crypto], [RazorpayVerify], [RazorpayWebhook]
                       the payment signature checks;
    - [Js], [Regex], [ChatParser]
                       [parseTimestamp], [isSystemMessage], [parseWhatsAppChat].

    Definitions come first, the theorems about them afterwards. *)

From Stdlib Require Import ZArith NArith QArith Qround List String Ascii Bool Lia.
From Stdlib Require SpecFloat.
From stdpp Require Import base option list gmap strings.
Import ListNotations.

Local Open Scope string_scope.

(* ===================================================================== *)
(** ** The database and the handler monad                                 *)
(* ===================================================================== *)

Module Db.

(** A point in time.  [new Date()] is [At now]; the calendar arithmetic of
    [setDate] / [setMonth] / [setFullYear] is kept symbolic. *)
Inductive Instant : Type :=
| At (ms : Z)
| AddDays (n : Z) (t : Instant)
| AddMonths (n : Z) (t : Instant)
| AddYears (n : Z) (t : Instant).

(** Row of [promo_codes]; the primary key [id] is the key of the table. *)
Record PromoCode : Type := {
  code : string;
  discount_type : string;
  discount_value : Q;
  max_uses : option Z;
  times_used : Z;
  valid_from : Z;
  valid_until : option Z;
  plan_duration : string;
  is_active : bool
}.

(** Row of [user_subscriptions]; [user_id] (UNIQUE) is the key of the table. *)
Record Subscription : Type := {
  plan : string;
  status : string;
  razorpay_payment_id : option string;
  razorpay_subscription_id : option string;
  sub_plan_duration : string;
  current_period_start : Instant;
  current_period_end : option Instant
}.

(** The columns an [upsert] call provides; an absent column keeps its old
    value on conflict and takes the column default on insert. *)
Record SubscriptionCols : Type := {
  c_plan : option string;
  c_status : option string;
  c_razorpay_payment_id : option (option string);
  c_razorpay_subscription_id : option (option string);
  c_plan_duration : option string;
  c_current_period_start : option Instant;
  c_current_period_end : option (option Instant)
}.

Record Store : Type := {
  promo_codes : gmap string PromoCode;
  (** [promo_redemptions], UNIQUE (promo_code_id, user_id). *)
  promo_redemptions : gset (string * string);
  user_subscriptions : gmap string Subscription;
  (** [daily_usage], UNIQUE (user_id, usage_date) -> messages_sent. *)
  daily_usage : gmap (string * string) Z
}.

Definition set_promo_codes (f : gmap string PromoCode → gmap string PromoCode)
    (s : Store) : Store :=
  {| promo_codes := f (promo_codes s);
     promo_redemptions := promo_redemptions s;
     user_subscriptions := user_subscriptions s;
     daily_usage := daily_usage s |}.

Definition set_promo_redemptions (f : gset (string * string) → gset (string * string))
    (s : Store) : Store :=
  {| promo_codes := promo_codes s;
     promo_redemptions := f (promo_redemptions s);
     user_subscriptions := user_subscriptions s;
     daily_usage := daily_usage s |}.

Definition set_user_subscriptions
    (f : gmap string Subscription → gmap string Subscription) (s : Store) : Store :=
  {| promo_codes := promo_codes s;
     promo_redemptions := promo_redemptions s;
     user_subscriptions := f (user_subscriptions s);
     daily_usage := daily_usage s |}.

Definition set_daily_usage (f : gmap (string * string) Z → gmap (string * string) Z)
    (s : Store) : Store :=
  {| promo_codes := promo_codes s;
     promo_redemptions := promo_redemptions s;
     user_subscriptions := user_subscriptions s;
     daily_usage := f (daily_usage s) |}.

(** An edge-function body: it may [throw] (left) or return (right), and the
    writes it made before throwing stay in the store (there is no
    transaction around a request). *)
Definition Handler (A : Type) : Type := Store → (string + A) * Store.

Definition ret {A} (a : A) : Handler A := fun s => (inr a, s).
Definition throw {A} (msg : string) : Handler A := fun s => (inl msg, s).
Definition bind {A B} (m : Handler A) (k : A → Handler B) : Handler B :=
  fun s => match m s with
           | (inl e, s') => (inl e, s')
           | (inr a, s') => k a s'
           end.

Declare Scope handler_scope.
Delimit Scope handler_scope with handler.
Notation "'let!' x := c 'in' k" := (bind c (fun x => k))
  (at level 10, x pattern, c at level 100, k at level 200) : handler_scope.
Notation "c ;;! k" := (bind c (fun _ => k))
  (at level 100, k at level 200, right associativity) : handler_scope.

(** [.maybeSingle()]: the row when exactly one matches, [null] otherwise. *)
Definition maybeSingle {A} (rows : list A) : option A :=
  match rows with
  | [r] => Some r
  | _ => None
  end.

(** The supabase-js query builders resolve to [{ data, error }]; they do not
    reject.  Each primitive below is one awaited query. *)

(** [from('promo_codes').select('*').eq('code', c).eq('is_active', true).maybeSingle()] *)
Definition select_active_promo_by_code (c : string)
    : Handler (option (string * PromoCode)) :=
  fun s =>
    (inr (maybeSingle
            (List.filter (fun r => bool_decide (code (snd r) = c) && is_active (snd r))
                         (map_to_list (promo_codes s)))), s).

(** [from('promo_codes').select('*').eq('id', i).eq('is_active', true).maybeSingle()] *)
Definition select_active_promo_by_id (i : string) : Handler (option PromoCode) :=
  fun s =>
    (inr (match promo_codes s !! i with
          | Some p => if is_active p then Some p else None
          | None => None
          end), s).

(** [from('promo_redemptions').select('id').eq('promo_code_id', p).eq('user_id', u).maybeSingle()] *)
Definition select_redemption (p u : string) : Handler bool :=
  fun s => (inr (bool_decide ((p, u) ∈ promo_redemptions s)), s).

(** [from('promo_redemptions').insert({ promo_code_id, user_id })]: the
    UNIQUE constraint makes the insert fail on a duplicate; the failure is
    the [error] field of the result. *)
Definition insert_redemption (p u : string) : Handler (option string) :=
  fun s =>
    if bool_decide ((p, u) ∈ promo_redemptions s)
    then (inr (Some "duplicate key value violates unique constraint"), s)
    else (inr None, set_promo_redemptions (fun r => {[ (p, u) ]} ∪ r) s).

Definition with_times_used (n : Z) (p : PromoCode) : PromoCode :=
  {| code := code p; discount_type := discount_type p;
     discount_value := discount_value p; max_uses := max_uses p;
     times_used := n; valid_from := valid_from p; valid_until := valid_until p;
     plan_duration := plan_duration p; is_active := is_active p |}.

(** [from('promo_codes').update({ times_used: n }).eq('id', i)] *)
Definition update_times_used (i : string) (n : Z) : Handler unit :=
  fun s => (inr tt, set_promo_codes (alter (with_times_used n) i) s).

Definition merge_subscription (now : Z) (c : SubscriptionCols)
    (old : option Subscription) : Subscription :=
  {| plan := default (from_option plan "free" old) (c_plan c);
     status := default (from_option status "active" old) (c_status c);
     razorpay_payment_id :=
       default (from_option razorpay_payment_id None old) (c_razorpay_payment_id c);
     razorpay_subscription_id :=
       default (from_option razorpay_subscription_id None old)
               (c_razorpay_subscription_id c);
     sub_plan_duration :=
       default (from_option sub_plan_duration "month" old) (c_plan_duration c);
     current_period_start :=
       default (from_option current_period_start (At now) old)
               (c_current_period_start c);
     current_period_end :=
       default (from_option current_period_end None old) (c_current_period_end c) |}.

(** [from('user_subscriptions').upsert({ user_id: u, ... }, { onConflict: 'user_id' })] *)
Definition upsert_subscription (now : Z) (u : string) (c : SubscriptionCols)
    : Handler unit :=
  fun s =>
    (inr tt,
     set_user_subscriptions
       (fun t => <[ u := merge_subscription now c (t !! u) ]> t) s).

End Db.

(* ===================================================================== *)
(** ** The admin edge function: promo validation and redemption           *)
(* ===================================================================== *)

Module AdminApi.
Import Db.
Local Open Scope handler_scope.

(** [String.prototype.toUpperCase] on the ASCII range. *)
Definition upper_ascii (a : ascii) : ascii :=
  let n := nat_of_ascii a in
  if (97 <=? n)%nat && (n <=? 122)%nat then ascii_of_nat (n - 32) else a.

Fixpoint toUpperCase (s : string) : string :=
  match s with
  | EmptyString => EmptyString
  | String a r => String (upper_ascii a) (toUpperCase r)
  end.

(** [String.prototype.includes] *)
Fixpoint includes (s needle : string) : bool :=
  String.prefix needle s
  || match s with
     | EmptyString => false
     | String _ r => includes r needle
     end.

Definition getDurationEnd (duration : string) (now : Z) : Instant :=
  if bool_decide (duration = "week") then AddDays 7 (At now)
  else if bool_decide (duration = "month") then AddMonths 1 (At now)
  else if bool_decide (duration = "year") then AddYears 1 (At now)
  else AddMonths 1 (At now).

(** What a JSON response carries. *)
Inductive Body : Type :=
| ErrorBody (error : string)
| Invalid (error : string)
| Valid (discount_type : string) (discount_value : Q) (plan_duration : string)
        (promo_id : string)
| Redeemed (plan_duration : string).

Record Response : Type := { status : Z; body : Body }.

(** [promo.valid_until && new Date(promo.valid_until) < new Date()] *)
Definition expired (now : Z) (p : PromoCode) : bool :=
  match valid_until p with
  | Some t => (t <? now)%Z
  | None => false
  end.

(** [promo.max_uses && promo.times_used >= promo.max_uses]; a cap of [0] is
    falsy, like [null]. *)
Definition exhausted (p : PromoCode) : bool :=
  match max_uses p with
  | Some m => negb (m =? 0)%Z && (m <=? times_used p)%Z
  | None => false
  end.

(** The [validate-promo] action for the authenticated [user]. *)
Definition validatePromo (now : Z) (user : string) (code : string) : Handler Body :=
  let! promo := select_active_promo_by_code (toUpperCase code) in
  match promo with
  | None => ret (Invalid "Invalid promo code")
  | Some (promo_id, promo) =>
      if expired now promo then ret (Invalid "Promo code expired")
      else if exhausted promo then ret (Invalid "Promo code fully redeemed")
      else
        let! existing := select_redemption promo_id user in
        if existing : bool then ret (Invalid "Already used this promo code")
        else ret (Valid (discount_type promo) (discount_value promo)
                        (plan_duration promo) promo_id)
  end.

Definition baseAmountINR : Q := 499.

Definition isFreePromo (promo : PromoCode) : bool :=
  (bool_decide (discount_type promo = "percentage")
     && Qle_bool 100 (discount_value promo))
  || (bool_decide (discount_type promo = "fixed")
        && Qle_bool baseAmountINR (discount_value promo)).

(** The [redeem-promo] action for the authenticated [user]. *)
Definition redeemPromo (now : Z) (user : string) (promoId : string) : Handler Body :=
  let! promo := select_active_promo_by_id promoId in
  match promo with
  | None => throw "Invalid promo code"
  | Some promo =>
      if negb (isFreePromo promo)
      then throw "This promo code gives a discount. Please proceed with payment."
      else
        (* Record redemption *)
        insert_redemption promoId user ;;!
        (* Increment times_used *)
        update_times_used promoId (times_used promo + 1) ;;!
        (* Activate subscription *)
        let periodEnd := getDurationEnd (plan_duration promo) now in
        upsert_subscription now user
          {| c_plan := Some "pro";
             c_status := Some "active";
             c_razorpay_payment_id := None;
             c_razorpay_subscription_id := None;
             c_plan_duration := Some (plan_duration promo);
             c_current_period_start := Some (At now);
             c_current_period_end := Some (Some periodEnd) |} ;;!
        ret (Redeemed (plan_duration promo))
  end.

(** The [try { ... } catch (e)] around the request: a thrown error becomes
    a JSON error response, a returned body a 200. *)
Definition respond (h : Handler Body) (s : Store) : Response * Store :=
  match h s with
  | (inl msg, s') =>
      ({| status := if includes msg "Forbidden" then 403
                    else if includes msg "Unauthorized" then 401 else 400;
          body := ErrorBody msg |}, s')
  | (inr b, s') => ({| status := 200; body := b |}, s')
  end.

End AdminApi.

(* ===================================================================== *)
(** ** JavaScript numbers                                                 *)
(* ===================================================================== *)

Module Double.
Import SpecFloat.

(** A JavaScript number: an IEEE 754 binary64 value, with the operations of
    the specification of floating-point arithmetic of the library (round to
    nearest, ties to even). *)
Definition double : Type := spec_float.

Definition prec : Z := 53.
Definition emax : Z := 1024.

(** An integer literal, or an integer that reaches JavaScript as a number. *)
Definition of_Z (z : Z) : double := binary_normalize prec emax z 0 false.

Definition mul : double → double → double := SFmul prec emax.
Definition sub : double → double → double := SFsub prec emax.
Definition div : double → double → double := SFdiv prec emax.

(** A NUMERIC column as it reaches JavaScript: the database sends the
    decimal value, the JSON parser reads it as the nearest double.  The
    value is rounded once, as the quotient of its numerator and
    denominator. *)
Definition of_Q (q : Q) : double :=
  let r := Qred q in
  div (match Qnum r with
       | Z0 => S754_zero false
       | Zpos n => S754_finite false n 0
       | Zneg n => S754_finite true n 0
       end)
      (S754_finite false (Qden r) 0).


End Double.

(* ===================================================================== *)
(** ** razorpay-create-order: the amount charged                          *)
(* ===================================================================== *)

Module CreateOrder.
Import Db.

(** [Math.round]: the integer nearest to [x], the larger one at a tie; a
    result of zero keeps the sign of [x]. *)
Definition Math_round (x : Double.double) : Double.double :=
  match x with
  | SpecFloat.S754_finite s m (Zneg k) =>
      let den := (2 ^ Zpos k)%Z in
      let n := ((2 * (if s then Zneg m else Zpos m) + den) / (2 * den))%Z in
      match n with
      | Z0 => SpecFloat.S754_zero s
      | _ => Double.of_Z n
      end
  | _ => x
  end.

(** [Math.max] of two numbers: [NaN] when either is, and [+0] above [-0]. *)
Definition Math_max (a b : Double.double) : Double.double :=
  match SpecFloat.SFcompare a b with
  | Some Lt => b
  | Some Gt => a
  | Some Eq => match a with SpecFloat.S754_zero true => b | _ => a end
  | None => SpecFloat.S754_nan
  end.

Definition currencyOf (reqCurrency : string) : string :=
  if bool_decide (reqCurrency = "USD") then "USD" else "INR".

(** The [amount] sent to the payment gateway, in the smallest currency unit:
    the base price, less the discount of an active promo when [promoId]
    names one. *)
Definition orderAmount (s : Store) (reqCurrency : string) (promoId : option string)
    : Double.double :=
  let currency := currencyOf reqCurrency in
  let amount := if bool_decide (currency = "INR")
                then Double.of_Z 49900 else Double.of_Z 900 in
  match promoId with
  | Some i =>
      if bool_decide (i = EmptyString) then amount
      else
        match fst (select_active_promo_by_id i s) with
        | inr (Some promo) =>
            let value := Double.of_Q (discount_value promo) in
            if bool_decide (discount_type promo = "percentage")
            then Math_round
                   (Double.mul amount
                      (Double.sub (Double.of_Z 1) (Double.div value (Double.of_Z 100))))
            else if bool_decide (discount_type promo = "fixed")
            then
              let fixedPaise := Double.mul value (Double.of_Z 100) in
              Math_max (Double.of_Z 100) (Double.sub amount fixedPaise)
            else amount
        | _ => amount
        end
  | None => amount
  end.

End CreateOrder.

(* ===================================================================== *)
(** ** The useSubscription hook                                           *)
(* ===================================================================== *)

Module Subscription.
Import Db.

Inductive Plan : Type := free | pro.

(** The React state of the hook together with the signed-in user. *)
Record HookState : Type := {
  user : option string;
  plan : Plan;
  messagesUsedToday : Z
}.

Definition FREE_MSG_LIMIT : Z := 10.

Definition canSendMessage (h : HookState) : bool :=
  match plan h with
  | pro => true
  | free => (messagesUsedToday h <? FREE_MSG_LIMIT)%Z
  end.

(** [from('daily_usage').upsert({ user_id, usage_date, messages_sent },
    { onConflict: 'user_id,usage_date' })]; [fault] is a failure of the
    storage service, reported in the [error] field. *)
Definition upsert_usage (fault : bool) (u today : string) (n : Z) (s : Store)
    : option string * Store :=
  if fault then (Some "upsert failed", s)
  else (None, set_daily_usage (fun t => <[ (u, today) := n ]> t) s).

(** [incrementUsage]: the returned boolean, the hook state after the call
    and the store after the call. *)
Definition incrementUsage (fault : bool) (today : string) (h : HookState) (s : Store)
    : bool * HookState * Store :=
  match user h with
  | None => (false, h, s)
  | Some u =>
      match plan h with
      | pro => (true, h, s)
      | free =>
          if (FREE_MSG_LIMIT <=? messagesUsedToday h)%Z then (false, h, s)
          else
            let newCount := (messagesUsedToday h + 1)%Z in
            match upsert_usage fault u today newCount s with
            | (None, s') =>
                (true,
                 {| user := user h; plan := plan h; messagesUsedToday := newCount |},
                 s')
            | (Some _, s') => (false, h, s')
            end
      end
  end.

End Subscription.

(* ===================================================================== *)
(** ** Web Crypto: HMAC with SHA-256 (FIPS 180-4, RFC 2104)               *)
(* ===================================================================== *)

Module Crypto.
Local Open Scope Z_scope.

(** Octets are integers in [0, 256), words integers in [0, 2^32). *)
Definition w32 (x : Z) : Z := x mod 2 ^ 32.
Definition add32 (x y : Z) : Z := w32 (x + y).
Definition not32 (x : Z) : Z := Z.lxor x 0xffffffff.
Definition rotr (n x : Z) : Z := Z.lor (Z.shiftr x n) (w32 (Z.shiftl x (32 - n))).

Definition Ch (x y z : Z) : Z := Z.lxor (Z.land x y) (Z.land (not32 x) z).
Definition Maj (x y z : Z) : Z :=
  Z.lxor (Z.lxor (Z.land x y) (Z.land x z)) (Z.land y z).
Definition Sigma0 (x : Z) : Z := Z.lxor (Z.lxor (rotr 2 x) (rotr 13 x)) (rotr 22 x).
Definition Sigma1 (x : Z) : Z := Z.lxor (Z.lxor (rotr 6 x) (rotr 11 x)) (rotr 25 x).
Definition sigma0 (x : Z) : Z := Z.lxor (Z.lxor (rotr 7 x) (rotr 18 x)) (Z.shiftr x 3).
Definition sigma1 (x : Z) : Z := Z.lxor (Z.lxor (rotr 17 x) (rotr 19 x)) (Z.shiftr x 10).

(** The largest [r] with [r ^ 3 <= n], found bit by bit below [2 ^ bits]. *)
Fixpoint cube_root (bits : nat) (n r : Z) : Z :=
  match bits with
  | O => r
  | S b =>
      let r' := r + 2 ^ Z.of_nat b in
      cube_root b n (if r' * r' * r' <=? n then r' else r)
  end.

Definition is_prime (n : nat) : bool :=
  forallb (fun d => negb (Nat.eqb (n mod d) 0)) (seq 2 (n - 2)).

(** The primes up to 311: the first 64. *)
Definition primes : list Z := List.map Z.of_nat (List.filter is_prime (seq 2 310)).

(** The first 32 bits of the fractional parts of the cube roots of the
    first 64 primes. *)
Definition K256 : list Z :=
  Eval vm_compute in List.map (fun p => w32 (cube_root 40 (p * 2 ^ 96) 0)) primes.

(** The first 32 bits of the fractional parts of the square roots of the
    first 8 primes. *)
Definition H256 : list Z :=
  Eval vm_compute in List.map (fun p => w32 (Z.sqrt (p * 2 ^ 64))) (firstn 8 primes).

(** Big-endian octets of [x], [n] of them. *)
Fixpoint be_bytes (n : nat) (x : Z) : list Z :=
  match n with
  | O => []
  | S m => (Z.shiftr x (8 * Z.of_nat m)) mod 256 :: be_bytes m x
  end.

Definition be_word (bs : list Z) : Z := fold_left (fun acc b => acc * 256 + b) bs 0.

(** The message followed by 0x80, zeros, and its bit length on 8 octets. *)
Definition pad (msg : list Z) : list Z :=
  let len := Z.of_nat (length msg) in
  let zeros := Z.to_nat ((55 - len) mod 64) in
  (msg ++ [0x80] ++ repeat 0 zeros ++ be_bytes 8 (8 * len))%list.

Fixpoint chunks {A} (fuel n : nat) (l : list A) : list (list A) :=
  match fuel with
  | O => []
  | S f =>
      match l with
      | [] => []
      | _ => firstn n l :: chunks f n (skipn n l)
      end
  end.

(** The 64-word message schedule, grown from the 16 words of the block. *)
Fixpoint schedule (n : nat) (w : list Z) : list Z :=
  match n with
  | O => w
  | S m =>
      let t := length w in
      let at_ (k : nat) := nth (t - k) w 0 in
      schedule m
        (w ++ [add32 (add32 (sigma1 (at_ 2%nat)) (at_ 7%nat))
                     (add32 (sigma0 (at_ 15%nat)) (at_ 16%nat))])%list
  end.

Definition round (st : list Z) (kw : Z * Z) : list Z :=
  match st with
  | [a; b; c; d; e; f; g; h] =>
      let t1 := add32 (add32 (add32 h (Sigma1 e)) (add32 (Ch e f g) (fst kw))) (snd kw) in
      let t2 := add32 (Sigma0 a) (Maj a b c) in
      [add32 t1 t2; a; b; c; add32 d t1; e; f; g]
  | _ => st
  end.

Definition compress (h : list Z) (block : list Z) : list Z :=
  let w := schedule 48 (List.map be_word (chunks 16 4 block)) in
  List.map (fun p => add32 (fst p) (snd p))
           (combine h (fold_left round (combine K256 w) h)).

Definition sha256 (msg : list Z) : list Z :=
  let padded := pad msg in
  List.flat_map (be_bytes 4)
    (fold_left compress (chunks (length padded) 64 padded) H256).

Definition xor_pad (byte : Z) (key : list Z) : list Z :=
  List.map (fun k => Z.lxor k byte) key.

(** [crypto.subtle.sign('HMAC', key, data)] with hash SHA-256. *)
Definition hmac_sha256 (key data : list Z) : list Z :=
  let k0 := if (64 <? Z.of_nat (length key)) then sha256 key else key in
  let k := (k0 ++ repeat 0 (64 - length k0)%nat)%list in
  sha256 (xor_pad 0x5c k ++ sha256 (xor_pad 0x36 k ++ data))%list.

(** [new TextEncoder().encode(s)]: a [string] is its sequence of octets. *)
Fixpoint encode (s : string) : list Z :=
  match s with
  | EmptyString => []
  | String a r => Z.of_nat (nat_of_ascii a) :: encode r
  end.

Definition hex_digit (d : Z) : ascii :=
  ascii_of_nat (Z.to_nat (if d <? 10 then 48 + d else 87 + d)).

(** [Array.from(bytes).map(b => b.toString(16).padStart(2, '0')).join('')] *)
Fixpoint to_hex (bs : list Z) : string :=
  match bs with
  | [] => EmptyString
  | b :: r => String (hex_digit (b / 16)) (String (hex_digit (b mod 16)) (to_hex r))
  end.

Definition hmac_sha256_hex (secret data : string) : string :=
  to_hex (hmac_sha256 (encode secret) (encode data)).

End Crypto.

(* ===================================================================== *)
(** ** razorpay-verify                                                    *)
(* ===================================================================== *)

(** What the edge functions read from their environment: the configured
    secret, and the auth service resolving an [Authorization] header to the
    id of its user. *)
Record Env : Type := {
  RAZORPAY_KEY_SECRET : option string;
  sessions : gmap string string
}.

(** [if (!x)] on an optional string: [undefined], [null] and [''] are falsy. *)
Definition truthy (x : option string) : option string :=
  match x with
  | Some v => if bool_decide (v = EmptyString) then None else Some v
  | None => None
  end.

Module RazorpayVerify.
Import Db.
Local Open Scope handler_scope.

Definition verifySignature (orderId paymentId signature secret : string) : bool :=
  let data := orderId ++ "|" ++ paymentId in
  let hex := Crypto.hmac_sha256_hex secret data in
  bool_decide (hex = signature).

Record Request : Type := {
  authorization : option string;
  razorpay_order_id : string;
  razorpay_payment_id : string;
  razorpay_signature : string
}.

Inductive Body : Type :=
| ErrorBody (error : string)
| Success (plan : string).

Record Response : Type := { status : Z; body : Body }.

Definition handle (env : Env) (now : Z) (req : Request) : Handler Body :=
  match truthy (RAZORPAY_KEY_SECRET env) with
  | None => throw "Razorpay secret not configured"
  | Some secret =>
      match truthy (authorization req) with
      | None => throw "No auth token"
      | Some authHeader =>
          match sessions env !! authHeader with
          | None => throw "Unauthorized"
          | Some user =>
              let valid := verifySignature (razorpay_order_id req)
                             (razorpay_payment_id req) (razorpay_signature req) secret in
              if negb valid then throw "Invalid payment signature"
              else
                let periodEnd := AddMonths 1 (At now) in
                upsert_subscription now user
                  {| c_plan := Some "pro";
                     c_status := Some "active";
                     c_razorpay_payment_id := Some (Some (razorpay_payment_id req));
                     c_razorpay_subscription_id := Some (Some (razorpay_order_id req));
                     c_plan_duration := None;
                     c_current_period_start := Some (At now);
                     c_current_period_end := Some (Some periodEnd) |} ;;!
                ret (Success "pro")
          end
      end
  end.

(** The request handler: every thrown error is a 400. *)
Definition serve (env : Env) (now : Z) (req : Request) (s : Store) : Response * Store :=
  match handle env now req s with
  | (inl msg, s') => ({| status := 400; body := ErrorBody msg |}, s')
  | (inr b, s') => ({| status := 200; body := b |}, s')
  end.

End RazorpayVerify.

(* ===================================================================== *)
(** ** razorpay-webhook                                                   *)
(* ===================================================================== *)

Module RazorpayWebhook.
Import Db.
Local Open Scope handler_scope.

Definition verifyWebhookSignature (body signature secret : string) : bool :=
  let hex := Crypto.hmac_sha256_hex secret body in
  bool_decide (hex = signature).

(** [event.payload.payment.entity], as far as the handler reads it.  For
    [id] and [order_id], [None] is a missing key ([undefined]), [Some None]
    is [null]. *)
Record Payment : Type := {
  id : option (option string);
  order_id : option (option string);
  notes_user_id : option string
}.

(** The parsed notification: [event.event] and the payment entity, absent
    when a link of [event.payload.payment.entity] is missing. *)
Record Event : Type := {
  event : string;
  payment : option Payment
}.

Record Request : Type := {
  text : string;
  x_razorpay_signature : option string
}.

Inductive Body : Type :=
| ErrorBody (error : string)
| Ok.

Record Response : Type := { status : Z; body : Body }.

Definition activate (now : Z) (p : option Payment) : Handler unit :=
  match p with
  | None => throw "Cannot read properties of undefined"
  | Some payment =>
      match truthy (notes_user_id payment) with
      | Some userId =>
          let periodEnd := AddMonths 1 (At now) in
          upsert_subscription now userId
            {| c_plan := Some "pro";
               c_status := Some "active";
               c_razorpay_payment_id := id payment;
               c_razorpay_subscription_id := order_id payment;
               c_plan_duration := None;
               c_current_period_start := Some (At now);
               c_current_period_end := Some (Some periodEnd) |}
      | None => ret tt
      end
  end.

(** [JSON_parse] stands for [JSON.parse] followed by the field reads; [None]
    is a body that is not JSON. *)
Definition serve (JSON_parse : string → option Event) (env : Env) (now : Z)
    (req : Request) (s : Store) : Response * Store :=
  match truthy (RAZORPAY_KEY_SECRET env) with
  | None => ({| status := 500; body := ErrorBody "Razorpay secret not configured" |}, s)
  | Some secret =>
      let body_text := text req in
      let signature := default EmptyString (truthy (x_razorpay_signature req)) in
      let valid := verifyWebhookSignature body_text signature secret in
      if negb valid
      then ({| status := 400; body := ErrorBody "Invalid signature" |}, s)
      else
        let after_parse : Handler Body :=
          match JSON_parse body_text with
          | None => throw "Unexpected token in JSON"
          | Some ev =>
              (if bool_decide (event ev = "payment.captured")
               then activate now (payment ev)
               else if bool_decide (event ev = "payment.failed")
               then match payment ev with
                    | None => throw "Cannot read properties of undefined"
                    | Some _ => ret tt
                    end
               else ret tt) ;;!
              ret Ok
          end in
        match after_parse s with
        | (inl msg, s') => ({| status := 500; body := ErrorBody msg |}, s')
        | (inr b, s') => ({| status := 200; body := b |}, s')
        end
  end.

End RazorpayWebhook.

(* ===================================================================== *)
(** ** JavaScript strings and numbers                                     *)
(* ===================================================================== *)

Module Js.
Local Open Scope N_scope.

(** A JavaScript string is a sequence of UTF-16 code units. *)
Definition jsstring : Type := list N.

(** A string literal of the ASCII range. *)
Fixpoint str (s : string) : jsstring :=
  match s with
  | EmptyString => []
  | String a r => N_of_ascii a :: str r
  end.

Definition is_digit (c : N) : bool := (48 <=? c) && (c <=? 57).

(** LineTerminator: LF, CR, LS, PS. *)
Definition is_line_terminator (c : N) : bool :=
  (c =? 0x0A) || (c =? 0x0D) || (c =? 0x2028) || (c =? 0x2029).

(** WhiteSpace and LineTerminator: what [\s] matches and [trim] strips. *)
Definition is_space (c : N) : bool :=
  (c =? 0x09) || (c =? 0x0B) || (c =? 0x0C) || (c =? 0x20) || (c =? 0xA0)
  || (c =? 0x1680) || ((0x2000 <=? c) && (c <=? 0x200A)) || (c =? 0x202F)
  || (c =? 0x205F) || (c =? 0x3000) || (c =? 0xFEFF) || is_line_terminator c.

Fixpoint trimStart (s : jsstring) : jsstring :=
  match s with
  | c :: r => if is_space c then trimStart r else s
  | [] => []
  end.

Definition trimEnd (s : jsstring) : jsstring := rev (trimStart (rev s)).

Definition trim (s : jsstring) : jsstring := trimEnd (trimStart s).

(** [s.split(sep)] for a separator that is one code unit, or a regular
    expression that is one character class: the pieces between the
    separators, always at least one. *)
Fixpoint split (sep : N → bool) (s : jsstring) : list jsstring :=
  match s with
  | [] => [[]]
  | c :: r =>
      if sep c then [] :: split sep r
      else match split sep r with
           | piece :: rest => (c :: piece) :: rest
           | [] => [[c]]
           end
  end.

(** A number: an integer or [NaN]. *)
Inductive num : Type := NaN | Num (z : Z).

Definition gt (a b : num) : bool :=
  match a, b with Num x, Num y => (y <? x)%Z | _, _ => false end.
Definition lt (a b : num) : bool :=
  match a, b with Num x, Num y => (x <? y)%Z | _, _ => false end.
Definition add (a b : num) : num :=
  match a, b with Num x, Num y => Num (x + y) | _, _ => NaN end.
Definition sub (a b : num) : num :=
  match a, b with Num x, Num y => Num (x - y) | _, _ => NaN end.
(** [a === b] *)
Definition strict_eq (a b : num) : bool :=
  match a, b with Num x, Num y => (x =? y)%Z | _, _ => false end.
(** [a || b] on numbers: [0] and [NaN] are falsy. *)
Definition or_else (a b : num) : num :=
  match a with
  | Num 0%Z | NaN => b
  | _ => a
  end.

Definition digit_value (c : N) : option Z :=
  if is_digit c then Some (Z.of_N (c - 48))
  else if (97 <=? c) && (c <=? 102) then Some (Z.of_N (c - 87))
  else if (65 <=? c) && (c <=? 70) then Some (Z.of_N (c - 55))
  else None.

(** The value of the longest prefix of [s] made of digits of [radix];
    [None] when that prefix is empty. *)
Fixpoint digits (radix : Z) (acc : option Z) (s : jsstring) : option Z :=
  match s with
  | c :: r =>
      match digit_value c with
      | Some d =>
          if (d <? radix)%Z
          then digits radix (Some (default 0%Z acc * radix + d)%Z) r
          else acc
      | None => acc
      end
  | [] => acc
  end.

(** A [0x] or [0X] prefix switches to radix 16. *)
Definition parse_unsigned (s : jsstring) : option Z :=
  match s with
  | c0 :: c1 :: r =>
      if (c0 =? 48) && ((c1 =? 120) || (c1 =? 88)) then digits 16 None r
      else digits 10 None s
  | _ => digits 10 None s
  end.

(** [parseInt(x)] without a radix: leading white space is skipped, a sign is
    read, then the longest run of digits; [undefined] reads as the string
    "undefined", which has no digits. *)
Definition parseInt (x : option jsstring) : num :=
  match x with
  | None => NaN
  | Some s =>
      let s := trimStart s in
      let '(negative, s) :=
        match s with
        | c :: r =>
            if c =? 45 then (true, r)
            else if c =? 43 then (false, r)
            else (false, s)
        | [] => (false, s)
        end in
      match parse_unsigned s with
      | Some v => Num (if negative : bool then - v else v)
      | None => NaN
      end
  end.

(** [Number(s)] on the pieces of a time token: the empty string is [0], a
    run of decimal digits is its value, anything else reads as [NaN]. *)
Definition Number (s : jsstring) : num :=
  match trim s with
  | [] => Num 0
  | t => if forallb is_digit t
         then match digits 10 None t with Some v => Num v | None => NaN end
         else NaN
  end.

End Js.

(* ===================================================================== *)
(** ** Regular expressions: a backtracking matcher                        *)
(* ===================================================================== *)

Module Regex.
Import Js.

Inductive regex : Type :=
| Eps
| Bol                                  (* ^ (no multiline flag) *)
| Eol                                  (* $ (no multiline flag) *)
| Chr (p : N → bool)                   (* a character class *)
| Seq (a b : regex)
| Alt (a b : regex)
| Group (n : nat) (a : regex)          (* capturing group number n *)
| Rep (lo : nat) (hi : option nat) (greedy : bool) (a : regex).

Record MState : Type := {
  pos : nat;
  rest : jsstring;
  caps : list (nat * jsstring)
}.

Definition under (hi : option nat) (count : nat) : bool :=
  match hi with
  | Some h => (count <? h)%nat
  | None => true
  end.

Definition orelse {A} (x : option A) (y : unit → option A) : option A :=
  match x with
  | Some v => Some v
  | None => y tt
  end.

(** [rmatch r st k]: match [r] at [st], then the continuation [k];
    alternatives are tried in the order of the backtracking semantics. *)
Fixpoint rmatch (r : regex) (st : MState) (k : MState → option MState)
    {struct r} : option MState :=
  match r with
  | Eps => k st
  | Bol => if (pos st =? 0)%nat then k st else None
  | Eol => match rest st with [] => k st | _ :: _ => None end
  | Chr p =>
      match rest st with
      | c :: t =>
          if p c then k {| pos := S (pos st); rest := t; caps := caps st |} else None
      | [] => None
      end
  | Seq a b => rmatch a st (fun st' => rmatch b st' k)
  | Alt a b => orelse (rmatch a st k) (fun _ => rmatch b st k)
  | Group n a =>
      rmatch a st
        (fun st' =>
           k {| pos := pos st'; rest := rest st';
                caps := (n, firstn (pos st' - pos st) (rest st)) :: caps st' |})
  | Rep lo hi greedy a =>
      (fix loop (fuel count : nat) (st : MState) {struct fuel} : option MState :=
         match fuel with
         | O => None
         | S f =>
             let more (_ : unit) :=
               if under hi count
               then rmatch a st
                      (fun st' =>
                         if (lo <=? count)%nat && (pos st' =? pos st)%nat then None
                         else loop f (S count) st')
               else None in
             let stop (_ : unit) := if (lo <=? count)%nat then k st else None in
             if greedy then orelse (more tt) stop else orelse (stop tt) more
         end) (lo + length (rest st) + 2)%nat O st
  end.

(** Try [r] at every start index from the left, as [RegExp.prototype.exec]
    does: the index of the match and its final state. *)
Fixpoint exec_from (r : regex) (i : nat) (s : jsstring) : option (nat * MState) :=
  match rmatch r {| pos := i; rest := s; caps := [] |} Some with
  | Some st => Some (i, st)
  | None =>
      match s with
      | [] => None
      | _ :: t => exec_from r (S i) t
      end
  end.

Definition exec (r : regex) (s : jsstring) : option (nat * MState) := exec_from r 0 s.

(** [r.test(s)] *)
Definition test (r : regex) (s : jsstring) : bool :=
  match exec r s with Some _ => true | None => false end.

Definition group (n : nat) (st : MState) : option jsstring :=
  snd <$> List.find (fun c => (fst c =? n)%nat) (caps st).

(** [s.replace(r, '')] for a pattern without the global flag: the first
    match is cut out. *)
Definition remove_first (r : regex) (s : jsstring) : jsstring :=
  match exec r s with
  | Some (i, st) => (firstn i s ++ rest st)%list
  | None => s
  end.

Fixpoint cat (rs : list regex) : regex :=
  match rs with
  | [] => Eps
  | [r] => r
  | r :: rs' => Seq r (cat rs')
  end.

Definition opt (r : regex) : regex := Rep 0 (Some 1%nat) true r.
Definition star (r : regex) : regex := Rep 0 None true r.
Definition plus (r : regex) : regex := Rep 1 None true r.
Definition lazy_plus (r : regex) : regex := Rep 1 None false r.
Definition times (lo hi : nat) (r : regex) : regex := Rep lo (Some hi) true r.

Definition one_of (cs : string) : regex :=
  Chr (fun c => existsb (N.eqb c) (str cs)).
Definition chr (c : string) : regex := one_of c.

(** A letter under the [i] flag matches in both cases; other characters
    match themselves. *)
Definition fold_case (c : N) : N :=
  if ((97 <=? c) && (c <=? 122))%N then (c - 32)%N else c.
Fixpoint ci (s : jsstring) : regex :=
  match s with
  | [] => Eps
  | [c] => Chr (fun x => (fold_case x =? fold_case c)%N)
  | c :: r => Seq (Chr (fun x => (fold_case x =? fold_case c)%N)) (ci r)
  end.

Definition digit : regex := Chr is_digit.               (* \d *)
Definition space : regex := Chr is_space.               (* \s *)
Definition dot : regex := Chr (fun c => negb (is_line_terminator c)).   (* . *)
Definition any : regex := Chr (fun _ => true).          (* [\s\S] *)

End Regex.

(* ===================================================================== *)
(** ** The chat-export parser                                             *)
(* ===================================================================== *)

Module ChatParser.
Import Js Regex.

(** The arguments of [new Date(year, month, day, h, minutes)]: a local,
    naive date-time, the month counted from 0. *)
Record DateFields : Type := {
  year : num;
  month : num;
  day : num;
  hours : num;
  minutes : num
}.

(** [id] stands for [crypto.randomUUID()]: the n-th message created gets
    the token [n]. *)
Record ParsedMessage : Type := {
  id : nat;
  timestamp : DateFields;
  sender : jsstring;
  text : jsstring;
  isSystem : bool
}.

Record ParseResult : Type := {
  messages : list ParsedMessage;
  participants : list jsstring;
  preview : list jsstring
}.

Definition date_sep : regex := one_of "/-.".
(** Hyphen, en dash, em dash. *)
Definition dash : regex :=
  Chr (fun c => (c =? 0x2D)%N || (c =? 0x2013)%N || (c =? 0x2014)%N).

Definition WHATSAPP_REGEX : regex :=
  cat [ Bol; opt (chr "[");
        Group 1 (cat [ times 1 2 digit; date_sep; times 1 2 digit; date_sep;
                       times 2 4 digit ]);
        opt (chr ","); plus space;
        Group 2 (cat [ times 1 2 digit; chr ":"; times 2 2 digit;
                       opt (Seq (chr ":") (times 2 2 digit));
                       opt (cat [ star space; one_of "AaPp"; one_of "Mm" ]) ]);
        opt (chr "]"); star space; opt dash; star space;
        Group 3 (lazy_plus dot); chr ":"; space;
        Group 4 (star any) ].

Definition SYSTEM_PATTERNS : list regex :=
  [ ci (str "messages and calls are end-to-end encrypted");
    ci (str "created group");
    ci (str "added you");
    ci (str "changed the subject");
    ci (str "changed this group");
    Seq (ci (str "left")) Eol;
    ci (str "removed ");
    ci (str "joined using");
    ci (str "changed the group");
    ci (str "your security code");
    ci (str "disappeared message");
    ci (str "message was deleted");
    ci (str "you were added") ].

Definition is_date_sep (c : N) : bool := existsb (N.eqb c) (str "/-.").

Definition parseTimestamp (dateStr timeStr : jsstring) : DateFields :=
  let parts := split is_date_sep dateStr in
  let part (i : nat) := parseInt (nth_error parts i) in
  let '(day, month) :=
    if gt (part 0%nat) (Num 12) then (part 0%nat, sub (part 1%nat) (Num 1))
    else if gt (part 1%nat) (Num 12) then (part 1%nat, sub (part 0%nat) (Num 1))
    else (part 1%nat, sub (part 0%nat) (Num 1)) in
  let year := part 2%nat in
  let year := if lt year (Num 100) then add year (Num 2000) else year in
  let timeParts := trim timeStr in
  let isPM := test (ci (str "pm")) timeParts in
  let isAM := test (ci (str "am")) timeParts in
  let timeParts := remove_first (cat [ star space; one_of "AaPp"; one_of "Mm" ]) timeParts in
  let nums := List.map Number (split (N.eqb 58) timeParts) in
  let hours := nth 0 nums NaN in
  let minutes := nth 1 nums NaN in
  let h := hours in
  let h := if isPM && negb (strict_eq h (Num 12)) then add h (Num 12) else h in
  let h := if isAM && strict_eq h (Num 12) then Num 0 else h in
  {| year := year; month := month; day := day; hours := h;
     minutes := or_else minutes (Num 0) |}.

Definition isSystemMessage (text : jsstring) : bool :=
  existsb (fun p => test p text) SYSTEM_PATTERNS.

(** The variables of the loop of [parseWhatsAppChat]. *)
Record State : Type := {
  st_messages : list ParsedMessage;
  participantSet : list jsstring;      (* a Set, in insertion order *)
  st_preview : list jsstring;
  currentMsg : option ParsedMessage;
  lineCount : nat;
  created : nat                        (* messages created so far *)
}.

(** [Set.prototype.add] *)
Definition set_add (x : jsstring) (l : list jsstring) : list jsstring :=
  if bool_decide (x ∈ l) then l else (l ++ [x])%list.

(** Commit the in-flight message, as both the header branch and the end of
    the input do. *)
Definition commit (cur : option ParsedMessage)
    (msgs : list ParsedMessage) (set : list jsstring)
    : list ParsedMessage * list jsstring :=
  match cur with
  | Some m =>
      ((msgs ++ [m])%list, if isSystem m then set else set_add (sender m) set)
  | None => (msgs, set)
  end.

Definition append_line (m : ParsedMessage) (line : jsstring) : ParsedMessage :=
  {| id := id m; timestamp := timestamp m; sender := sender m;
     text := (text m ++ 10%N :: line)%list; isSystem := isSystem m |}.

(** [line.match(WHATSAPP_REGEX)]: the four captured groups. *)
Definition match_header (line : jsstring)
    : option (jsstring * jsstring * jsstring * jsstring) :=
  match exec WHATSAPP_REGEX line with
  | Some (_, st) =>
      Some (default [] (group 1 st), default [] (group 2 st),
            default [] (group 3 st), default [] (group 4 st))
  | None => None
  end.

(** One iteration of [for (const line of lines)]. *)
Definition step (st : State) (line : jsstring) : State :=
  let '(preview, lineCount) :=
    if (lineCount st <? 30)%nat
    then ((st_preview st ++ [line])%list, S (lineCount st))
    else (st_preview st, lineCount st) in
  match match_header line with
  | Some (dateStr, timeStr, sender, text) =>
      let '(msgs, set) := commit (currentMsg st) (st_messages st) (participantSet st) in
      let timestamp := parseTimestamp dateStr timeStr in
      let sysCheck := isSystemMessage (trim text) in
      {| st_messages := msgs; participantSet := set; st_preview := preview;
         currentMsg := Some {| id := created st; timestamp := timestamp;
                               sender := trim sender; text := trim text;
                               isSystem := sysCheck |};
         lineCount := lineCount; created := S (created st) |}
  | None =>
      let cur :=
        match currentMsg st with
        | Some m =>
            match trim line with
            | [] => Some m
            | _ :: _ => Some (append_line m line)
            end
        | None => None
        end in
      {| st_messages := st_messages st; participantSet := participantSet st;
         st_preview := preview; currentMsg := cur;
         lineCount := lineCount; created := created st |}
  end.

Definition init : State :=
  {| st_messages := []; participantSet := []; st_preview := [];
     currentMsg := None; lineCount := 0; created := 0 |}.

(** The state after the loop over the lines. *)
Definition run (lines : list jsstring) : State := fold_left step lines init.

(** The code after the loop: the last commit and the returned object. *)
Definition finish (st : State) : ParseResult :=
  let '(msgs, set) := commit (currentMsg st) (st_messages st) (participantSet st) in
  {| messages := List.filter (fun m => negb (isSystem m)) msgs;
     participants := set;
     preview := st_preview st |}.

Definition lines_of (content : jsstring) : list jsstring := split (N.eqb 10) content.

Definition parseWhatsAppChat (content : jsstring) : ParseResult :=
  finish (run (lines_of content)).

End ChatParser.

(* ===================================================================== *)
(** ** What the specification says, in its own words                      *)
(* ===================================================================== *)

Module Spec.
Import Db.

(** The UNIQUE constraint on [promo_codes.code]. *)
Definition unique_codes (t : gmap string PromoCode) : Prop :=
  ∀ i j p q, t !! i = Some p → t !! j = Some q → code p = code q → i = j.

(** Promo validity as the specification words it: the code exists, is
    active, the current time lies within [validFrom, validUntil-or-infinity],
    timesUsed < maxUses when maxUses is set, and the user has no prior
    redemption of the code. *)
Definition promo_valid (s : Store) (now : Z) (user c : string) : Prop :=
  ∃ i p,
    promo_codes s !! i = Some p
    ∧ code p = AdminApi.toUpperCase c
    ∧ is_active p = true
    ∧ (valid_from p ≤ now)%Z
    ∧ (∀ t, valid_until p = Some t → (now ≤ t)%Z)
    ∧ (∀ m, max_uses p = Some m → (times_used p < m)%Z)
    ∧ ((i, user) ∉ promo_redemptions s).

(** The invariant of a promo code: timesUsed ≤ maxUses when maxUses is set. *)
Definition within_cap (p : PromoCode) : Prop :=
  ∀ m, max_uses p = Some m → (times_used p ≤ m)%Z.




(** The signed data as the specification words it: the concatenation of
    order id and payment id. *)
Definition signed_concatenation (orderId paymentId : string) : string :=
  orderId ++ paymentId.

(** The value of a run of decimal digits. *)
Definition decimal (ds : Js.jsstring) : Z :=
  fold_left (fun acc c => (acc * 10 + (Z.of_N c - 48))%Z) ds 0%Z.

(** A non-empty run of decimal digits. *)
Definition numeric (ds : Js.jsstring) : Prop :=
  ds ≠ [] ∧ forallb Js.is_digit ds = true.

(** The message was created from a header line of [lines], and is flagged
    as system exactly when the trimmed body of that line matches a system
    pattern. *)
Definition from_header (lines : list Js.jsstring) (m : ChatParser.ParsedMessage)
    : Prop :=
  ∃ line d t sd tx,
    line ∈ lines
    ∧ ChatParser.match_header line = Some (d, t, sd, tx)
    ∧ ChatParser.sender m = Js.trim sd
    ∧ ChatParser.isSystem m = ChatParser.isSystemMessage (Js.trim tx).

(** The messages that [parseWhatsAppChat] returns: those not flagged. *)
Definition retained (m : ChatParser.ParsedMessage) : bool :=
  negb (ChatParser.isSystem m).

(** The distinct elements of a list, in the order of their first occurrence. *)
Definition first_seen (l : list Js.jsstring) : list Js.jsstring :=
  fold_left (fun acc x => ChatParser.set_add x acc) l [].

End Spec.

(* ===================================================================== *)
(** ** Concrete stores and requests used by the examples                  *)
(* ===================================================================== *)

Module Examples.
Import Db.

Definition promo (cap : option Z) (used from : Z) (kind : string) (value : Q)
    : PromoCode :=
  {| code := "LAUNCH"; discount_type := kind; discount_value := value;
     max_uses := cap; times_used := used; valid_from := from;
     valid_until := None; plan_duration := "month"; is_active := true |}.

Definition store_of (p : PromoCode) (redeemed : gset (string * string)) : Store :=
  {| promo_codes := {[ "p1" := p ]};
     promo_redemptions := redeemed;
     user_subscriptions := ∅;
     daily_usage := ∅ |}.

(** A 100% code capped at one use, already used once by u1. *)
Definition store_cap_reached : Store :=
  store_of (promo (Some 1%Z) 1 0 "percentage" 100) {[ ("p1", "u1") ]}.

(** An uncapped 100% code that u1 has already redeemed. *)
Definition store_redeemed : Store :=
  store_of (promo None 1 0 "percentage" 100) {[ ("p1", "u1") ]}.

(** A code that only becomes valid at time 5000. *)
Definition store_future : Store :=
  store_of (promo None 0 5000 "percentage" 100) ∅.

(** A code whose cap is 0, used three times. *)
Definition store_cap_zero : Store :=
  store_of (promo (Some 0%Z) 3 0 "percentage" 100) ∅.

(** A fresh 50% code. *)
Definition store_half : Store :=
  store_of (promo None 0 0 "percentage" 50) ∅.

Definition env : Env :=
  {| RAZORPAY_KEY_SECRET := Some "s3cret";
     sessions := {[ "Bearer t1" := "u1" ]} |}.

(** A payment signed the way the gateway signs it. *)
Definition paid : RazorpayVerify.Request :=
  {| RazorpayVerify.authorization := Some "Bearer t1";
     RazorpayVerify.razorpay_order_id := "order_1";
     RazorpayVerify.razorpay_payment_id := "pay_1";
     RazorpayVerify.razorpay_signature :=
       "44422d618d76e6e81c5f002f4d5108385750b52eb8db4e9c7a4231ddfac02840" |}.

Definition forged : RazorpayVerify.Request :=
  {| RazorpayVerify.authorization := Some "Bearer t1";
     RazorpayVerify.razorpay_order_id := "order_1";
     RazorpayVerify.razorpay_payment_id := "pay_1";
     RazorpayVerify.razorpay_signature := "00" |}.

(** A store in which nobody has a subscription yet. *)
Definition store_unpaid : Store := store_of (promo None 0 0 "percentage" 100) ∅.

Definition captured : RazorpayWebhook.Event :=
  {| RazorpayWebhook.event := "payment.captured";
     RazorpayWebhook.payment :=
       Some {| RazorpayWebhook.id := Some (Some "pay_1");
               RazorpayWebhook.order_id := Some (Some "order_1");
               RazorpayWebhook.notes_user_id := Some "u1" |} |}.

(** A decoder that reads every body as the captured-payment notification. *)
Definition decode (_ : string) : option RazorpayWebhook.Event := Some captured.

Definition forged_hook : RazorpayWebhook.Request :=
  {| RazorpayWebhook.text := "{}"; RazorpayWebhook.x_razorpay_signature := Some "00" |}.


Definition hook (u : option string) (p : Subscription.Plan) (n : Z)
    : Subscription.HookState :=
  {| Subscription.user := u; Subscription.plan := p;
     Subscription.messagesUsedToday := n |}.

Definition LF : string := String (ascii_of_nat 10) EmptyString.

(** The two-message scenario of the specification. *)
Definition chat : Js.jsstring :=
  Js.str ("12/03/24, 9:15 am - Alice: hi" ++ LF ++ "there" ++ LF
          ++ "12/03/24, 9:16 am - Bob: hello").

Definition line1 : Js.jsstring := Js.str "12/03/24, 9:15 am - Alice: hi".

Definition notice : Js.jsstring :=
  Js.str "12/03/24, 9:00 am - Alice: Messages and calls are end-to-end encrypted".

(** Thirty lines of text followed by the encryption notice. *)
Definition long_chat : Js.jsstring :=
  (List.concat (repeat (Js.str ("x" ++ LF)) 30) ++ notice)%list.

End Examples.

(* ===================================================================== *)
(** ** Auxiliary notions for the parser                                   *)
(* ===================================================================== *)

Module ParserSpec.
Import Js Regex ChatParser.
Local Open Scope list_scope.

(** [!line.trim()]: the line is empty or white space only. *)
Definition blank (line : jsstring) : bool :=
  match trim line with
  | [] => true
  | _ :: _ => false
  end.

(** What a header line contributes: the trimmed sender, the timestamp and the
    system flag of the message it starts. *)
Definition header_of (line : jsstring) : option (jsstring * DateFields * bool) :=
  match match_header line with
  | Some (d, t, sd, tx) => Some (trim sd, parseTimestamp d t, isSystemMessage (trim tx))
  | None => None
  end.

Definition headers (lines : list jsstring) : list (jsstring * DateFields * bool) :=
  omap header_of lines.

Definition info (m : ParsedMessage) : jsstring * DateFields * bool :=
  (sender m, timestamp m, isSystem m).

(** The in-flight message as a list. *)
Definition in_flight (st : State) : list ParsedMessage :=
  match currentMsg st with
  | Some m => [m]
  | None => []
  end.

End ParserSpec.

(* ===================================================================== *)
(** ** Auxiliary notions for the matcher                                  *)
(* ===================================================================== *)

Module RegexAux.
Import Js Regex.
Local Open Scope list_scope.

Section RepLoop.
Variable m : MState → (MState → option MState) → option MState.
Variables (lo : nat) (hi : option nat) (greedy : bool).
Variable k : MState → option MState.

(** The loop of a repetition, by name: [m] matches the repeated expression. *)
Fixpoint rep_loop (fuel count : nat) (st : MState) {struct fuel} : option MState :=
  match fuel with
  | O => None
  | S f =>
      let more (_ : unit) :=
        if under hi count
        then m st
               (fun st' =>
                  if (lo <=? count)%nat && (pos st' =? pos st)%nat then None
                  else rep_loop f (S count) st')
        else None in
      let stop (_ : unit) := if (lo <=? count)%nat then k st else None in
      if greedy then orelse (more tt) stop else orelse (stop tt) more
  end.

End RepLoop.

(** Some two adjacent code units satisfy [f] and [g] in turn. *)
Fixpoint has_pair (f g : N → bool) (s : jsstring) : bool :=
  match s with
  | c :: t =>
      match t with
      | d :: _ => (f c && g d) || has_pair f g t
      | [] => false
      end
  | [] => false
  end.

(** The pattern cut from a time token: [/\s*[AaPp][Mm]/]. *)
Definition marker_regex : regex :=
  cat [ star space; one_of "AaPp"; one_of "Mm" ].

Definition is_pm_letter (c : N) : bool := (c =? 112)%N || (c =? 80)%N.
Definition is_am_letter (c : N) : bool := (c =? 97)%N || (c =? 65)%N.
Definition is_m_letter (c : N) : bool := (c =? 109)%N || (c =? 77)%N.

(** A digit or a colon: what a time token is made of before its marker. *)
Definition plain (c : N) : bool := is_digit c || (c =? 58)%N.

(** A time token: hours, minutes, optional seconds, and an optional am/pm
    marker after any white space. *)
Definition time_token (hh mm : jsstring) (ss : option jsstring) (ws : jsstring)
    (marker : option (N * N)) : jsstring :=
  (hh ++ 58%N :: mm ++ match ss with Some s => 58%N :: s | None => [] end)
  ++ match marker with Some (a, m) => ws ++ [a; m] | None => [] end.

Definition seconds_part (ss : option jsstring) : jsstring :=
  match ss with Some s => 58%N :: s | None => [] end.

Definition marker_part (ws : jsstring) (marker : option (N * N)) : jsstring :=
  match marker with Some (a, m) => ws ++ [a; m] | None => [] end.

(** The hour on the 24-hour clock: pm adds 12 unless the hour is 12, am turns
    12 into 0, no marker leaves the hour alone. *)
Definition to24 (marker : option (N * N)) (h : Z) : Z :=
  match marker with
  | None => h
  | Some (a, _) =>
      if is_pm_letter a then (if (h =? 12)%Z then 12%Z else (h + 12)%Z)
      else (if (h =? 12)%Z then 0%Z else h)
  end.

End RegexAux.

(* ===================================================================== *)
(** ** Callers: the send loop, the upgrade dialog                         *)
(* ===================================================================== *)

Module Flows.
Import Db.

(** A run of sends through one mounted hook: each send has its own clock
    date and may meet a storage fault.  The result counts the accepted sends
    and carries the hook state and the store along. *)
Definition send_once (acc : nat * Subscription.HookState * Store)
    (send : bool * string) : nat * Subscription.HookState * Store :=
  let '(n, h, s) := acc in
  let '(ok, h', s') := Subscription.incrementUsage (fst send) (snd send) h s in
  (if ok : bool then S n else n, h', s').

Definition send_all (sends : list (bool * string)) (h : Subscription.HookState)
    (s : Store) : nat * Subscription.HookState * Store :=
  fold_left send_once sends (0%nat, h, s).

(** The price before any discount, in the smallest unit of the currency. *)
Definition base_amount (reqCurrency : string) : Double.double :=
  if bool_decide (reqCurrency = "USD") then Double.of_Z 900 else Double.of_Z 49900.

(** [isFreePromo] of the upgrade dialog, computed from the answer of
    [validate-promo]: whether the dialog redeems directly instead of
    creating an order. *)
Definition client_isFreePromo (promoResult : AdminApi.Body) : bool :=
  match promoResult with
  | AdminApi.Valid discount_type discount_value _ _ =>
      (bool_decide (discount_type = "percentage") && Qle_bool 100 discount_value)
      || (bool_decide (discount_type = "fixed") && Qle_bool 499 discount_value)
  | _ => false
  end.

End Flows.

(* ===================================================================== *)
(** ** The row a confirmed payment leaves                                 *)
(* ===================================================================== *)

Module Billing.
Import Db.

(** The [user_subscriptions] row after a payment confirmed at [now]: the
    columns of the upsert, and the duration column of the earlier row (the
    column default when there was none). *)
Definition paid_row (now : Z) (payment order : option string)
    (old : option Subscription) : Subscription :=
  {| plan := "pro";
     status := "active";
     razorpay_payment_id := payment;
     razorpay_subscription_id := order;
     sub_plan_duration := from_option sub_plan_duration "month" old;
     current_period_start := At now;
     current_period_end := Some (AddMonths 1 (At now)) |}.

(** The store after such a confirmation for [user]. *)
Definition confirm (now : Z) (user : string) (payment order : option string)
    (s : Store) : Store :=
  set_user_subscriptions
    (fun t => <[ user := paid_row now payment order (t !! user) ]> t) s.

(** The row after a [payment.captured] notification for [pay]: an id the
    notification does not carry is not sent with the upsert, so the column
    keeps the value of the earlier row (null when there was none). *)
Definition notified_row (now : Z) (pay : RazorpayWebhook.Payment)
    (old : option Subscription) : Subscription :=
  paid_row now
    (default (from_option razorpay_payment_id None old) (RazorpayWebhook.id pay))
    (default (from_option razorpay_subscription_id None old)
             (RazorpayWebhook.order_id pay))
    old.

Definition notify (now : Z) (user : string) (pay : RazorpayWebhook.Payment)
    (s : Store) : Store :=
  set_user_subscriptions
    (fun t => <[ user := notified_row now pay (t !! user) ]> t) s.

End Billing.

(* ===================================================================== *)
(** ** ChatPage: picking the two names, storing and restoring the context *)
(* ===================================================================== *)

Module ChatPage.
Import Js ChatParser.
Local Open Scope list_scope.

(** [participants.find(p => p !== me) || ''] of the mapping screen. *)
Definition other_of (participants : list jsstring) (me : jsstring) : jsstring :=
  match List.find (fun p => negb (bool_decide (p = me))) participants with
  | Some p => p
  | None => []
  end.

(** [me && other]: whether the mapping screen offers to start the chat. *)
Definition can_start (me other : jsstring) : bool :=
  negb (bool_decide (me = [])) && negb (bool_decide (other = [])).

(** [l.slice(-n)] *)
Definition slice_last {A} (n : nat) (l : list A) : list A :=
  drop (length l - n) l.

(** [parts.join(sep)] *)
Fixpoint join (sep : jsstring) (parts : list jsstring) : jsstring :=
  match parts with
  | [] => []
  | [p] => p
  | p :: rest => p ++ sep ++ join sep rest
  end.

Definition colon_space : jsstring := [58; 32]%N.
Definition newline : jsstring := [10]%N.

(** [m.sender === me ? me : other] *)
Definition role (me other sender : jsstring) : jsstring :=
  if bool_decide (sender = me) then me else other.

(** The recent context as [handleMapped] stores it and as the chat view
    builds it: the last 40 messages, one per line, each labelled with one of
    the two names.  The messages are read through their [sender] and [text]
    fields only. *)
Definition recentContext {M} (sender text : M → jsstring) (me other : jsstring)
    (messages : list M) : jsstring :=
  join newline
    (List.map (fun m => role me other (sender m) ++ colon_space ++ text m)
              (slice_last 40 messages)).

Fixpoint starts_with (needle s : jsstring) : bool :=
  match needle, s with
  | [], _ => true
  | _ :: _, [] => false
  | a :: needle', b :: s' => N.eqb a b && starts_with needle' s'
  end.

(** [s.indexOf(needle)]; [None] is -1. *)
Fixpoint indexOf (needle s : jsstring) : option nat :=
  if starts_with needle s then Some 0%nat
  else match s with
       | [] => None
       | _ :: r => S <$> indexOf needle r
       end.

(** A message restored from the stored context; its [id] is [imp-] followed
    by [index]. *)
Record Imported : Type := {
  index : nat;
  imp_sender : jsstring;
  imp_text : jsstring;
  imp_timestamp : Z;
  imp_isSystem : bool
}.

Definition restore (now : Z) (i : nat) (l : jsstring) : Imported :=
  let colonIdx := indexOf colon_space l in
  {| index := i;
     imp_sender := match colonIdx with Some k => take k l | None => [] end;
     imp_text := match colonIdx with Some k => drop (k + 2) l | None => l end;
     imp_timestamp := now;
     imp_isSystem := false |}.

(** The imported messages after [loadSession] has read the stored
    [recent_context]; [None] is a missing row or a null column. *)
Definition loadSession (now : Z) (recent_context : option jsstring)
    (importedMessages : list Imported) : list Imported :=
  match recent_context with
  | None | Some [] => importedMessages
  | Some c => imap (restore now) (split (N.eqb 10) c)
  end.

End ChatPage.

Module ContextSpec.
Import Js ChatParser ChatPage.
Local Open Scope list_scope.

Definition no_newline (x : jsstring) : Prop :=
  forallb (fun c => negb (N.eqb 10 c)) x = true.

(** The number of line feeds of a text. *)
Definition newlines (x : jsstring) : nat := length (List.filter (N.eqb 10) x).

(** The messages as they should come back: numbered from 0, each with its
    label and its text. *)
Definition labelled (now : Z) (me other : jsstring) (ms : list ParsedMessage)
    : list Imported :=
  imap (fun i m => {| index := i;
                      imp_sender := role me other (sender m);
                      imp_text := text m;
                      imp_timestamp := now;
                      imp_isSystem := false |}) ms.

End ContextSpec.

(* ===================================================================== *)
(** ** admin-api: creating and deleting promo codes                       *)
(* ===================================================================== *)

Module PromoAdmin.
Import Db AdminApi.
Local Open Scope handler_scope.

(** The body of a [create-promo] request; an absent field is [None]. *)
Record CreateBody : Type := {
  b_code : option string;
  b_discount_type : option string;
  b_discount_value : option Q;
  b_max_uses : option Z;
  b_valid_from : option Z;
  b_valid_until : option Z;
  b_plan_duration : option string;
  b_is_active : option bool
}.

Inductive Done : Type := Success.

(** The admin gate: a row of [user_roles] with the caller and the role
    admin; [admins] are the users that have one. *)
Definition require_admin (admins : gset string) (user : string) : Handler unit :=
  if bool_decide (user ∈ admins) then ret tt
  else throw "Forbidden: Admin access required".

(** The row [create-promo] sends to the table.  Absent columns take the
    column defaults; [x || y] falls back on an absent, zero or empty [x]. *)
Definition new_promo (now : Z) (c : string) (body : CreateBody) : PromoCode :=
  {| code := toUpperCase c;
     discount_type := default "percentage" (b_discount_type body);
     discount_value := default 0%Q (b_discount_value body);
     max_uses := match b_max_uses body with
                 | Some m => if (m =? 0)%Z then None else Some m
                 | None => None
                 end;
     times_used := 0;
     valid_from := default now (b_valid_from body);
     valid_until := b_valid_until body;
     plan_duration := match b_plan_duration body with
                      | Some d => if bool_decide (d = EmptyString) then "month" else d
                      | None => "month"
                      end;
     is_active := match b_is_active body with
                  | Some false => false
                  | _ => true
                  end |}.

(** [from('promo_codes').insert(row)] with the generated primary key [id]:
    the CHECK constraints, the UNIQUE constraint on [code] and the primary
    key make the insert fail; the failure is the [error] field of the
    result, its text is the database's. *)
Definition insert_promo (id : string) (row : PromoCode) : Handler (option string) :=
  fun s =>
    if negb (bool_decide (discount_type row = "percentage")
             || bool_decide (discount_type row = "fixed"))
       || negb (bool_decide (plan_duration row = "week")
                || bool_decide (plan_duration row = "month")
                || bool_decide (plan_duration row = "year"))
    then (inr (Some "new row violates check constraint"), s)
    else if existsb (fun r => bool_decide (code (snd r) = code row))
                    (map_to_list (promo_codes s))
    then (inr (Some "duplicate key value violates unique constraint"), s)
    else match promo_codes s !! id with
         | Some _ => (inr (Some "duplicate key value violates unique constraint"), s)
         | None => (inr None, set_promo_codes (insert id row) s)
         end.

(** The [create-promo] action; [id] is the key the database generates. *)
Definition createPromo (now : Z) (id : string) (body : CreateBody) : Handler Done :=
  match b_code body with
  | None => throw "Cannot read properties of undefined (reading 'toUpperCase')"
  | Some c =>
      let! error := insert_promo id (new_promo now c body) in
      match error with
      | Some msg => throw msg
      | None => ret Success
      end
  end.

(** [from('promo_codes').delete().eq('id', i)]; the redemptions of the code
    go with it (ON DELETE CASCADE). *)
Definition delete_promo (i : string) : Handler unit :=
  fun s =>
    (inr tt,
     set_promo_redemptions (filter (fun r => r.1 ≠ i))
       (set_promo_codes (delete i) s)).

(** The [delete-promo] action: the result of the delete is not looked at. *)
Definition deletePromo (i : string) : Handler Done :=
  delete_promo i ;;! ret Success.

(** An action behind the admin gate. *)
Definition as_admin {A} (admins : gset string) (user : string) (action : Handler A)
    : Handler A :=
  require_admin admins user ;;! action.

(** The status of the answer: every thrown error is a 403, 401 or 400 by
    its message. *)
Definition respond {A} (h : Handler A) (s : Store) : Z * (string + A) * Store :=
  match h s with
  | (inl msg, s') =>
      (if includes msg "Forbidden" then 403%Z
       else if includes msg "Unauthorized" then 401%Z else 400%Z, inl msg, s')
  | (inr b, s') => (200%Z, inr b, s')
  end.

End PromoAdmin.

Module Invariants.
Import Db.

(** The foreign key of [promo_redemptions]: every redemption is of a code
    that exists. *)
Definition redemptions_refer (s : Store) : Prop :=
  ∀ i u, (i, u) ∈ promo_redemptions s → is_Some (promo_codes s !! i).

(** What the constraints of the promo tables guarantee. *)
Definition consistent (s : Store) : Prop :=
  Spec.unique_codes (promo_codes s) ∧ redemptions_refer s.

End Invariants.

Module OrderSpec.
Import CreateOrder.




End OrderSpec.

(* ===================================================================== *)
(** ** Further sample inputs                                              *)
(* ===================================================================== *)

Module Samples.
Import Js.
Local Open Scope list_scope.

(** A [payment.captured] notification as the gateway signs it: the signature
    header is the keyed hash of the raw body. *)
Definition signed_hook : RazorpayWebhook.Request :=
  {| RazorpayWebhook.text := "{}"%string;
     RazorpayWebhook.x_razorpay_signature :=
       Some (Crypto.hmac_sha256_hex "s3cret"%string "{}"%string) |}.

Definition captured_payment : RazorpayWebhook.Payment :=
  {| RazorpayWebhook.id := Some (Some "pay_1"%string);
     RazorpayWebhook.order_id := Some (Some "order_1"%string);
     RazorpayWebhook.notes_user_id := Some "u1"%string |}.

Definition admin_users : gset string := {[ "admin1"%string ]}.

(** A request for a code of 100 off, valid for a week's plan. *)
Definition welcome : PromoAdmin.CreateBody :=
  {| PromoAdmin.b_code := Some "welcome"%string;
     PromoAdmin.b_discount_type := Some "fixed"%string;
     PromoAdmin.b_discount_value := Some 100%Q;
     PromoAdmin.b_max_uses := Some 0%Z;
     PromoAdmin.b_valid_from := None;
     PromoAdmin.b_valid_until := None;
     PromoAdmin.b_plan_duration := Some "week"%string;
     PromoAdmin.b_is_active := None |}.

(** Codes with a fractional discount: 42.5 percent, and 256.1 off. *)
Definition store_fraction : Db.Store :=
  Examples.store_of (Examples.promo None 0 0 "percentage"%string (85 # 2)%Q) ∅.

Definition store_fixed_fraction : Db.Store :=
  Examples.store_of (Examples.promo None 0 0 "fixed"%string (2561 # 10)%Q) ∅.

Definition alice : jsstring := str "Alice".
Definition bob : jsstring := str "Bob".

(** The messages of a chat of two one-line messages, and those of the
    scenario chat, whose first message has two lines. *)
Definition short_messages : list ChatParser.ParsedMessage :=
  ChatParser.messages
    (ChatParser.parseWhatsAppChat
       (str "12/03/24, 9:15 am - Alice: hi" ++ 10%N
          :: str "12/03/24, 9:16 am - Bob: hello")).

Definition scenario_messages : list ChatParser.ParsedMessage :=
  ChatParser.messages (ChatParser.parseWhatsAppChat Examples.chat).

(** A captured payment that names the user but carries neither an id nor
    an order id, and a decoder that reads every body as its notification. *)
Definition bare_payment : RazorpayWebhook.Payment :=
  {| RazorpayWebhook.id := None;
     RazorpayWebhook.order_id := None;
     RazorpayWebhook.notes_user_id := Some "u1"%string |}.

Definition decode_bare (_ : string) : option RazorpayWebhook.Event :=
  Some {| RazorpayWebhook.event := "payment.captured"%string;
          RazorpayWebhook.payment := Some bare_payment |}.

(** Two lines of plain text, no header among them. *)
Definition plain_text : jsstring := str "hello" ++ 10%N :: str "world".

(** The lines that follow the first header of the scenario, with a blank
    line in between. *)
Definition continuation : list jsstring := [str "there"; str "  "; str "again"].

End Samples.

(* ===================================================================== *)
(** ** Theorems: promo validation and redemption                          *)
(* ===================================================================== *)

Section PromoFacts.
Import Db AdminApi Spec.

Lemma singleton_of_all_equal {A} (l : list A) (x : A) :
  NoDup l → x ∈ l → (∀ y, y ∈ l → y = x) → l = [x].
Proof.
  intros Hnd Hin Hall.
  destruct l as [|a [|b l']].
  - inversion Hin.
  - f_equal. apply Hall. left.
  - exfalso. inversion Hnd as [|? ? Hnotin _]; subst.
    apply Hnotin.
    rewrite (Hall a) by left.
    rewrite <- (Hall b) by (right; left). left.
Qed.

Lemma NoDup_List_filter {A} (f : A → bool) (l : list A) :
  NoDup l → NoDup (List.filter f l).
Proof.
  induction 1 as [|x l Hx Hnd IH]; simpl; [constructor|].
  destruct (f x); [|assumption].
  constructor; [|assumption].
  rewrite list_elem_of_In, filter_In, <- list_elem_of_In. tauto.
Qed.

Lemma elem_of_active_by_code (t : gmap string PromoCode) c i p :
  (i, p) ∈ List.filter (fun r => bool_decide (code (snd r) = c) && is_active (snd r))
                       (map_to_list t)
  ↔ t !! i = Some p ∧ code p = c ∧ is_active p = true.
Proof.
  rewrite list_elem_of_In, filter_In, <- list_elem_of_In, elem_of_map_to_list.
  simpl. rewrite andb_true_iff, bool_decide_eq_true. tauto.
Qed.

(** Under the UNIQUE constraint the lookup by code finds the active row
    with that code, and finds nothing only when there is none. *)
Lemma select_by_code_Some (s : Store) c i p :
  unique_codes (promo_codes s) →
  select_active_promo_by_code c s = (inr (Some (i, p)), s)
  ↔ promo_codes s !! i = Some p ∧ code p = c ∧ is_active p = true.
Proof.
  intros Huniq. unfold select_active_promo_by_code.
  set (l := List.filter _ _).
  split.
  - intros H. assert (Hl : maybeSingle l = Some (i, p)) by congruence.
    apply elem_of_active_by_code. fold l.
    destruct l as [|x [|y l']]; simpl in Hl; try discriminate.
    injection Hl as ->. left.
  - intros (Hlk & Hc & Ha).
    assert (Hin : (i, p) ∈ l) by (apply elem_of_active_by_code; auto).
    rewrite (singleton_of_all_equal l (i, p)); [reflexivity| |assumption|].
    + apply NoDup_List_filter, NoDup_map_to_list.
    + intros [j q] Hq. apply elem_of_active_by_code in Hq as (Hlq & Hcq & _).
      assert (j = i) by (eapply Huniq; eauto; congruence). subst j.
      congruence.
Qed.

Lemma select_by_code_None (s : Store) c :
  select_active_promo_by_code c s = (inr None, s)
  → unique_codes (promo_codes s)
  → ∀ i p, promo_codes s !! i = Some p → code p = c → is_active p = false.
Proof.
  intros Hsel Huniq i p Hlk Hc.
  destruct (is_active p) eqn:Ha; [|reflexivity].
  assert (H : select_active_promo_by_code c s = (inr (Some (i, p)), s))
    by (apply select_by_code_Some; auto).
  congruence.
Qed.

Lemma select_by_code_total (s : Store) c :
  ∃ r, select_active_promo_by_code c s = (inr r, s).
Proof. eexists. reflexivity. Qed.

Lemma expired_false now p :
  expired now p = false ↔ ∀ t, valid_until p = Some t → (now ≤ t)%Z.
Proof.
  unfold expired. destruct (valid_until p) as [t|].
  - rewrite Z.ltb_ge. split; [intros H t' [= <-]; exact H | intros H; apply H; reflexivity].
  - split; [intros _ t [=] | reflexivity].
Qed.

Lemma exhausted_false p :
  exhausted p = false
  ↔ ∀ m, max_uses p = Some m → m = 0%Z ∨ (times_used p < m)%Z.
Proof.
  unfold exhausted. destruct (max_uses p) as [m|].
  - rewrite andb_false_iff, negb_false_iff, Z.eqb_eq, Z.leb_gt.
    split; [intros H m' [= <-]; exact H | intros H; apply H; reflexivity].
  - split; [intros _ m [=] | reflexivity].
Qed.

End PromoFacts.

Section ValidatePromo.
Import Db AdminApi Spec.

(** What [validatePromo] computes once the lookup by code is known. *)
Lemma validatePromo_unfold now user c s r :
  select_active_promo_by_code (toUpperCase c) s = (inr r, s) →
  validatePromo now user c s =
    (inr match r with
         | None => Invalid "Invalid promo code"
         | Some (i, p) =>
             if expired now p then Invalid "Promo code expired"
             else if exhausted p then Invalid "Promo code fully redeemed"
             else if bool_decide ((i, user) ∈ promo_redemptions s)
                  then Invalid "Already used this promo code"
                  else Valid (discount_type p) (discount_value p) (plan_duration p) i
         end, s).
Proof.
  intros Hsel. unfold validatePromo, bind. rewrite Hsel.
  destruct r as [[i p]|]; [|reflexivity].
  destruct (expired now p); [reflexivity|].
  destruct (exhausted p); [reflexivity|].
  unfold select_redemption.
  destruct (bool_decide _); reflexivity.
Qed.

Lemma validatePromo_row now user c s i p :
  unique_codes (promo_codes s) →
  promo_codes s !! i = Some p → code p = toUpperCase c → is_active p = true →
  validatePromo now user c s =
    (inr (if expired now p then Invalid "Promo code expired"
          else if exhausted p then Invalid "Promo code fully redeemed"
          else if bool_decide ((i, user) ∈ promo_redemptions s)
               then Invalid "Already used this promo code"
               else Valid (discount_type p) (discount_value p) (plan_duration p) i), s).
Proof.
  intros Hu Hlk Hc Ha.
  apply (validatePromo_unfold now user c s (Some (i, p))).
  apply select_by_code_Some; auto.
Qed.

Lemma validatePromo_no_row now user c s :
  unique_codes (promo_codes s) →
  (∀ i p, promo_codes s !! i = Some p → code p = toUpperCase c → is_active p = false) →
  validatePromo now user c s = (inr (Invalid "Invalid promo code"), s).
Proof.
  intros Hu Hnone.
  destruct (select_by_code_total s (toUpperCase c)) as [[[i p]|] Hsel].
  - apply select_by_code_Some in Hsel as (Hlk & Hc & Ha); [|assumption].
    rewrite (Hnone i p Hlk Hc) in Ha. discriminate.
  - apply (validatePromo_unfold now user c s None Hsel).
Qed.

(** C3 (amended).  [validatePromo] leaves the store as it found it and never
    throws.  It answers valid=true, with the discount terms of the row and
    without consuming the code, exactly when an active row carries the
    upper-cased code, its [valid_until] (if any) is not before the current
    time, its cap (if set and not 0) is above [times_used], and the user has
    no redemption of it; [valid_from] is not consulted.  Each failure has
    its own reason; an expired code is reported expired whatever its
    remaining uses. *)
Theorem validatePromo_spec (s : Store) (now : Z) (user c : string) :
  unique_codes (promo_codes s) →
  (∃ b, validatePromo now user c s = (inr b, s))
  ∧ (∀ dt dv pd i,
       validatePromo now user c s = (inr (Valid dt dv pd i), s)
       ↔ ∃ p, promo_codes s !! i = Some p
              ∧ code p = toUpperCase c
              ∧ is_active p = true
              ∧ (∀ t, valid_until p = Some t → (now ≤ t)%Z)
              ∧ (∀ m, max_uses p = Some m → m = 0%Z ∨ (times_used p < m)%Z)
              ∧ ((i, user) ∉ promo_redemptions s)
              ∧ dt = discount_type p ∧ dv = discount_value p
              ∧ pd = plan_duration p)
  ∧ ((∀ i p, promo_codes s !! i = Some p → code p = toUpperCase c →
             is_active p = false) →
     validatePromo now user c s = (inr (Invalid "Invalid promo code"), s))
  ∧ (∀ i p, promo_codes s !! i = Some p → code p = toUpperCase c →
            is_active p = true →
       (∀ t, valid_until p = Some t → (t < now)%Z →
          validatePromo now user c s = (inr (Invalid "Promo code expired"), s))
       ∧ ((∀ t, valid_until p = Some t → (now ≤ t)%Z) →
          ∀ m, max_uses p = Some m → m ≠ 0%Z → (m ≤ times_used p)%Z →
          validatePromo now user c s = (inr (Invalid "Promo code fully redeemed"), s))
       ∧ ((∀ t, valid_until p = Some t → (now ≤ t)%Z) →
          (∀ m, max_uses p = Some m → m = 0%Z ∨ (times_used p < m)%Z) →
          (i, user) ∈ promo_redemptions s →
          validatePromo now user c s
          = (inr (Invalid "Already used this promo code"), s))).
Proof.
  intros Hu. split; [|split; [|split]].
  - destruct (select_by_code_total s (toUpperCase c)) as [r Hsel].
    rewrite (validatePromo_unfold _ _ _ _ _ Hsel). eauto.
  - intros dt dv pd i. split.
    + intros Hv.
      destruct (select_by_code_total s (toUpperCase c)) as [r Hsel].
      rewrite (validatePromo_unfold _ _ _ _ _ Hsel) in Hv.
      destruct r as [[j p]|]; [|discriminate].
      apply select_by_code_Some in Hsel as (Hlk & Hc & Ha); [|assumption].
      destruct (expired now p) eqn:He; [discriminate|].
      destruct (exhausted p) eqn:Hx; [discriminate|].
      destruct (bool_decide _) eqn:Hr; [discriminate|].
      apply bool_decide_eq_false in Hr.
      injection Hv as <- <- <- <-.
      exists p. repeat split; auto.
      * apply expired_false, He.
      * apply exhausted_false, Hx.
    + intros (p & Hlk & Hc & Ha & Hexp & Hcap & Hnr & -> & -> & ->).
      rewrite (validatePromo_row now user c s i p) by assumption.
      apply expired_false in Hexp. apply exhausted_false in Hcap.
      rewrite Hexp, Hcap, bool_decide_eq_false_2 by assumption. reflexivity.
  - apply validatePromo_no_row, Hu.
  - intros i p Hlk Hc Ha.
    rewrite (validatePromo_row now user c s i p) by assumption.
    split; [|split].
    + intros t Ht Hlt. unfold expired. rewrite Ht.
      apply Z.ltb_lt in Hlt. rewrite Hlt. reflexivity.
    + intros Hexp m Hm Hm0 Hle. apply expired_false in Hexp. rewrite Hexp.
      unfold exhausted. rewrite Hm.
      apply Z.eqb_neq in Hm0. apply Z.leb_le in Hle. rewrite Hm0, Hle. reflexivity.
    + intros Hexp Hcap Hr. apply expired_false in Hexp. apply exhausted_false in Hcap.
      rewrite Hexp, Hcap, bool_decide_eq_true_2 by assumption. reflexivity.
Qed.

End ValidatePromo.

Section RedeemPromo.
Import Db AdminApi Spec.

Lemma unique_codes_singleton i (p : PromoCode) :
  unique_codes {[ i := p ]}.
Proof.
  intros j k q r Hj Hk _.
  apply lookup_singleton_Some in Hj as [<- _].
  apply lookup_singleton_Some in Hk as [<- _].
  reflexivity.
Defined.

(** The path of [redeemPromo] for an active code that fully covers the
    price: nothing on it looks at the cap, the expiry or the result of the
    redemption insert. *)
Lemma redeemPromo_free now user i s p :
  promo_codes s !! i = Some p → is_active p = true → isFreePromo p = true →
  ∃ s', redeemPromo now user i s = (inr (Redeemed (plan_duration p)), s')
        ∧ promo_codes s' !! i = Some (with_times_used (times_used p + 1) p)
        ∧ (∃ sub, user_subscriptions s' !! user = Some sub
                  ∧ plan sub = "pro" ∧ Db.status sub = "active").
Proof.
  intros Hlk Ha Hfree.
  unfold redeemPromo, bind, select_active_promo_by_id.
  rewrite Hlk, Ha, Hfree. simpl.
  unfold insert_redemption.
  destruct (bool_decide _); simpl;
    (eexists; split; [reflexivity|]; simpl; split;
     [rewrite lookup_alter_eq, Hlk; reflexivity
     | eexists; rewrite lookup_insert_eq; split; [reflexivity|simpl; auto]]).
Qed.

Lemma redeemPromo_not_free now user i s p :
  promo_codes s !! i = Some p → is_active p = true → isFreePromo p = false →
  redeemPromo now user i s
  = (inl "This promo code gives a discount. Please proceed with payment.", s).
Proof.
  intros Hlk Ha Hfree.
  unfold redeemPromo, bind, select_active_promo_by_id.
  rewrite Hlk, Ha, Hfree. reflexivity.
Qed.

Lemma redeemPromo_no_row now user i s :
  (∀ p, promo_codes s !! i = Some p → is_active p = false) →
  redeemPromo now user i s = (inl "Invalid promo code", s).
Proof.
  intros Hnone.
  unfold redeemPromo, bind, select_active_promo_by_id.
  destruct (promo_codes s !! i) as [p|] eqn:Hlk; [|reflexivity].
  rewrite (Hnone p eq_refl). reflexivity.
Qed.

Lemma isFreePromo_true p :
  isFreePromo p = true
  ↔ (discount_type p = "percentage" ∧ (100 <= discount_value p)%Q)
    ∨ (discount_type p = "fixed" ∧ (499 <= discount_value p)%Q).
Proof.
  unfold isFreePromo, baseAmountINR.
  rewrite orb_true_iff, !andb_true_iff, !bool_decide_eq_true, !Qle_bool_iff.
  reflexivity.
Qed.

End RedeemPromo.

Section Numbers.

(** Equal rationals reach JavaScript as the same number. *)
Lemma of_Q_Qeq (q r : Q) : (q == r)%Q → Double.of_Q q = Double.of_Q r.
Proof. intros H. unfold Double.of_Q. rewrite (Qred_complete q r H). reflexivity. Qed.

End Numbers.

Section PromoClaims.
Import Db AdminApi Spec Examples.

Ltac open_store :=
  unfold store_cap_reached, store_redeemed, store_future, store_cap_zero,
         store_half, store_of in *;
  cbn [promo_codes promo_redemptions user_subscriptions daily_usage] in *.

(** C3 (counterexample).  A code whose [valid_from] lies in the future is
    reported valid although the specification's validity does not hold;
    so is a code with a cap of 0 that has been used. *)
Lemma validatePromo_spec_counterexample :
  (fst (validatePromo 1000 "u1" "launch" store_future)
     = inr (Valid "percentage" 100 "month" "p1")
   ∧ ¬ promo_valid store_future 1000 "u1" "launch")
  ∧ (fst (validatePromo 1000 "u1" "launch" store_cap_zero)
       = inr (Valid "percentage" 100 "month" "p1")
     ∧ ¬ promo_valid store_cap_zero 1000 "u1" "launch").
Proof.
  split; (split; [vm_compute; reflexivity|]).
  - intros (i & p & Hlk & _ & _ & Hfrom & _). open_store.
    apply lookup_singleton_Some in Hlk as [_ <-].
    simpl in Hfrom. lia.
  - intros (i & p & Hlk & _ & _ & _ & _ & Hcap & _). open_store.
    apply lookup_singleton_Some in Hlk as [_ <-].
    specialize (Hcap 0%Z eq_refl). simpl in Hcap. lia.
Qed.

Lemma validatePromo_spec_witness :
  validatePromo 1000 "u2" "launch" store_cap_reached
  = (inr (Invalid "Promo code fully redeemed"), store_cap_reached).
Proof.
  destruct (validatePromo_spec store_cap_reached 1000 "u2" "launch"
              (unique_codes_singleton "p1" _)) as (_ & _ & _ & Hrow).
  destruct (Hrow "p1" (promo (Some 1%Z) 1 0 "percentage" 100))
    as (_ & Hfull & _).
  - apply lookup_singleton_eq.
  - reflexivity.
  - reflexivity.
  - apply (Hfull (fun t Ht => ltac:(discriminate Ht)) 1%Z).
    + reflexivity.
    + discriminate.
    + simpl. lia.
Defined.

(** C1.  [redeemPromo] run on a code whose cap is reached: the state before
    satisfies timesUsed ≤ maxUses and [validatePromo] reports the code fully
    redeemed, yet the redemption by a new user succeeds and leaves
    times_used = 2 above max_uses = 1. *)
Theorem redeemPromo_exceeds_cap :
  let before := store_cap_reached in
  let after := snd (respond (redeemPromo 1000 "u2" "p1") before) in
  (promo_codes before !! "p1" = Some (promo (Some 1%Z) 1 0 "percentage" 100)
   ∧ within_cap (promo (Some 1%Z) 1 0 "percentage" 100))
  ∧ fst (validatePromo 1000 "u2" "launch" before)
    = inr (Invalid "Promo code fully redeemed")
  ∧ fst (respond (redeemPromo 1000 "u2" "p1") before)
    = {| status := 200; body := Redeemed "month" |}
  ∧ (∃ p, promo_codes after !! "p1" = Some p
          ∧ times_used p = 2%Z ∧ max_uses p = Some 1%Z ∧ ¬ within_cap p).
Proof.
  simpl. split; [|split; [|split]].
  - split; [apply lookup_singleton_eq|].
    intros m Hm. simpl in Hm. injection Hm as <-. simpl. lia.
  - vm_compute. reflexivity.
  - vm_compute. reflexivity.
  - destruct (redeemPromo_free 1000 "u2" "p1" store_cap_reached
                (promo (Some 1%Z) 1 0 "percentage" 100))
      as (s' & Hrun & Hp & _); [apply lookup_singleton_eq|reflexivity|reflexivity|].
    unfold respond. rewrite Hrun. simpl.
    eexists. split; [exact Hp|]. simpl. repeat split.
    intros Hcap. specialize (Hcap 1%Z eq_refl). simpl in Hcap. lia.
Qed.

(** C2.  [redeemPromo] run by a user who already holds a redemption of the
    code: the insert into [promo_redemptions] fails on the UNIQUE
    constraint, and the handler goes on regardless: it answers success,
    increments times_used and upgrades the subscription. *)
Theorem redeemPromo_duplicate_goes_through :
  let before := store_redeemed in
  let after := snd (respond (redeemPromo 1000 "u1" "p1") before) in
  ("p1", "u1") ∈ promo_redemptions before
  ∧ (∃ e, insert_redemption "p1" "u1" before = (inr (Some e), before))
  ∧ fst (respond (redeemPromo 1000 "u1" "p1") before)
    = {| status := 200; body := Redeemed "month" |}
  ∧ times_used <$> promo_codes before !! "p1" = Some 1%Z
  ∧ times_used <$> promo_codes after !! "p1" = Some 2%Z
  ∧ user_subscriptions before !! "u1" = None
  ∧ plan <$> user_subscriptions after !! "u1" = Some "pro".
Proof.
  simpl. split; [|split; [|split; [|split; [|split; [|split]]]]].
  - apply elem_of_singleton. reflexivity.
  - eexists. vm_compute. reflexivity.
  - vm_compute. reflexivity.
  - vm_compute. reflexivity.
  - vm_compute. reflexivity.
  - reflexivity.
  - vm_compute. reflexivity.
Qed.

(** C9.  [redeemPromo] grants pro status directly only when the discount
    covers the base price: a percentage of at least 100, or a fixed amount
    of at least 499.  Any other active code is turned away with the store
    untouched; in particular a 50% code, for which [razorpay-create-order]
    charges half of the base amount. *)
Theorem redeemPromo_only_full_discount (now : Z) (user i : string) (s : Store) :
  (∀ b s', redeemPromo now user i s = (inr b, s') →
     ∃ p, promo_codes s !! i = Some p ∧ is_active p = true
          ∧ ((discount_type p = "percentage" ∧ (100 <= discount_value p)%Q)
             ∨ (discount_type p = "fixed" ∧ (499 <= discount_value p)%Q))
          ∧ b = Redeemed (plan_duration p))
  ∧ (∀ msg s', redeemPromo now user i s = (inl msg, s') → s' = s)
  ∧ (∀ p, promo_codes s !! i = Some p → is_active p = true →
       discount_type p = "percentage" → (discount_value p == 50)%Q →
       respond (redeemPromo now user i) s
       = ({| status := 400;
             body := ErrorBody
               "This promo code gives a discount. Please proceed with payment." |}, s)
       ∧ (i ≠ EmptyString →
          CreateOrder.orderAmount s "INR" (Some i) = Double.of_Z 24950
          ∧ CreateOrder.orderAmount s "USD" (Some i) = Double.of_Z 450)).
Proof.
  split; [|split].
  - intros b s' Hrun.
    destruct (promo_codes s !! i) as [p|] eqn:Hlk.
    + destruct (is_active p) eqn:Ha.
      * destruct (isFreePromo p) eqn:Hfree.
        -- destruct (redeemPromo_free now user i s p Hlk Ha Hfree) as (s'' & Hrun' & _).
           rewrite Hrun' in Hrun. injection Hrun as <- <-.
           exists p. repeat split; auto. apply isFreePromo_true, Hfree.
        -- rewrite (redeemPromo_not_free now user i s p Hlk Ha Hfree) in Hrun.
           discriminate.
      * rewrite redeemPromo_no_row in Hrun; [discriminate|].
        intros q Hq. congruence.
    + rewrite redeemPromo_no_row in Hrun; [discriminate|].
      intros q Hq. congruence.
  - intros msg s' Hrun.
    destruct (promo_codes s !! i) as [p|] eqn:Hlk.
    + destruct (is_active p) eqn:Ha.
      * destruct (isFreePromo p) eqn:Hfree.
        -- destruct (redeemPromo_free now user i s p Hlk Ha Hfree) as (s'' & Hrun' & _).
           rewrite Hrun' in Hrun. discriminate.
        -- rewrite (redeemPromo_not_free now user i s p Hlk Ha Hfree) in Hrun.
           congruence.
      * rewrite redeemPromo_no_row in Hrun; [congruence|].
        intros q Hq. congruence.
    + rewrite redeemPromo_no_row in Hrun; [congruence|].
      intros q Hq. congruence.
  - intros p Hlk Ha Hty Hval.
    assert (Hfree : isFreePromo p = false).
    { destruct (isFreePromo p) eqn:Hf; [|reflexivity].
      apply isFreePromo_true in Hf as [[_ Hle]|[Hfix _]].
      - rewrite Hval in Hle. apply Qle_bool_iff in Hle. discriminate.
      - rewrite Hty in Hfix. discriminate. }
    split.
    + unfold respond.
      rewrite (redeemPromo_not_free now user i s p Hlk Ha Hfree). reflexivity.
    + intros Hi. unfold CreateOrder.orderAmount, select_active_promo_by_id.
      rewrite bool_decide_eq_false_2 by assumption.
      cbn [fst]. rewrite Hlk, Ha, Hty, (of_Q_Qeq _ _ Hval).
      split; vm_compute; reflexivity.
Qed.

Lemma redeemPromo_only_full_discount_witness :
  respond (redeemPromo 1000 "u1" "p1") store_half
  = ({| status := 400;
        body := ErrorBody
          "This promo code gives a discount. Please proceed with payment." |},
     store_half)
  ∧ CreateOrder.orderAmount store_half "INR" (Some "p1") = Double.of_Z 24950.
Proof.
  destruct (proj2 (proj2 (redeemPromo_only_full_discount 1000 "u1" "p1" store_half))
              (promo None 0 0 "percentage" 50)) as [Hreject Hcharge].
  - apply lookup_singleton_eq.
  - reflexivity.
  - reflexivity.
  - reflexivity.
  - split; [exact Hreject|].
    apply Hcharge. discriminate.
Defined.

End PromoClaims.

(* ===================================================================== *)
(** ** Theorems: the daily quota                                          *)
(* ===================================================================== *)

Section Quota.
Import Db Subscription Spec Examples.






End Quota.

(* ===================================================================== *)
(** ** Theorems: payment confirmation                                     *)
(* ===================================================================== *)

Section Payments.
Import Db Spec Examples.

(** The digests of the implementation agree with the published vectors of
    FIPS 180-4 and RFC 4231. *)
Example sha256_abc :
  Crypto.to_hex (Crypto.sha256 (Crypto.encode "abc"))
  = "ba7816bf8f01cfea414140de5dae2223b00361a396177a9cb410ff61f20015ad".
Proof. vm_compute. reflexivity. Qed.

Example hmac_sha256_rfc4231_case2 :
  Crypto.hmac_sha256_hex "Jefe" "what do ya want for nothing?"
  = "5bdcc146bf60754e6a042426089575c75a003f089d2739839dec58b964ec3843".
Proof. vm_compute. reflexivity. Qed.

Lemma signature_or_empty (x : option string) :
  default EmptyString (truthy x) = default EmptyString x.
Proof.
  destruct x as [v|]; [|reflexivity]. simpl.
  destruct (bool_decide (v = EmptyString)) eqn:Hv; [|reflexivity].
  apply bool_decide_eq_true in Hv. subst v. reflexivity.
Qed.

(** [razorpay-verify] either throws before any write, or the signature
    check has passed. *)
Lemma verify_handle_cases env now req s :
  (∃ msg, RazorpayVerify.handle env now req s = (inl msg, s))
  ∨ (∃ secret,
       truthy (RAZORPAY_KEY_SECRET env) = Some secret
       ∧ Crypto.hmac_sha256_hex secret
           (RazorpayVerify.razorpay_order_id req ++ "|"
            ++ RazorpayVerify.razorpay_payment_id req)
         = RazorpayVerify.razorpay_signature req).
Proof.
  unfold RazorpayVerify.handle.
  destruct (truthy (RAZORPAY_KEY_SECRET env)) as [secret|]; [|left; eexists; reflexivity].
  destruct (truthy (RazorpayVerify.authorization req)); [|left; eexists; reflexivity].
  destruct (sessions env !! _); [|left; eexists; reflexivity].
  unfold RazorpayVerify.verifySignature.
  destruct (bool_decide _) eqn:Hsig; [|left; eexists; reflexivity].
  right. exists secret. split; [reflexivity|].
  apply bool_decide_eq_true in Hsig. exact Hsig.
Qed.

Lemma verify_handle_mismatch env now req s secret :
  truthy (RAZORPAY_KEY_SECRET env) = Some secret →
  Crypto.hmac_sha256_hex secret
    (RazorpayVerify.razorpay_order_id req ++ "|"
     ++ RazorpayVerify.razorpay_payment_id req)
  ≠ RazorpayVerify.razorpay_signature req →
  ∃ msg, RazorpayVerify.handle env now req s = (inl msg, s).
Proof.
  intros Hsecret Hne.
  destruct (verify_handle_cases env now req s) as [H|(secret' & Hs' & Heq)];
    [exact H|].
  rewrite Hsecret in Hs'. injection Hs' as <-. contradiction.
Qed.

(** C5 (counterexample).  A payment whose signature is the keyed hash of
    ["order_1|pay_1"] is trusted and upgrades the user, although the keyed
    hash over the concatenation of order id and payment id is a different
    string. *)
Lemma payment_signature_gate_counterexample :
  fst (RazorpayVerify.serve env 1000 paid store_unpaid)
  = {| RazorpayVerify.status := 200; RazorpayVerify.body := RazorpayVerify.Success "pro" |}
  ∧ plan <$> user_subscriptions (snd (RazorpayVerify.serve env 1000 paid store_unpaid))
             !! "u1" = Some "pro"
  ∧ user_subscriptions store_unpaid !! "u1" = None
  ∧ Crypto.hmac_sha256_hex "s3cret" (signed_concatenation "order_1" "pay_1")
    ≠ RazorpayVerify.razorpay_signature paid.
Proof.
  split; [vm_compute; reflexivity|].
  split; [vm_compute; reflexivity|].
  split; [reflexivity|].
  apply String.eqb_neq. vm_compute. reflexivity.
Qed.

(** C5 (amended).  [razorpay-verify] answers success, or writes anything,
    only when HMAC-SHA256 under the configured secret of the order id, a
    ["|"] and the payment id equals the supplied signature; the webhook only
    when the keyed hash of the raw body equals the signature header.  With a
    mismatched signature both answer 400 and leave the store, hence every
    subscription, as it was. *)
Theorem payment_signature_gate (JSON_parse : string → option RazorpayWebhook.Event)
    (env : Env) (now : Z) (s : Store) :
  (∀ req,
     RazorpayVerify.status (fst (RazorpayVerify.serve env now req s)) = 200%Z
     ∨ snd (RazorpayVerify.serve env now req s) ≠ s →
     ∃ secret,
       truthy (RAZORPAY_KEY_SECRET env) = Some secret
       ∧ Crypto.hmac_sha256_hex secret
           (RazorpayVerify.razorpay_order_id req ++ "|"
            ++ RazorpayVerify.razorpay_payment_id req)
         = RazorpayVerify.razorpay_signature req)
  ∧ (∀ req secret,
       truthy (RAZORPAY_KEY_SECRET env) = Some secret →
       Crypto.hmac_sha256_hex secret
         (RazorpayVerify.razorpay_order_id req ++ "|"
          ++ RazorpayVerify.razorpay_payment_id req)
       ≠ RazorpayVerify.razorpay_signature req →
       RazorpayVerify.serve env now req s
       = ({| RazorpayVerify.status := 400;
             RazorpayVerify.body := RazorpayVerify.ErrorBody "Invalid payment signature" |},
          s)
       ∨ ∃ msg, RazorpayVerify.serve env now req s
                = ({| RazorpayVerify.status := 400;
                      RazorpayVerify.body := RazorpayVerify.ErrorBody msg |}, s)
                ∧ (msg = "No auth token" ∨ msg = "Unauthorized"))
  ∧ (∀ req,
       RazorpayWebhook.status (fst (RazorpayWebhook.serve JSON_parse env now req s))
         = 200%Z
       ∨ snd (RazorpayWebhook.serve JSON_parse env now req s) ≠ s →
       ∃ secret,
         truthy (RAZORPAY_KEY_SECRET env) = Some secret
         ∧ Crypto.hmac_sha256_hex secret (RazorpayWebhook.text req)
           = default EmptyString (RazorpayWebhook.x_razorpay_signature req))
  ∧ (∀ req secret,
       truthy (RAZORPAY_KEY_SECRET env) = Some secret →
       Crypto.hmac_sha256_hex secret (RazorpayWebhook.text req)
       ≠ default EmptyString (RazorpayWebhook.x_razorpay_signature req) →
       RazorpayWebhook.serve JSON_parse env now req s
       = ({| RazorpayWebhook.status := 400;
             RazorpayWebhook.body := RazorpayWebhook.ErrorBody "Invalid signature" |},
          s)).
Proof.
  split; [|split; [|split]].
  - intros req Htrust. unfold RazorpayVerify.serve in Htrust.
    destruct (verify_handle_cases env now req s) as [[msg Hthrow]|Hok];
      [|exact Hok].
    rewrite Hthrow in Htrust. simpl in Htrust.
    destruct Htrust as [H|H]; [discriminate H | contradiction H; reflexivity].
  - intros req secret Hsecret Hne.
    unfold RazorpayVerify.serve, RazorpayVerify.handle.
    rewrite Hsecret.
    destruct (truthy (RazorpayVerify.authorization req));
      [|right; eexists; split; [reflexivity|left; reflexivity]].
    destruct (sessions env !! _);
      [|right; eexists; split; [reflexivity|right; reflexivity]].
    unfold RazorpayVerify.verifySignature.
    rewrite bool_decide_eq_false_2 by exact Hne.
    left. reflexivity.
  - intros req Htrust. unfold RazorpayWebhook.serve in Htrust.
    destruct (truthy (RAZORPAY_KEY_SECRET env)) as [secret|];
      [|simpl in Htrust; destruct Htrust as [H|H];
        [discriminate H | contradiction H; reflexivity]].
    unfold RazorpayWebhook.verifyWebhookSignature in Htrust.
    rewrite signature_or_empty in Htrust.
    destruct (bool_decide _) eqn:Hsig.
    + exists secret. split; [reflexivity|].
      apply bool_decide_eq_true in Hsig. exact Hsig.
    + simpl in Htrust. destruct Htrust as [H|H];
        [discriminate H | contradiction H; reflexivity].
  - intros req secret Hsecret Hne.
    unfold RazorpayWebhook.serve, RazorpayWebhook.verifyWebhookSignature.
    rewrite Hsecret, signature_or_empty.
    rewrite bool_decide_eq_false_2 by exact Hne.
    reflexivity.
Qed.

Lemma payment_signature_gate_witness :
  (RazorpayVerify.serve env 1000 forged store_unpaid
   = ({| RazorpayVerify.status := 400;
         RazorpayVerify.body := RazorpayVerify.ErrorBody "Invalid payment signature" |},
      store_unpaid)
   ∨ ∃ msg, RazorpayVerify.serve env 1000 forged store_unpaid
            = ({| RazorpayVerify.status := 400;
                  RazorpayVerify.body := RazorpayVerify.ErrorBody msg |}, store_unpaid)
            ∧ (msg = "No auth token" ∨ msg = "Unauthorized"))
  ∧ RazorpayWebhook.serve decode env 1000 forged_hook store_unpaid
    = ({| RazorpayWebhook.status := 400;
          RazorpayWebhook.body := RazorpayWebhook.ErrorBody "Invalid signature" |},
       store_unpaid).
Proof.
  destruct (payment_signature_gate decode env 1000 store_unpaid)
    as (_ & Hverify & _ & Hhook).
  split.
  - apply (Hverify forged "s3cret").
    + reflexivity.
    + apply String.eqb_neq. vm_compute. reflexivity.
  - apply (Hhook forged_hook "s3cret").
    + reflexivity.
    + apply String.eqb_neq. vm_compute. reflexivity.
Defined.

End Payments.

(* ===================================================================== *)
(** ** Theorems: timestamps                                               *)
(* ===================================================================== *)

Section Timestamps.
Import Js Regex ChatParser Spec.
Local Open Scope list_scope.

Ltac digit_bounds H :=
  let Hlo := fresh "Hlo" in
  let Hhi := fresh "Hhi" in
  unfold is_digit in H; apply andb_true_iff in H as [Hlo Hhi];
  apply N.leb_le in Hlo; apply N.leb_le in Hhi.

Ltac kill_tests :=
  repeat match goal with
    | |- context [N.eqb ?a ?b] =>
        replace (N.eqb a b) with false by (symmetry; apply N.eqb_neq; lia)
    | |- context [N.leb ?a ?b] =>
        replace (N.leb a b) with false by (symmetry; apply N.leb_gt; lia)
    end.

Lemma digit_not_space c : is_digit c = true → is_space c = false.
Proof.
  intros H. digit_bounds H.
  unfold is_space, is_line_terminator. kill_tests. reflexivity.
Qed.

Lemma digit_not_sep c : is_digit c = true → is_date_sep c = false.
Proof.
  intros H. digit_bounds H.
  unfold is_date_sep. simpl. kill_tests. reflexivity.
Qed.

Lemma split_sep_free (sep : N → bool) (p : jsstring) :
  forallb (fun c => negb (sep c)) p = true → split sep p = [p].
Proof.
  induction p as [|c p IH]; simpl; [reflexivity|].
  intros H. apply andb_true_iff in H as [Hc Hp].
  apply negb_true_iff in Hc. rewrite Hc, (IH Hp). reflexivity.
Qed.

Lemma split_at_sep (sep : N → bool) (p : jsstring) (s : N) (r : jsstring) :
  forallb (fun c => negb (sep c)) p = true → sep s = true →
  split sep (p ++ s :: r) = p :: split sep r.
Proof.
  intros Hp Hs. induction p as [|c p IH]; simpl.
  - rewrite Hs. reflexivity.
  - simpl in Hp. apply andb_true_iff in Hp as [Hc Hp].
    apply negb_true_iff in Hc. rewrite Hc, (IH Hp). reflexivity.
Qed.

Lemma digits_sep_free (p : jsstring) :
  forallb is_digit p = true → forallb (fun c => negb (is_date_sep c)) p = true.
Proof.
  induction p as [|c p IH]; simpl; [reflexivity|].
  intros H. apply andb_true_iff in H as [Hc Hp].
  rewrite (digit_not_sep c Hc), (IH Hp). reflexivity.
Qed.

(** A date token made of three digit runs splits into these runs. *)
Lemma split_date_token (p0 p1 p2 : jsstring) (s1 s2 : N) :
  forallb is_digit p0 = true → forallb is_digit p1 = true →
  forallb is_digit p2 = true →
  is_date_sep s1 = true → is_date_sep s2 = true →
  split is_date_sep (p0 ++ s1 :: p1 ++ s2 :: p2) = [p0; p1; p2].
Proof.
  intros H0 H1 H2 Hs1 Hs2.
  rewrite split_at_sep by auto using digits_sep_free.
  rewrite split_at_sep by auto using digits_sep_free.
  rewrite split_sep_free by auto using digits_sep_free.
  reflexivity.
Qed.

Lemma digits_decimal (ds : jsstring) (acc : option Z) :
  forallb is_digit ds = true →
  digits 10 acc ds
  = match ds with
    | [] => acc
    | _ :: _ =>
        Some (fold_left (fun a c => (a * 10 + (Z.of_N c - 48))%Z) ds (default 0%Z acc))
    end.
Proof.
  revert acc. induction ds as [|c r IH]; intros acc H; [reflexivity|].
  cbn [forallb] in H. apply andb_true_iff in H as [Hc Hr].
  cbn [digits]. unfold digit_value. rewrite Hc.
  digit_bounds Hc.
  replace (Z.of_N (c - 48) <? 10)%Z with true by (symmetry; apply Z.ltb_lt; lia).
  rewrite (IH _ Hr). cbn [fold_left].
  replace (Z.of_N (c - 48)) with (Z.of_N c - 48)%Z by lia.
  destruct r; reflexivity.
Qed.

(** [parseInt] of a run of digits is its decimal value. *)
Lemma parseInt_numeric (ds : jsstring) :
  numeric ds → parseInt (Some ds) = Num (decimal ds).
Proof.
  intros [Hne Hds]. destruct ds as [|c r]; [contradiction|].
  pose proof Hds as Hall. cbn [forallb] in Hds. apply andb_true_iff in Hds as [Hc Hr].
  unfold parseInt. cbn [trimStart]. rewrite (digit_not_space c Hc).
  pose proof Hc as Hb. digit_bounds Hb.
  replace (c =? 45)%N with false by (symmetry; apply N.eqb_neq; lia).
  replace (c =? 43)%N with false by (symmetry; apply N.eqb_neq; lia).
  assert (Hpu : parse_unsigned (c :: r) = digits 10 None (c :: r)).
  { unfold parse_unsigned. destruct r as [|c1 r']; [reflexivity|].
    cbn [forallb] in Hr. apply andb_true_iff in Hr as [Hc1 _]. digit_bounds Hc1.
    replace (c1 =? 120)%N with false by (symmetry; apply N.eqb_neq; lia).
    replace (c1 =? 88)%N with false by (symmetry; apply N.eqb_neq; lia).
    rewrite andb_false_r. reflexivity. }
  rewrite Hpu, (digits_decimal _ None Hall). reflexivity.
Qed.

(** The date fields of [parseTimestamp] depend on the parts of the date
    token alone. *)
Lemma parseTimestamp_date (dateStr timeStr : jsstring) :
  let part i := parseInt (nth_error (split is_date_sep dateStr) i) in
  let d := parseTimestamp dateStr timeStr in
  day d = (if gt (part 0%nat) (Num 12) then part 0%nat else part 1%nat)
  ∧ month d = (if gt (part 0%nat) (Num 12) then sub (part 1%nat) (Num 1)
               else sub (part 0%nat) (Num 1))
  ∧ year d = (if lt (part 2%nat) (Num 100) then add (part 2%nat) (Num 2000)
              else part 2%nat).
Proof.
  cbv zeta. unfold parseTimestamp.
  destruct (gt (parseInt (nth_error (split is_date_sep dateStr) 0)) (Num 12));
    [|destruct (gt (parseInt (nth_error (split is_date_sep dateStr) 1)) (Num 12))];
    cbn [day month year]; auto.
Qed.

(** C6.  For a date token made of three digit runs [p0], [p1], [p2] of values
    [a], [b], [c]: when [a > 12] the token is read day-first (day [a],
    month [b]); otherwise, whether or not [b > 12], it is read month-first
    (month [a], day [b]).  The month is handed to [Date] counted from 0.
    A year below 100 has 2000 added. *)
Theorem parseTimestamp_date_order (p0 p1 p2 : jsstring) (s1 s2 : N)
    (timeStr : jsstring) :
  numeric p0 → numeric p1 → numeric p2 →
  is_date_sep s1 = true → is_date_sep s2 = true →
  let d := parseTimestamp (p0 ++ s1 :: p1 ++ s2 :: p2) timeStr in
  let a := decimal p0 in
  let b := decimal p1 in
  let c := decimal p2 in
  ((12 < a)%Z → day d = Num a ∧ month d = Num (b - 1))
  ∧ ((a ≤ 12)%Z → (12 < b)%Z → month d = Num (a - 1) ∧ day d = Num b)
  ∧ ((a ≤ 12)%Z → (b ≤ 12)%Z → month d = Num (a - 1) ∧ day d = Num b)
  ∧ ((c < 100)%Z → year d = Num (c + 2000))
  ∧ ((100 ≤ c)%Z → year d = Num c).
Proof.
  intros N0 N1 N2 Hs1 Hs2. cbv zeta.
  destruct (parseTimestamp_date (p0 ++ s1 :: p1 ++ s2 :: p2) timeStr)
    as (Hday & Hmonth & Hyear).
  rewrite split_date_token in Hday, Hmonth, Hyear
    by (assumption || apply N0 || apply N1 || apply N2).
  cbn [nth_error] in Hday, Hmonth, Hyear.
  rewrite !(parseInt_numeric p0 N0), ?(parseInt_numeric p1 N1) in Hday, Hmonth.
  rewrite !(parseInt_numeric p2 N2) in Hyear.
  rewrite Hday, Hmonth, Hyear. cbn [gt lt add sub].
  repeat split; intros.
  all: repeat match goal with
         | |- context [(?x <? ?y)%Z] => destruct (Z.ltb_spec x y); try lia
         end; reflexivity.
Qed.

End Timestamps.

Section TimestampExamples.
Import Js Regex ChatParser Spec.
Local Open Scope list_scope.

Lemma numeric_literal (c : N) (r : jsstring) :
  forallb is_digit (c :: r) = true → numeric (c :: r).
Proof. intros H. split; [discriminate | exact H]. Defined.

Lemma parseTimestamp_date_order_witness :
  let d := parseTimestamp (str "25/12/23") (str "9:15 pm") in
  day d = Num 25 ∧ month d = Num 11 ∧ year d = Num 2023.
Proof.
  destruct (parseTimestamp_date_order (str "25") (str "12") (str "23") 47 47
              (str "9:15 pm"))
    as (Hdayfirst & _ & _ & Hshort & _);
    try (apply numeric_literal; reflexivity); try reflexivity.
  destruct Hdayfirst as [Hd Hm]; [reflexivity|].
  split; [exact Hd | split; [exact Hm | apply Hshort; reflexivity]].
Defined.

Example parseTimestamp_month_first :
  let d := parseTimestamp (str "12/03/24") (str "9:15 am") in
  day d = Num 3 ∧ month d = Num 11 ∧ year d = Num 2024
  ∧ hours d = Num 9 ∧ minutes d = Num 15.
Proof. vm_compute. repeat split. Qed.

Example parseTimestamp_noon_and_midnight :
  hours (parseTimestamp (str "1.2.2003") (str "12:05 AM")) = Num 0
  ∧ hours (parseTimestamp (str "1.2.2003") (str "12:05 PM")) = Num 12
  ∧ hours (parseTimestamp (str "1.2.2003") (str "7:05:59 pm")) = Num 19
  ∧ hours (parseTimestamp (str "1.2.2003") (str "19:05")) = Num 19.
Proof. vm_compute. repeat split. Qed.

End TimestampExamples.

(* ===================================================================== *)
(** ** Theorems: the parser                                               *)
(* ===================================================================== *)

Section Parser.
Import Js Regex ChatParser Spec Examples.
Local Open Scope list_scope.

(** C10 (counterexample).  The preview of the empty input is not empty. *)
Lemma parse_empty_counterexample :
  ¬ (messages (parseWhatsAppChat []) = []
     ∧ participants (parseWhatsAppChat []) = []
     ∧ preview (parseWhatsAppChat []) = []).
Proof. intros (_ & _ & H). vm_compute in H. discriminate H. Qed.

(** C10 (amended).  [parseWhatsAppChat] applied to the empty string returns
    an empty messages list, an empty participants list, and a preview that
    holds one line, the empty one. *)
Theorem parse_empty :
  parseWhatsAppChat []
  = {| messages := []; participants := []; preview := [[]] |}.
Proof. reflexivity. Qed.

Lemma step_no_header (st : State) (line : jsstring) :
  match_header line = None →
  st_messages (step st line) = st_messages st
  ∧ participantSet (step st line) = participantSet st
  ∧ created (step st line) = created st
  ∧ currentMsg (step st line)
    = match currentMsg st with
      | Some m => match trim line with
                  | [] => Some m
                  | _ :: _ => Some (append_line m line)
                  end
      | None => None
      end.
Proof.
  intros Hno. unfold step. rewrite Hno.
  destruct (lineCount st <? 30)%nat; cbn; auto.
Qed.

(** C7.  The two-message scenario parses to Alice / "hi\nthere" / 09:15 and
    Bob / "hello" / 09:16, with participants Alice then Bob.  In general a
    line that is no header, met while a message is in flight and not blank,
    is appended to the body of that message after a newline, and nothing is
    committed. *)
Theorem parse_scenario_and_continuation :
  (List.map (fun m => (sender m, text m, hours (timestamp m), minutes (timestamp m)))
            (messages (parseWhatsAppChat chat))
   = [ (str "Alice", str ("hi" ++ LF ++ "there"), Num 9, Num 15);
       (str "Bob", str "hello", Num 9, Num 16) ]
   ∧ participants (parseWhatsAppChat chat) = [str "Alice"; str "Bob"])
  ∧ (∀ (st : State) (line : jsstring) (m : ParsedMessage),
       match_header line = None → currentMsg st = Some m → trim line ≠ [] →
       currentMsg (step st line) = Some (append_line m line)
       ∧ text (append_line m line) = text m ++ [10%N] ++ line
       ∧ sender (append_line m line) = sender m
       ∧ timestamp (append_line m line) = timestamp m
       ∧ st_messages (step st line) = st_messages st
       ∧ participantSet (step st line) = participantSet st).
Proof.
  split; [split; vm_compute; reflexivity|].
  intros st line m Hno Hcur Hline.
  destruct (step_no_header st line Hno) as (Hm & Hp & _ & Hc).
  rewrite Hcur in Hc.
  destruct (trim line) as [|c r] eqn:Ht; [contradiction|].
  repeat split; assumption.
Qed.

Lemma parse_scenario_and_continuation_witness :
  text <$> currentMsg (step (step init line1) (str "there"))
  = Some (str ("hi" ++ LF ++ "there")).
Proof.
  destruct (currentMsg (step init line1)) as [m|] eqn:Hm;
    [|vm_compute in Hm; discriminate Hm].
  destruct (proj2 parse_scenario_and_continuation
              (step init line1) (str "there") m) as (Hcur & Htext & _).
  - vm_compute. reflexivity.
  - exact Hm.
  - vm_compute. discriminate.
  - rewrite Hcur. cbn [fmap option_fmap option_map]. rewrite Htext.
    vm_compute in Hm. injection Hm as <-. reflexivity.
Defined.

End Parser.

(* ===================================================================== *)
(** ** Theorems: system messages, participants and the preview            *)
(* ===================================================================== *)

Section SystemMessages.
Import Js Regex ChatParser Spec Examples.
Local Open Scope list_scope.

Lemma run_snoc (l : list jsstring) (x : jsstring) :
  run (l ++ [x]) = step (run l) x.
Proof. unfold run. rewrite fold_left_app. reflexivity. Qed.

Lemma step_preview (st : State) (x : jsstring) :
  st_preview (step st x)
  = (if (lineCount st <? 30)%nat then st_preview st ++ [x] else st_preview st)
  ∧ lineCount (step st x)
    = (if (lineCount st <? 30)%nat then S (lineCount st) else lineCount st).
Proof.
  unfold step.
  destruct (lineCount st <? 30)%nat;
    destruct (match_header x) as [[[[d t] sd] tx]|];
    try destruct (commit _ _ _); cbn; auto.
Qed.

(** The preview is the first 30 raw lines, whatever they are. *)
Lemma preview_run (l : list jsstring) :
  st_preview (run l) = take 30 l ∧ lineCount (run l) = Nat.min 30 (length l).
Proof.
  induction l as [|x l [IHp IHc]] using rev_ind; [split; reflexivity|].
  rewrite run_snoc. destruct (step_preview (run l) x) as [Hp Hc].
  rewrite Hp, Hc, IHp, IHc, length_app. cbn [length].
  destruct (Nat.ltb_spec (Nat.min 30 (length l)) 30) as [Hlt|Hge].
  - split; [|lia].
    rewrite take_app_ge by lia. rewrite take_ge by lia.
    f_equal. replace (30 - length l)%nat with (S (29 - length l)) by lia.
    cbn [firstn]. rewrite take_nil. reflexivity.
  - split; [|lia]. rewrite take_app_le by lia. reflexivity.
Qed.

Lemma first_seen_snoc (l : list jsstring) (x : jsstring) :
  first_seen (l ++ [x]) = set_add x (first_seen l).
Proof. unfold first_seen. rewrite fold_left_app. reflexivity. Qed.

Lemma from_header_mono (l l' : list jsstring) (m : ParsedMessage) :
  from_header l m → from_header (l ++ l') m.
Proof.
  intros (line & d & t & sd & tx & Hin & H).
  exists line, d, t, sd, tx. split; [|exact H].
  apply elem_of_app. left. exact Hin.
Qed.

Lemma from_header_append (l : list jsstring) (m : ParsedMessage) (x : jsstring) :
  from_header l m → from_header l (append_line m x).
Proof. intros H. exact H. Qed.

(** [commit] adds the in-flight message to the list, and its sender to the
    set unless the message is a system one. *)
Lemma commit_spec (cur : option ParsedMessage) (msgs : list ParsedMessage)
    (set : list jsstring) :
  set = first_seen (List.map sender (List.filter retained msgs)) →
  (∀ m, m ∈ fst (commit cur msgs set) ↔ m ∈ msgs ∨ cur = Some m)
  ∧ snd (commit cur msgs set)
    = first_seen (List.map sender (List.filter retained (fst (commit cur msgs set)))).
Proof.
  intros Hset. destruct cur as [m|]; cbn [commit fst snd].
  - split.
    + intros m'. rewrite elem_of_app, list_elem_of_singleton.
      split; (intros [H|H]; [left; exact H | right; congruence]).
    + rewrite List.filter_app, List.map_app. cbn [List.filter]. unfold retained at 2.
      destruct (isSystem m); cbn [negb List.map].
      * rewrite app_nil_r. exact Hset.
      * rewrite first_seen_snoc, <- Hset. reflexivity.
  - split; [|exact Hset].
    intros m'. split; [auto | intros [H|H]; [exact H | discriminate H]].
Qed.

Lemma step_header (st : State) (line d t sd tx : jsstring) :
  match_header line = Some (d, t, sd, tx) →
  st_messages (step st line)
  = fst (commit (currentMsg st) (st_messages st) (participantSet st))
  ∧ participantSet (step st line)
    = snd (commit (currentMsg st) (st_messages st) (participantSet st))
  ∧ currentMsg (step st line)
    = Some {| id := created st; timestamp := parseTimestamp d t;
              sender := trim sd; text := trim tx;
              isSystem := isSystemMessage (trim tx) |}.
Proof.
  intros Hm. unfold step. rewrite Hm.
  destruct (lineCount st <? 30)%nat; destruct (commit _ _ _); cbn; auto.
Qed.

(** What holds of the loop variables after any number of lines. *)
Lemma run_invariant (l : list jsstring) :
  (∀ m, m ∈ st_messages (run l) → from_header l m)
  ∧ (∀ m, currentMsg (run l) = Some m → from_header l m)
  ∧ participantSet (run l)
    = first_seen (List.map sender (List.filter retained (st_messages (run l)))).
Proof.
  induction l as [|x l (IHm & IHc & IHs)] using rev_ind.
  - split; [|split]; [intros m H; inversion H | intros m H; discriminate H | reflexivity].
  - rewrite run_snoc.
    destruct (match_header x) as [[[[d t] sd] tx]|] eqn:Hx.
    + destruct (step_header (run l) x d t sd tx Hx) as (Hmsgs & Hset & Hcur).
      destruct (commit_spec (currentMsg (run l)) (st_messages (run l))
                  (participantSet (run l)) IHs) as [Hin Hsnd].
      rewrite Hmsgs, Hset, Hcur. split; [|split].
      * intros m Hmin. apply from_header_mono.
        apply Hin in Hmin as [H|H]; auto.
      * intros m [= <-]. exists x, d, t, sd, tx.
        split; [apply elem_of_app; right; apply list_elem_of_singleton; reflexivity|].
        split; [exact Hx | split; reflexivity].
      * exact Hsnd.
    + destruct (step_no_header (run l) x Hx) as (Hmsgs & Hset & _ & Hcur).
      rewrite Hmsgs, Hset, Hcur. split; [|split].
      * intros m Hmin. apply from_header_mono. auto.
      * intros m Hm. apply from_header_mono.
        destruct (currentMsg (run l)) as [m0|]; [|discriminate Hm].
        destruct (trim x); injection Hm as <-; auto using from_header_append.
      * exact IHs.
Qed.

End SystemMessages.

Section SystemMessageClaims.
Import Js Regex ChatParser Spec Examples.
Local Open Scope list_scope.

(** The patterns match in either case, and [left] only at the end. *)
Example isSystemMessage_samples :
  isSystemMessage (str "MESSAGES AND CALLS ARE END-TO-END ENCRYPTED") = true
  ∧ isSystemMessage (str "Bob Left") = true
  ∧ isSystemMessage (str "Bob left early") = false
  ∧ isSystemMessage (str "see you soon") = false.
Proof. vm_compute. repeat split. Qed.

(** The scenario of the specification: the encryption notice alone yields no
    message and no participant, and stays in the preview. *)
Example parse_notice :
  parseWhatsAppChat notice
  = {| messages := []; participants := []; preview := [notice] |}.
Proof. vm_compute. reflexivity. Qed.

(** C8 (counterexample).  The encryption notice on line 31 of the input is a
    header line with a system body and yields no message, but it is not in
    the preview. *)
Lemma system_messages_filtered_counterexample :
  lines_of long_chat !! 30%nat = Some notice
  ∧ (∃ d t sd tx, match_header notice = Some (d, t, sd, tx)
                  ∧ isSystemMessage (trim tx) = true)
  ∧ messages (parseWhatsAppChat long_chat) = []
  ∧ notice ∉ preview (parseWhatsAppChat long_chat).
Proof.
  split; [vm_compute; reflexivity|].
  split; [do 4 eexists; split; vm_compute; reflexivity|].
  split; [vm_compute; reflexivity|].
  apply (bool_decide_eq_false_1 (notice ∈ preview (parseWhatsAppChat long_chat))).
  vm_compute. reflexivity.
Qed.

(** C8 (amended).  A header line starts a message flagged as system exactly
    when its trimmed body matches one of the system patterns.  Every returned
    message is unflagged and stems from a header line whose body matches no
    pattern; the participants are the distinct senders of the returned
    messages in first-seen order, so a system message adds nobody.  The
    preview is the first 30 raw lines of the input unfiltered: a line, system
    or not, is in it when it is among the first 30. *)
Theorem system_messages_filtered (content : jsstring) :
  let r := parseWhatsAppChat content in
  let lines := lines_of content in
  (∀ st line d t sd tx,
     match_header line = Some (d, t, sd, tx) →
     ∃ m, currentMsg (step st line) = Some m
          ∧ sender m = trim sd ∧ text m = trim tx
          ∧ isSystem m = isSystemMessage (trim tx))
  ∧ (∀ m, m ∈ messages r →
       isSystem m = false
       ∧ ∃ line d t sd tx,
           line ∈ lines ∧ match_header line = Some (d, t, sd, tx)
           ∧ sender m = trim sd ∧ isSystemMessage (trim tx) = false)
  ∧ participants r = first_seen (List.map sender (messages r))
  ∧ preview r = take 30 lines
  ∧ (∀ i line, (i < 30)%nat → lines !! i = Some line → preview r !! i = Some line).
Proof.
  cbv zeta. unfold parseWhatsAppChat.
  set (lines := lines_of content).
  destruct (run_invariant lines) as (Hmsgs & Hcur & Hset).
  destruct (commit_spec (currentMsg (run lines)) (st_messages (run lines))
              (participantSet (run lines)) Hset) as [Hin Hsnd].
  unfold finish.
  destruct (commit (currentMsg (run lines)) (st_messages (run lines))
              (participantSet (run lines))) as [msgs set] eqn:Hcommit.
  cbn [fst snd] in Hin, Hsnd. cbn [messages participants preview].
  split; [|split; [|split; [|split]]].
  - intros st line d t sd tx Hm.
    destruct (step_header st line d t sd tx Hm) as (_ & _ & Hc).
    eexists. split; [exact Hc|]. repeat split.
  - intros m Hm. apply list_elem_of_In, filter_In in Hm as [Hm Hret].
    apply negb_true_iff in Hret. split; [exact Hret|].
    assert (Hfrom : from_header lines m).
    { apply list_elem_of_In, Hin in Hm as [H|H]; auto. }
    destruct Hfrom as (line & d & t & sd & tx & Hl & Hh & Hs & Hsys).
    exists line, d, t, sd, tx. repeat split; auto. congruence.
  - exact Hsnd.
  - apply preview_run.
  - intros i line Hi Hl. rewrite (proj1 (preview_run lines)).
    rewrite lookup_take_lt by exact Hi. exact Hl.
Qed.

Lemma system_messages_filtered_witness :
  preview (parseWhatsAppChat notice) !! 0%nat = Some notice.
Proof.
  apply (proj2 (proj2 (proj2 (proj2 (system_messages_filtered notice))))).
  - repeat constructor.
  - reflexivity.
Defined.

End SystemMessageClaims.

(* ===================================================================== *)
(** ** Further theorems: the parser on whole inputs                       *)
(* ===================================================================== *)

Section ParserWhole.
Import Js Regex ChatParser Spec ParserSpec.
Local Open Scope list_scope.

Lemma split_nonempty (sep : N → bool) (s : jsstring) : split sep s ≠ [].
Proof.
  induction s as [|c r IH]; simpl; [discriminate|].
  destruct (sep c); [discriminate|].
  destruct (split sep r); [contradiction | discriminate].
Qed.

Lemma fst_commit (cur : option ParsedMessage) (msgs : list ParsedMessage)
    (set : list jsstring) :
  fst (commit cur msgs set) = msgs ++ match cur with Some m => [m] | None => [] end.
Proof. destruct cur; simpl; [reflexivity | rewrite app_nil_r; reflexivity]. Qed.

Lemma headers_snoc (l : list jsstring) (x : jsstring) :
  headers (l ++ [x]) = headers l ++ match header_of x with Some h => [h] | None => [] end.
Proof.
  unfold headers. rewrite omap_app. simpl. destruct (header_of x); reflexivity.
Qed.

(** The messages committed so far, followed by the one in flight, are the
    header lines read so far, in order. *)
Lemma run_headers (l : list jsstring) :
  List.map info (st_messages (run l) ++ in_flight (run l)) = headers l.
Proof.
  induction l as [|x l IH] using rev_ind; [reflexivity|].
  rewrite run_snoc, headers_snoc. unfold header_of.
  destruct (match_header x) as [[[[d t] sd] tx]|] eqn:Hx.
  - destruct (step_header (run l) x d t sd tx Hx) as (Hmsgs & _ & Hcur).
    unfold in_flight at 1. rewrite Hmsgs, Hcur, fst_commit.
    fold (in_flight (run l)). rewrite List.map_app, IH. reflexivity.
  - destruct (step_no_header (run l) x Hx) as (Hmsgs & _ & _ & Hcur).
    rewrite app_nil_r, <- IH, Hmsgs, !List.map_app. f_equal.
    unfold in_flight. rewrite Hcur.
    destruct (currentMsg (run l)) as [m|]; [|reflexivity].
    destruct (trim x); reflexivity.
Qed.

Lemma filter_map_info (l : list ParsedMessage) :
  List.map info (List.filter retained l)
  = List.filter (fun h => negb (snd h)) (List.map info l).
Proof.
  induction l as [|m l IH]; [reflexivity|].
  cbn [List.filter List.map]. unfold retained at 1.
  change (snd (info m)) with (isSystem m).
  destruct (isSystem m); cbn [negb List.map]; rewrite IH; reflexivity.
Qed.

Lemma messages_of_run (content : jsstring) :
  messages (parseWhatsAppChat content)
  = List.filter retained
      (st_messages (run (lines_of content)) ++ in_flight (run (lines_of content))).
Proof.
  unfold parseWhatsAppChat, finish.
  pose proof (fst_commit (currentMsg (run (lines_of content)))
                (st_messages (run (lines_of content)))
                (participantSet (run (lines_of content)))) as Hfst.
  destruct (commit _ _ _) as [msgs set]. cbn [fst] in Hfst. subst msgs.
  reflexivity.
Qed.

Lemma participants_of_messages (content : jsstring) :
  participants (parseWhatsAppChat content)
  = first_seen (List.map sender (messages (parseWhatsAppChat content))).
Proof.
  rewrite messages_of_run. unfold parseWhatsAppChat, finish.
  destruct (run_invariant (lines_of content)) as (_ & _ & Hset).
  destruct (commit_spec (currentMsg (run (lines_of content)))
              (st_messages (run (lines_of content)))
              (participantSet (run (lines_of content))) Hset) as [_ Hsnd].
  rewrite fst_commit in Hsnd.
  destruct (commit _ _ _) as [msgs set]. cbn [snd] in Hsnd. cbn [participants].
  exact Hsnd.
Qed.

(** X1.  Every header line whose body is no system notice yields exactly one
    returned message, in the order of the input, with the trimmed sender and
    the timestamp of that line; nothing else yields a message. *)
Theorem messages_follow_headers (content : jsstring) :
  List.map info (messages (parseWhatsAppChat content))
  = List.filter (fun h => negb (snd h)) (headers (lines_of content)).
Proof.
  rewrite messages_of_run, filter_map_info, run_headers. reflexivity.
Qed.

(** X2.  An input without any header line yields no message and no
    participant; its first 30 lines are still previewed. *)
Theorem parse_without_headers (content : jsstring) :
  Forall (fun line => match_header line = None) (lines_of content) →
  messages (parseWhatsAppChat content) = []
  ∧ participants (parseWhatsAppChat content) = []
  ∧ preview (parseWhatsAppChat content) = take 30 (lines_of content).
Proof.
  intros Hno.
  assert (Hh : headers (lines_of content) = []).
  { unfold headers. induction Hno as [|x l Hx _ IH]; [reflexivity|].
    cbn [omap list_omap]. unfold header_of at 1. rewrite Hx. exact IH. }
  assert (Hm : messages (parseWhatsAppChat content) = []).
  { assert (H : List.map info (messages (parseWhatsAppChat content))
                = List.filter (fun h => negb (snd h)) (headers (lines_of content)))
      by (rewrite messages_of_run, filter_map_info, run_headers; reflexivity).
    rewrite Hh in H.
    destruct (messages (parseWhatsAppChat content)); [reflexivity|discriminate H]. }
  split; [exact Hm|]. split.
  - rewrite participants_of_messages, Hm. reflexivity.
  - unfold parseWhatsAppChat, finish. destruct (commit _ _ _).
    apply preview_run.
Qed.

Lemma set_add_spec (x : jsstring) (l : list jsstring) :
  NoDup l → NoDup (set_add x l) ∧ ∀ y, y ∈ set_add x l ↔ y ∈ l ∨ y = x.
Proof.
  intros Hnd. unfold set_add. destruct (bool_decide (x ∈ l)) eqn:Hx.
  - apply bool_decide_eq_true in Hx. split; [exact Hnd|].
    intros y. split; [auto | intros [H| ->]; assumption].
  - apply bool_decide_eq_false in Hx. split.
    + apply NoDup_app. split; [exact Hnd|]. split.
      * intros y Hy Hy'. apply list_elem_of_singleton in Hy'. subst y. contradiction.
      * apply NoDup_singleton.
    + intros y. rewrite elem_of_app, list_elem_of_singleton. reflexivity.
Qed.

Lemma first_seen_spec (l : list jsstring) :
  NoDup (first_seen l) ∧ ∀ y, y ∈ first_seen l ↔ y ∈ l.
Proof.
  induction l as [|x l [IHnd IHin]] using rev_ind.
  - split; [constructor | reflexivity].
  - rewrite first_seen_snoc. destruct (set_add_spec x (first_seen l) IHnd) as [Hnd Hin].
    split; [exact Hnd|]. intros y.
    rewrite Hin, IHin, elem_of_app, list_elem_of_singleton. reflexivity.
Qed.

(** X3.  The participants are pairwise distinct, and a name is a participant
    exactly when it is the sender of a returned message. *)
Theorem participants_distinct (content : jsstring) :
  NoDup (participants (parseWhatsAppChat content))
  ∧ ∀ name, name ∈ participants (parseWhatsAppChat content)
            ↔ ∃ m, m ∈ messages (parseWhatsAppChat content) ∧ sender m = name.
Proof.
  rewrite participants_of_messages.
  destruct (first_seen_spec (List.map sender (messages (parseWhatsAppChat content))))
    as [Hnd Hin].
  split; [exact Hnd|]. intros name. rewrite Hin, list_elem_of_In, in_map_iff.
  split; intros (m & H1 & H2); exists m; rewrite ?list_elem_of_In in *; auto.
Qed.

(** X4.  The preview has as many lines as the input, up to 30, and at least
    one: it is never empty. *)
Theorem preview_length (content : jsstring) :
  length (preview (parseWhatsAppChat content))
  = Nat.min 30 (length (lines_of content))
  ∧ (1 ≤ length (preview (parseWhatsAppChat content)) ≤ 30)%nat.
Proof.
  assert (Hp : preview (parseWhatsAppChat content) = take 30 (lines_of content)).
  { unfold parseWhatsAppChat, finish. destruct (commit _ _ _). apply preview_run. }
  rewrite Hp, length_take.
  pose proof (split_nonempty (N.eqb 10) content) as Hne. fold (lines_of content) in Hne.
  destruct (lines_of content); [contradiction|]. cbn [length]. lia.
Qed.

End ParserWhole.

Section ParserWholeExamples.
Import Js Regex ChatParser Spec ParserSpec Samples Examples.
Local Open Scope list_scope.

Lemma parse_without_headers_witness :
  messages (parseWhatsAppChat plain_text) = []
  ∧ participants (parseWhatsAppChat plain_text) = []
  ∧ preview (parseWhatsAppChat plain_text) = take 30 (lines_of plain_text).
Proof.
  apply (parse_without_headers plain_text).
  repeat (constructor; [vm_compute; reflexivity|]). constructor.
Defined.

End ParserWholeExamples.

(* ===================================================================== *)
(** ** Further theorems: multi-line bodies                                *)
(* ===================================================================== *)

Section MultiLine.
Import Js Regex ChatParser Spec ParserSpec Samples Examples.
Local Open Scope list_scope.

Lemma split_app_sep (sep : N → bool) (a : jsstring) (s : N) (b : jsstring) :
  sep s = true → split sep (a ++ s :: b) = split sep a ++ split sep b.
Proof.
  intros Hs. induction a as [|c a IH]; simpl.
  - rewrite Hs. reflexivity.
  - destruct (sep c); [rewrite IH; reflexivity|].
    rewrite IH. pose proof (split_nonempty sep a) as Hne.
    destruct (split sep a); [contradiction | reflexivity].
Qed.

Lemma split_pieces_sep_free (sep : N → bool) (s : jsstring) :
  Forall (fun piece => forallb (fun c => negb (sep c)) piece = true) (split sep s).
Proof.
  induction s as [|c r IH]; simpl; [repeat constructor|].
  destruct (sep c) eqn:Hc; [constructor; [reflexivity | exact IH]|].
  pose proof (split_nonempty sep r) as Hne.
  destruct (split sep r) as [|piece rest]; [contradiction|].
  inversion IH as [|? ? Hp Hr]; subst.
  constructor; [|exact Hr]. simpl. rewrite Hc, Hp. reflexivity.
Qed.

(** The lines of an input contain no newline. *)
Lemma lines_have_no_newline (content : jsstring) :
  Forall (fun line => forallb (fun c => negb (N.eqb 10 c)) line = true)
         (lines_of content).
Proof. apply split_pieces_sep_free. Qed.

(** X5.  While a message is in flight, lines that are no header are gathered
    into its body: splitting the body on newlines afterwards gives the lines
    it had before followed, in order, by the non-blank lines read; blank
    lines are dropped, the sender is kept and nothing is committed. *)
Theorem continuation_round_trip (conts : list jsstring) (st : State) (m : ParsedMessage) :
  currentMsg st = Some m →
  Forall (fun line => match_header line = None) conts →
  Forall (fun line => forallb (fun c => negb (N.eqb 10 c)) line = true) conts →
  ∃ m', currentMsg (fold_left step conts st) = Some m'
        ∧ sender m' = sender m ∧ timestamp m' = timestamp m
        ∧ isSystem m' = isSystem m
        ∧ lines_of (text m')
          = lines_of (text m) ++ List.filter (fun line => negb (blank line)) conts
        ∧ st_messages (fold_left step conts st) = st_messages st
        ∧ participantSet (fold_left step conts st) = participantSet st.
Proof.
  revert st m. induction conts as [|x conts IH]; intros st m Hcur Hno Hnl.
  - exists m. cbn [fold_left List.filter]. rewrite app_nil_r. repeat split; auto.
  - inversion Hno as [|? ? Hx Hno']; subst. inversion Hnl as [|? ? Hxl Hnl']; subst.
    destruct (step_no_header st x Hx) as (Hmsgs & Hset & _ & Hc).
    rewrite Hcur in Hc. cbn [fold_left List.filter]. unfold blank at 1.
    destruct (trim x) as [|c r] eqn:Ht.
    + destruct (IH (step st x) m Hc Hno' Hnl') as (m' & H1 & H2 & H3 & H4 & H5 & H6 & H7).
      exists m'. cbn [negb]. rewrite H6, H7, Hmsgs, Hset. repeat split; auto.
    + destruct (IH (step st x) (append_line m x) Hc Hno' Hnl')
        as (m' & H1 & H2 & H3 & H4 & H5 & H6 & H7).
      exists m'. cbn [negb]. rewrite H6, H7, Hmsgs, Hset. repeat split; auto.
      rewrite H5. cbn [append_line text]. unfold lines_of.
      rewrite split_app_sep by reflexivity.
      rewrite (split_sep_free (N.eqb 10) x Hxl), <- app_assoc. reflexivity.
Qed.

Lemma continuation_round_trip_witness :
  ∃ m', currentMsg (fold_left step continuation (step init line1)) = Some m'
        ∧ lines_of (text m') = [str "hi"; str "there"; str "again"].
Proof.
  destruct (currentMsg (step init line1)) as [m|] eqn:Hm;
    [|vm_compute in Hm; discriminate Hm].
  destruct (continuation_round_trip continuation (step init line1) m Hm)
    as (m' & Hcur & _ & _ & _ & Hlines & _).
  - repeat (constructor; [vm_compute; reflexivity|]). constructor.
  - repeat (constructor; [vm_compute; reflexivity|]). constructor.
  - exists m'. split; [exact Hcur|]. rewrite Hlines.
    vm_compute in Hm. injection Hm as <-. vm_compute. reflexivity.
Defined.

End MultiLine.

(* ===================================================================== *)
(** ** Further theorems: the matcher and the header pattern               *)
(* ===================================================================== *)

Section Matcher.
Import Js Regex ChatParser Spec ParserSpec RegexAux.
Local Open Scope list_scope.

Lemma rmatch_Seq a b st k :
  rmatch (Seq a b) st k = rmatch a st (fun st' => rmatch b st' k).
Proof. reflexivity. Qed.

Lemma rmatch_Bol st k :
  rmatch Bol st k = if (pos st =? 0)%nat then k st else None.
Proof. reflexivity. Qed.

Lemma rmatch_Group n a st k :
  rmatch (Group n a) st k
  = rmatch a st
      (fun st' => k {| pos := pos st'; rest := rest st';
                       caps := (n, firstn (pos st' - pos st) (rest st)) :: caps st' |}).
Proof. reflexivity. Qed.

Lemma rmatch_Chr p st k :
  rmatch (Chr p) st k
  = match rest st with
    | c :: t => if p c then k {| pos := S (pos st); rest := t; caps := caps st |}
                else None
    | [] => None
    end.
Proof. reflexivity. Qed.

Lemma rmatch_Rep lo hi greedy a st k :
  rmatch (Rep lo hi greedy a) st k
  = rep_loop (rmatch a) lo hi greedy k (lo + length (rest st) + 2) 0 st.
Proof. reflexivity. Qed.

(** A character class that rejects the next code unit matches nothing. *)
Lemma rmatch_Chr_reject p st k :
  match rest st with c :: _ => p c = false | [] => True end →
  rmatch (Chr p) st k = None.
Proof.
  intros H. rewrite rmatch_Chr. destruct (rest st) as [|c t]; [reflexivity|].
  rewrite H. reflexivity.
Qed.

(** An optional or starred class that rejects the next code unit is skipped. *)
Lemma rmatch_skip p hi st k :
  match rest st with c :: _ => p c = false | [] => True end →
  rmatch (Rep 0 hi true (Chr p)) st k = k st.
Proof.
  intros H. rewrite rmatch_Rep.
  replace (0 + length (rest st) + 2)%nat with (S (length (rest st) + 1)) by lia.
  cbn [rep_loop]. destruct (under hi 0); cbn [orelse Nat.leb].
  - rewrite (rmatch_Chr_reject p st _ H). reflexivity.
  - reflexivity.
Qed.

(** A class required at least once that rejects the next code unit fails. *)
Lemma rmatch_required p lo hi greedy st k :
  match rest st with c :: _ => p c = false | [] => True end →
  rmatch (Rep (S lo) hi greedy (Chr p)) st k = None.
Proof.
  intros H. rewrite rmatch_Rep.
  replace (S lo + length (rest st) + 2)%nat with (S (lo + length (rest st) + 2)) by lia.
  cbn [rep_loop Nat.leb].
  destruct greedy, (under hi 0); cbn [orelse];
    rewrite ?(rmatch_Chr_reject p st _ H); reflexivity.
Qed.

Lemma header_regex_anchored : ∃ r, WHATSAPP_REGEX = Seq Bol r.
Proof. eexists. reflexivity. Qed.

Lemma exec_from_anchored (r : regex) (s : jsstring) (i : nat) :
  exec_from (Seq Bol r) (S i) s = None.
Proof.
  revert i. induction s as [|c s IH]; intros i; cbn [exec_from]; rewrite rmatch_Seq.
  - rewrite rmatch_Bol. reflexivity.
  - rewrite rmatch_Bol. cbn [pos Nat.eqb]. apply IH.
Qed.

(** X6.  A header is only recognised at the start of a line that begins with
    an opening bracket or a digit: any other line is never a header, so it
    can only continue the message in flight. *)
Theorem header_starts_with_bracket_or_digit (line : jsstring) :
  match line with
  | c :: _ => c ≠ 91%N ∧ is_digit c = false
  | [] => True
  end →
  match_header line = None.
Proof.
  intros Hc. unfold match_header, exec.
  assert (Hat0 : rmatch WHATSAPP_REGEX {| pos := 0; rest := line; caps := [] |} Some = None).
  { unfold WHATSAPP_REGEX. cbn [cat]. rewrite rmatch_Seq, rmatch_Bol.
    cbn [pos Nat.eqb]. rewrite rmatch_Seq.
    unfold opt at 1, chr at 1, one_of at 1. rewrite rmatch_skip.
    - rewrite rmatch_Seq, rmatch_Group, rmatch_Seq. unfold times at 1, digit at 1.
      apply rmatch_required. cbn [rest]. destruct line as [|c r]; [exact I|]. apply Hc.
    - cbn [rest]. destruct line as [|c r]; [exact I|].
      destruct Hc as [Hb _]. cbn. apply orb_false_iff. split; [|reflexivity].
      apply N.eqb_neq. exact Hb. }
  destruct header_regex_anchored as [r Hr].
  destruct line as [|c s]; cbn [exec_from]; rewrite Hat0; [reflexivity|].
  rewrite Hr, exec_from_anchored. reflexivity.
Qed.

End Matcher.

(* ===================================================================== *)
(** ** Further theorems: the time of day                                  *)
(* ===================================================================== *)

Section Clock.
Import Js Regex ChatParser Spec ParserSpec RegexAux.
Local Open Scope list_scope.

Lemma trimStart_keep (c : N) (r : jsstring) :
  is_space c = false → trimStart (c :: r) = c :: r.
Proof. intros H. cbn [trimStart]. rewrite H. reflexivity. Qed.

Lemma trimEnd_keep (p : jsstring) (d : N) :
  is_space d = false → trimEnd (p ++ [d]) = p ++ [d].
Proof.
  intros H. unfold trimEnd. rewrite rev_app_distr. cbn [rev app].
  rewrite (trimStart_keep d _ H). cbn [rev]. rewrite rev_involutive. reflexivity.
Qed.

Lemma trim_keep (c : N) (r p : jsstring) (d : N) :
  c :: r = p ++ [d] → is_space c = false → is_space d = false →
  trim (c :: r) = c :: r.
Proof.
  intros Heq Hc Hd. unfold trim. rewrite (trimStart_keep c r Hc), Heq.
  apply trimEnd_keep, Hd.
Qed.

Lemma numeric_ends (ds : jsstring) :
  numeric ds →
  ∃ c r p d, ds = c :: r ∧ ds = p ++ [d] ∧ is_digit c = true ∧ is_digit d = true.
Proof.
  intros [Hne Hall]. destruct ds as [|c r]; [contradiction|].
  destruct (exists_last Hne) as (p & d & Hpd).
  exists c, r, p, d. split; [reflexivity|]. split; [exact Hpd|].
  split.
  - cbn [forallb] in Hall. apply andb_true_iff in Hall. apply Hall.
  - rewrite Hpd, forallb_app in Hall. apply andb_true_iff in Hall as [_ Hd].
    cbn [forallb] in Hd. rewrite andb_true_r in Hd. exact Hd.
Qed.

Lemma trim_numeric (ds : jsstring) : numeric ds → trim ds = ds.
Proof.
  intros Hn. destruct (numeric_ends ds Hn) as (c & r & p & d & -> & Hpd & Hc & Hd).
  apply (trim_keep c r p d Hpd); apply digit_not_space; assumption.
Qed.

(** [Number] of a run of digits is its decimal value. *)
Lemma Number_numeric (ds : jsstring) : numeric ds → Number ds = Num (decimal ds).
Proof.
  intros Hn. unfold Number. rewrite (trim_numeric ds Hn).
  destruct Hn as [Hne Hall]. destruct ds as [|c r]; [contradiction|].
  rewrite Hall, (digits_decimal _ None Hall). reflexivity.
Qed.

Lemma exec_from_unfold (r : regex) (i : nat) (s : jsstring) :
  exec_from r i s
  = match rmatch r {| pos := i; rest := s; caps := [] |} Some with
    | Some st => Some (i, st)
    | None => match s with
              | [] => None
              | _ :: t => exec_from r (S i) t
              end
    end.
Proof. destruct s; reflexivity. Qed.

(** A two-letter pattern is found exactly when two adjacent code units match
    its letters. *)
Lemma test_pair (f g : N → bool) (s : jsstring) :
  test (Seq (Chr f) (Chr g)) s = has_pair f g s.
Proof.
  unfold test, exec. generalize 0%nat.
  induction s as [|c t IH]; intros i; [reflexivity|].
  cbn [exec_from]. rewrite rmatch_Seq, rmatch_Chr. cbn [rest].
  cbn [has_pair]. destruct (f c); cbn [andb orb].
  - rewrite rmatch_Chr. cbn [rest]. destruct t as [|d t']; [apply IH|].
    destruct (g d); [reflexivity | apply IH].
  - destruct t as [|d t']; [apply IH | apply IH].
Qed.

Lemma has_pair_skip (f g : N → bool) (pre tail : jsstring) :
  forallb (fun c => negb (f c)) pre = true →
  has_pair f g (pre ++ tail) = has_pair f g tail.
Proof.
  induction pre as [|c pre IH]; intros H; [reflexivity|].
  cbn [forallb] in H. apply andb_true_iff in H as [Hc Hp].
  apply negb_true_iff in Hc. cbn [app has_pair]. rewrite Hc. cbn [andb orb].
  rewrite <- (IH Hp). destruct (pre ++ tail); reflexivity.
Qed.

Lemma fold_case_pm (c : N) : (fold_case c =? fold_case 112)%N = is_pm_letter c.
Proof.
  unfold fold_case, is_pm_letter. cbn [N.leb N.eqb andb].
  destruct (N.leb_spec 97 c), (N.leb_spec c 122); cbn [andb];
    destruct (N.eqb_spec c 112), (N.eqb_spec c 80); cbn [orb];
    try (apply N.eqb_eq; cbn; lia); try (apply N.eqb_neq; cbn; lia).
Qed.

Lemma fold_case_am (c : N) : (fold_case c =? fold_case 97)%N = is_am_letter c.
Proof.
  unfold fold_case, is_am_letter. cbn [N.leb N.eqb andb].
  destruct (N.leb_spec 97 c), (N.leb_spec c 122); cbn [andb];
    destruct (N.eqb_spec c 97), (N.eqb_spec c 65); cbn [orb];
    try (apply N.eqb_eq; cbn; lia); try (apply N.eqb_neq; cbn; lia).
Qed.

Lemma fold_case_m (c : N) : (fold_case c =? fold_case 109)%N = is_m_letter c.
Proof.
  unfold fold_case, is_m_letter. cbn [N.leb N.eqb andb].
  destruct (N.leb_spec 97 c), (N.leb_spec c 122); cbn [andb];
    destruct (N.eqb_spec c 109), (N.eqb_spec c 77); cbn [orb];
    try (apply N.eqb_eq; cbn; lia); try (apply N.eqb_neq; cbn; lia).
Qed.

End Clock.

Section ClockMarker.
Import Js Regex ChatParser Spec ParserSpec RegexAux.
Local Open Scope list_scope.

Ltac digit_bounds H :=
  let Hlo := fresh "Hlo" in
  let Hhi := fresh "Hhi" in
  unfold is_digit in H; apply andb_true_iff in H as [Hlo Hhi];
  apply N.leb_le in Hlo; apply N.leb_le in Hhi.

Ltac kill_tests :=
  repeat match goal with
    | |- context [N.eqb ?a ?b] =>
        replace (N.eqb a b) with false by (symmetry; apply N.eqb_neq; lia)
    | |- context [N.leb ?a ?b] =>
        replace (N.leb a b) with false by (symmetry; apply N.leb_gt; lia)
    end.

Lemma plain_facts (c : N) :
  plain c = true →
  is_space c = false ∧ is_pm_letter c = false ∧ is_am_letter c = false
  ∧ existsb (N.eqb c) (str "AaPp") = false.
Proof.
  unfold plain. intros H. apply orb_true_iff in H as [H|H].
  - digit_bounds H. repeat split.
    + unfold is_space, is_line_terminator. kill_tests. reflexivity.
    + unfold is_pm_letter. kill_tests. reflexivity.
    + unfold is_am_letter. kill_tests. reflexivity.
    + simpl. kill_tests. reflexivity.
  - apply N.eqb_eq in H. subst c. repeat split.
Qed.

Lemma space_facts (c : N) :
  is_space c = true → is_pm_letter c = false ∧ is_am_letter c = false.
Proof.
  intros H. unfold is_pm_letter, is_am_letter.
  destruct (N.eqb_spec c 112) as [->|_]; [discriminate H|].
  destruct (N.eqb_spec c 80) as [->|_]; [discriminate H|].
  destruct (N.eqb_spec c 97) as [->|_]; [discriminate H|].
  destruct (N.eqb_spec c 65) as [->|_]; [discriminate H|].
  split; reflexivity.
Qed.

Lemma marker_letter_facts (a m : N) :
  is_pm_letter a || is_am_letter a = true → is_m_letter m = true →
  is_space a = false ∧ existsb (N.eqb a) (str "AaPp") = true
  ∧ is_space m = false ∧ existsb (N.eqb m) (str "Mm") = true
  ∧ is_pm_letter m = false ∧ is_am_letter m = false
  ∧ (is_pm_letter a = true → is_am_letter a = false).
Proof.
  unfold is_pm_letter, is_am_letter, is_m_letter. intros Ha Hm.
  assert (Ha' : a = 112%N ∨ a = 80%N ∨ a = 97%N ∨ a = 65%N).
  { repeat (apply orb_true_iff in Ha as [Ha|Ha]); apply N.eqb_eq in Ha; auto. }
  assert (Hm' : m = 109%N ∨ m = 77%N).
  { apply orb_true_iff in Hm as [Hm|Hm]; apply N.eqb_eq in Hm; auto. }
  destruct Ha' as [->|[->|[->| ->]]]; destruct Hm' as [->| ->];
    repeat split; try reflexivity; intros; discriminate.
Qed.

Lemma marker_at_plain (c : N) (t : jsstring) (i : nat) :
  plain c = true →
  rmatch marker_regex {| pos := i; rest := c :: t; caps := [] |} Some = None.
Proof.
  intros Hc. destruct (plain_facts c Hc) as (Hs & _ & _ & Hap).
  unfold marker_regex. cbn [cat]. rewrite rmatch_Seq.
  unfold star, space. rewrite rmatch_skip by exact Hs.
  rewrite rmatch_Seq. apply rmatch_Chr_reject. exact Hap.
Qed.

Lemma marker_at_end (i : nat) :
  rmatch marker_regex {| pos := i; rest := []; caps := [] |} Some = None.
Proof. reflexivity. Qed.

(** Over digits and colons the marker pattern finds nothing and moves on. *)
Lemma exec_skip_plain (pre tail : jsstring) (i : nat) :
  forallb plain pre = true →
  exec_from marker_regex i (pre ++ tail)
  = exec_from marker_regex (i + length pre) tail.
Proof.
  revert i. induction pre as [|c pre IH]; intros i H.
  - cbn [app length]. rewrite Nat.add_0_r. reflexivity.
  - cbn [forallb] in H. apply andb_true_iff in H as [Hc Hp].
    cbn [app]. rewrite exec_from_unfold, (marker_at_plain c _ i Hc), (IH (S i) Hp).
    cbn [length]. f_equal. lia.
Qed.

Lemma exec_plain_none (pre : jsstring) (i : nat) :
  forallb plain pre = true → exec_from marker_regex i pre = None.
Proof.
  intros H. rewrite <- (app_nil_r pre), (exec_skip_plain pre [] i H).
  reflexivity.
Qed.

(** A greedy run of white space is consumed to its end when the rest of the
    match succeeds from there. *)
Lemma star_consume (tail : jsstring) (k : MState → option MState) (res : MState) :
  match tail with c :: _ => is_space c = false | [] => True end →
  ∀ (ws : jsstring) (st : MState) (fuel count : nat),
    rest st = ws ++ tail → forallb is_space ws = true → (length ws < fuel)%nat →
    k {| pos := pos st + length ws; rest := tail; caps := caps st |} = Some res →
    rep_loop (rmatch (Chr is_space)) 0 None true k fuel count st = Some res.
Proof.
  intros Htail. induction ws as [|w ws IH]; intros st fuel count Hrest Hws Hfuel Hk.
  - destruct fuel as [|f]; [cbn in Hfuel; lia|].
    cbn [rep_loop under Nat.leb].
    rewrite rmatch_Chr_reject by (rewrite Hrest; exact Htail).
    cbn [orelse]. destruct st as [p r c]. cbn [pos rest caps length] in *.
    subst r. rewrite Nat.add_0_r in Hk. exact Hk.
  - destruct fuel as [|f]; [cbn in Hfuel; lia|].
    cbn [forallb] in Hws. apply andb_true_iff in Hws as [Hw Hws].
    cbn [rep_loop under Nat.leb]. rewrite rmatch_Chr, Hrest. cbn [app].
    rewrite Hw. cbn [pos andb].
    replace (S (pos st) =? pos st)%nat with false
      by (symmetry; apply Nat.eqb_neq; lia).
    rewrite (IH {| pos := S (pos st); rest := ws ++ tail; caps := caps st |} f (S count));
      [reflexivity | reflexivity | exact Hws | cbn [length] in Hfuel; lia |].
    cbn [pos caps]. cbn [length] in Hk.
    replace (S (pos st) + length ws)%nat with (pos st + S (length ws))%nat by lia.
    exact Hk.
Qed.

(** At the white space before an am/pm marker the pattern matches through to
    the end of the token. *)
Lemma marker_matches (ws : jsstring) (a m : N) (i : nat) :
  forallb is_space ws = true →
  is_pm_letter a || is_am_letter a = true → is_m_letter m = true →
  rmatch marker_regex {| pos := i; rest := ws ++ [a; m]; caps := [] |} Some
  = Some {| pos := S (S (i + length ws)); rest := []; caps := [] |}.
Proof.
  intros Hws Ha Hm.
  destruct (marker_letter_facts a m Ha Hm) as (Hsa & Hap & _ & Hmm & _).
  unfold marker_regex. cbn [cat]. rewrite rmatch_Seq.
  unfold star, space. rewrite rmatch_Rep.
  apply (star_consume [a; m]) with (ws := ws);
    [exact Hsa | reflexivity | exact Hws
    | cbn [rest]; rewrite length_app; cbn [length]; lia |].
  cbn [pos caps]. rewrite rmatch_Seq.
  unfold one_of. rewrite rmatch_Chr. cbn [rest]. rewrite Hap.
  rewrite rmatch_Chr. cbn [rest]. rewrite Hmm. reflexivity.
Qed.

(** Cutting the marker out of a time token leaves the digits and colons. *)
Lemma remove_marker (pre ws : jsstring) (marker : option (N * N)) :
  forallb plain pre = true → forallb is_space ws = true →
  (∀ a m, marker = Some (a, m) →
     is_pm_letter a || is_am_letter a = true ∧ is_m_letter m = true) →
  remove_first marker_regex
    (pre ++ match marker with Some (a, m) => ws ++ [a; m] | None => [] end)
  = pre.
Proof.
  intros Hpre Hws Hmk. unfold remove_first, exec.
  destruct marker as [[a m]|].
  - destruct (Hmk a m eq_refl) as [Ha Hm].
    rewrite (exec_skip_plain pre _ 0 Hpre), exec_from_unfold,
      (marker_matches ws a m _ Hws Ha Hm).
    cbn [rest Nat.add]. rewrite app_nil_r. apply take_app_length.
  - rewrite app_nil_r, (exec_plain_none pre 0 Hpre). reflexivity.
Qed.

End ClockMarker.

Section ClockTheorem.
Import Js Regex ChatParser Spec ParserSpec RegexAux.
Local Open Scope list_scope.

(** The time fields of [parseTimestamp] depend on the time token alone. *)
Lemma parseTimestamp_time (dateStr timeStr : jsstring) :
  let tp := trim timeStr in
  let nums := List.map Number (split (N.eqb 58) (remove_first marker_regex tp)) in
  let h0 := nth 0 nums NaN in
  let h1 := if test (ci (str "pm")) tp && negb (strict_eq h0 (Num 12))
            then add h0 (Num 12) else h0 in
  hours (parseTimestamp dateStr timeStr)
  = (if test (ci (str "am")) tp && strict_eq h1 (Num 12) then Num 0 else h1)
  ∧ minutes (parseTimestamp dateStr timeStr) = or_else (nth 1 nums NaN) (Num 0).
Proof.
  cbv zeta. unfold parseTimestamp.
  destruct (gt (parseInt (nth_error (split is_date_sep dateStr) 0)) (Num 12));
    [|destruct (gt (parseInt (nth_error (split is_date_sep dateStr) 1)) (Num 12))];
    cbn [hours minutes]; split; reflexivity.
Qed.

Lemma numeric_plain (ds : jsstring) :
  forallb is_digit ds = true → forallb plain ds = true.
Proof.
  induction ds as [|c r IH]; [reflexivity|]. cbn [forallb]. intros H.
  apply andb_true_iff in H as [Hc Hr]. unfold plain at 1.
  rewrite Hc, (IH Hr). reflexivity.
Qed.

Lemma numeric_colon_free (ds : jsstring) :
  forallb is_digit ds = true → forallb (fun c => negb (N.eqb 58 c)) ds = true.
Proof.
  induction ds as [|c r IH]; [reflexivity|]. cbn [forallb]. intros H.
  apply andb_true_iff in H as [Hc Hr]. rewrite (IH Hr), andb_true_r.
  unfold is_digit in Hc. apply andb_true_iff in Hc as [_ Hhi].
  apply N.leb_le in Hhi. apply negb_true_iff, N.eqb_neq. lia.
Qed.

Lemma token_plain (hh mm : jsstring) (ss : option jsstring) :
  numeric hh → numeric mm → from_option numeric True ss →
  forallb plain (hh ++ 58%N :: mm ++ seconds_part ss) = true.
Proof.
  intros [_ Hh] [_ Hm] Hs.
  rewrite forallb_app, (numeric_plain hh Hh). cbn [forallb andb plain].
  rewrite forallb_app, (numeric_plain mm Hm).
  destruct ss as [s|]; [|reflexivity]. destruct Hs as [_ Hs].
  cbn [seconds_part forallb]. rewrite (numeric_plain s Hs). reflexivity.
Qed.

Lemma token_split (hh mm : jsstring) (ss : option jsstring) :
  numeric hh → numeric mm → from_option numeric True ss →
  ∃ more, split (N.eqb 58) (hh ++ 58%N :: mm ++ seconds_part ss) = hh :: mm :: more.
Proof.
  intros [_ Hh] [_ Hm] Hs.
  rewrite split_at_sep by (auto using numeric_colon_free).
  destruct ss as [s|]; cbn [seconds_part].
  - rewrite split_at_sep by (auto using numeric_colon_free). eauto.
  - rewrite app_nil_r, split_sep_free by (auto using numeric_colon_free). eauto.
Qed.

Lemma token_trim (hh mm : jsstring) (ss : option jsstring) (ws : jsstring)
    (marker : option (N * N)) :
  numeric hh → numeric mm → from_option numeric True ss →
  (∀ a m, marker = Some (a, m) →
     is_pm_letter a || is_am_letter a = true ∧ is_m_letter m = true) →
  trim (time_token hh mm ss ws marker) = time_token hh mm ss ws marker.
Proof.
  intros Hh Hm Hs Hmk. unfold time_token.
  destruct (numeric_ends hh Hh) as (c & r & _ & _ & -> & _ & Hc & _).
  assert (Hlast : ∃ p d, ((c :: r) ++ 58%N :: mm ++ seconds_part ss)
                         ++ marker_part ws marker = p ++ [d]
                         ∧ is_space d = false).
  { destruct marker as [[a m]|]; cbn [marker_part].
    - destruct (Hmk a m eq_refl) as [Ha Hml].
      destruct (marker_letter_facts a m Ha Hml) as (_ & _ & Hsm & _).
      exists (((c :: r) ++ 58%N :: mm ++ seconds_part ss) ++ ws ++ [a]), m.
      split; [|exact Hsm].
      repeat (rewrite <- app_assoc; cbn [app]). reflexivity.
    - rewrite app_nil_r. destruct ss as [s|]; cbn [seconds_part].
      + destruct (numeric_ends s Hs) as (_ & _ & p & d & _ & -> & _ & Hd).
        exists ((c :: r) ++ 58%N :: mm ++ 58%N :: p), d.
        split; [|apply digit_not_space, Hd].
        repeat (rewrite <- app_assoc; cbn [app]). reflexivity.
      + destruct (numeric_ends mm Hm) as (_ & _ & p & d & _ & -> & _ & Hd).
        exists ((c :: r) ++ 58%N :: p), d. split; [|apply digit_not_space, Hd].
        rewrite app_nil_r. repeat (rewrite <- app_assoc; cbn [app]). reflexivity. }
  destruct Hlast as (p & d & Heq & Hd).
  change (marker_part ws marker)
    with (match marker with Some (a, m) => ws ++ [a; m] | None => [] end) in Heq.
  change (seconds_part ss)
    with (match ss with Some s => 58%N :: s | None => [] end) in Heq.
  cbn [app] in *. apply (trim_keep c _ p d Heq); [apply digit_not_space, Hc | exact Hd].
Qed.

(** A two-letter pattern whose first letter is no digit, colon or white
    space can only be found at the marker of a time token. *)
Lemma pair_in_token (f g : N → bool) (pre ws : jsstring) (marker : option (N * N)) :
  (∀ c, plain c = true → f c = false) → (∀ c, is_space c = true → f c = false) →
  forallb plain pre = true → forallb is_space ws = true →
  has_pair f g (pre ++ marker_part ws marker)
  = match marker with Some (a, m) => f a && g m | None => false end.
Proof.
  intros Hfp Hfs Hpre Hws.
  assert (Hskip : ∀ l P, (∀ c, P c = true → f c = false) → forallb P l = true →
                         forallb (fun c => negb (f c)) l = true).
  { intros l P HP. induction l as [|c l IH]; [reflexivity|]. cbn [forallb].
    intros H. apply andb_true_iff in H as [Hc Hl].
    rewrite (HP c Hc), (IH Hl). reflexivity. }
  destruct marker as [[a m]|]; cbn [marker_part].
  - rewrite app_assoc, has_pair_skip.
    + cbn [has_pair]. rewrite orb_false_r. reflexivity.
    + rewrite forallb_app, (Hskip pre plain Hfp Hpre), (Hskip ws is_space Hfs Hws).
      reflexivity.
  - rewrite has_pair_skip by (apply (Hskip pre plain Hfp Hpre)). reflexivity.
Qed.

Lemma time_token_parts (hh mm : jsstring) (ss : option jsstring) (ws : jsstring)
    (marker : option (N * N)) :
  time_token hh mm ss ws marker
  = (hh ++ 58%N :: mm ++ seconds_part ss) ++ marker_part ws marker.
Proof. reflexivity. Qed.

Lemma remove_marker_part (pre ws : jsstring) (marker : option (N * N)) :
  forallb plain pre = true → forallb is_space ws = true →
  (∀ a m, marker = Some (a, m) →
     is_pm_letter a || is_am_letter a = true ∧ is_m_letter m = true) →
  remove_first marker_regex (pre ++ marker_part ws marker) = pre.
Proof. apply remove_marker. Qed.

Lemma or_else_zero (z : Z) : or_else (Num z) (Num 0) = Num z.
Proof. destruct z; reflexivity. Qed.

(** X7.  The time of a token of hours, minutes, optional seconds and an
    optional am/pm marker: the minutes are read as they stand and the seconds
    are dropped; with a pm marker 12 is added to the hour unless it is 12,
    with an am marker the hour 12 becomes 0, and without a marker the hour is
    kept (24-hour clock). *)
Theorem parseTimestamp_clock (dateStr hh mm : jsstring) (ss : option jsstring)
    (ws : jsstring) (marker : option (N * N)) :
  numeric hh → numeric mm → from_option numeric True ss →
  forallb is_space ws = true →
  (∀ a m, marker = Some (a, m) →
     is_pm_letter a || is_am_letter a = true ∧ is_m_letter m = true) →
  let d := parseTimestamp dateStr (time_token hh mm ss ws marker) in
  hours d = Num (to24 marker (decimal hh)) ∧ minutes d = Num (decimal mm).
Proof.
  intros Hh Hm Hs Hws Hmk. cbv zeta.
  destruct (parseTimestamp_time dateStr (time_token hh mm ss ws marker)) as [Hhours Hmin].
  rewrite Hhours, Hmin. clear Hhours Hmin.
  rewrite (token_trim hh mm ss ws marker Hh Hm Hs Hmk).
  pose proof (token_plain hh mm ss Hh Hm Hs) as Hplain.
  rewrite time_token_parts.
  rewrite (remove_marker_part _ ws marker Hplain Hws Hmk).
  destruct (token_split hh mm ss Hh Hm Hs) as [more Hsplit].
  rewrite Hsplit. cbn [List.map nth].
  rewrite (Number_numeric hh Hh), (Number_numeric mm Hm), or_else_zero.
  split; [|reflexivity].
  change (ci (str "pm"))
    with (Seq (Chr (fun x => (fold_case x =? fold_case 112)%N))
              (Chr (fun x => (fold_case x =? fold_case 109)%N))).
  change (ci (str "am"))
    with (Seq (Chr (fun x => (fold_case x =? fold_case 97)%N))
              (Chr (fun x => (fold_case x =? fold_case 109)%N))).
  rewrite !test_pair.
  rewrite !(pair_in_token _ _ _ ws marker); try assumption;
    try (intros c Hc; rewrite ?fold_case_pm, ?fold_case_am;
         first [apply (plain_facts c Hc) | apply (space_facts c Hc)]).
  unfold to24. destruct marker as [[a m]|].
  - destruct (Hmk a m eq_refl) as [Ha Hml].
    destruct (marker_letter_facts a m Ha Hml) as (_ & _ & _ & _ & _ & _ & Hexcl).
    rewrite fold_case_pm, fold_case_am, fold_case_m, Hml, !andb_true_r.
    destruct (is_pm_letter a) eqn:Hpm.
    + rewrite (Hexcl eq_refl). cbn [andb strict_eq].
      destruct (Z.eqb_spec (decimal hh) 12) as [Heq|Hne];
        cbn [negb add]; rewrite ?Heq; reflexivity.
    + cbn [orb] in Ha. rewrite Ha. cbn [andb strict_eq].
      destruct (Z.eqb_spec (decimal hh) 12) as [Heq|Hne];
        cbn [negb add]; rewrite ?Heq; reflexivity.
  - reflexivity.
Qed.

End ClockTheorem.

Section ClockExamples.
Import Js Regex ChatParser Spec ParserSpec RegexAux.
Local Open Scope list_scope.

Lemma header_starts_with_bracket_or_digit_witness :
  match_header (str "hello: world") = None.
Proof.
  apply (header_starts_with_bracket_or_digit (str "hello: world")).
  split; [discriminate | reflexivity].
Defined.

Lemma parseTimestamp_clock_witness :
  let d := parseTimestamp (str "12/03/24") (str "9:15:30  pm") in
  hours d = Num 21 ∧ minutes d = Num 15.
Proof.
  apply (parseTimestamp_clock (str "12/03/24") (str "9") (str "15")
           (Some (str "30")) (str "  ") (Some (112%N, 109%N))).
  - apply numeric_literal. reflexivity.
  - apply numeric_literal. reflexivity.
  - apply numeric_literal. reflexivity.
  - reflexivity.
  - intros a m [= <- <-]. split; reflexivity.
Defined.

End ClockExamples.

(* ===================================================================== *)
(** ** Further theorems: the quota over a run of sends                    *)
(* ===================================================================== *)

Section SendRuns.
Import Db Subscription Flows.

Lemma send_all_snoc sends send h s :
  send_all (sends ++ [send]) h s = send_once (send_all sends h s) send.
Proof. unfold send_all. rewrite fold_left_app. reflexivity. Qed.

(** X8.  Through any run of sends by a free-plan hook that starts at a count
    of at most 10, the count grows by one per accepted send and never passes
    10, so at most 10 minus the starting count are accepted; every usage row
    the run leaves behind is one that was there before or holds at most 10. *)
Theorem send_all_free_bounded (sends : list (bool * string)) (h : HookState) (s : Store) :
  plan h = free → (messagesUsedToday h ≤ 10)%Z →
  let '(n, h', s') := send_all sends h s in
  messagesUsedToday h' = (messagesUsedToday h + Z.of_nat n)%Z
  ∧ (messagesUsedToday h' ≤ 10)%Z
  ∧ plan h' = free ∧ user h' = user h
  ∧ ∀ key v, daily_usage s' !! key = Some v →
             daily_usage s !! key = Some v ∨ (v ≤ 10)%Z.
Proof.
  intros Hfree Hle. induction sends as [|[fault today] sends IH] using rev_ind.
  - cbn. rewrite Z.add_0_r. repeat split; auto.
  - rewrite send_all_snoc. destruct (send_all sends h s) as [[n h1] s1].
    destruct IH as (Hcount & Hbound & Hplan & Huser & Hrows).
    unfold send_once, incrementUsage, upsert_usage, FREE_MSG_LIMIT. cbn [fst snd].
    rewrite Hplan. destruct (Subscription.user h1) as [u|] eqn:Hu.
    + destruct (Z.leb_spec 10 (messagesUsedToday h1)) as [Hge|Hlt].
      * repeat split; auto; try lia; try congruence.
      * destruct fault.
        -- repeat split; auto; try lia; try congruence.
        -- cbn [messagesUsedToday Subscription.plan Subscription.user daily_usage
                set_daily_usage].
           repeat split; auto; try lia; try congruence.
           intros key v Hv. destruct (decide (key = (u, today))) as [->|Hne].
           ++ rewrite lookup_insert_eq in Hv. injection Hv as <-. right. lia.
           ++ rewrite lookup_insert_ne in Hv by congruence. auto.
    + repeat split; auto; try lia; try congruence.
Qed.

End SendRuns.

Section SendRunExamples.
Import Db Subscription Flows Examples.

Lemma send_all_free_bounded_witness :
  (messagesUsedToday
     (snd (fst (send_all (repeat (false, "2026-01-01") 12)
                         (hook (Some "u1") free 0) store_half))) ≤ 10)%Z.
Proof.
  pose proof (send_all_free_bounded (repeat (false, "2026-01-01") 12)
                (hook (Some "u1") free 0) store_half eq_refl) as H.
  destruct (send_all _ _ _) as [[n h'] s']. cbn [fst snd].
  apply H. cbn. lia.
Defined.

End SendRunExamples.

(* ===================================================================== *)
(** ** Further theorems: what a redemption changes                        *)
(* ===================================================================== *)

Section RedeemEffects.
Import Db AdminApi Spec Flows Examples.

(** The store a successful redemption leaves. *)
Lemma redeemPromo_store now user i s p :
  promo_codes s !! i = Some p → is_active p = true → isFreePromo p = true →
  redeemPromo now user i s
  = (inr (Redeemed (plan_duration p)),
     {| promo_codes := alter (with_times_used (times_used p + 1)) i (promo_codes s);
        promo_redemptions := {[ (i, user) ]} ∪ promo_redemptions s;
        user_subscriptions :=
          <[ user := merge_subscription now
                       {| c_plan := Some "pro"; c_status := Some "active";
                          c_razorpay_payment_id := None;
                          c_razorpay_subscription_id := None;
                          c_plan_duration := Some (plan_duration p);
                          c_current_period_start := Some (At now);
                          c_current_period_end :=
                            Some (Some (getDurationEnd (plan_duration p) now)) |}
                       (user_subscriptions s !! user) ]> (user_subscriptions s);
        daily_usage := daily_usage s |}).
Proof.
  intros Hlk Ha Hfree.
  unfold redeemPromo, bind, select_active_promo_by_id.
  rewrite Hlk, Ha, Hfree. cbn [negb].
  unfold insert_redemption.
  destruct (bool_decide _) eqn:Hdup; cbn.
  - apply bool_decide_eq_true in Hdup.
    assert (Heq : {[ (i, user) ]} ∪ promo_redemptions s = promo_redemptions s).
    { apply subseteq_union_1_L, singleton_subseteq_l, Hdup. }
    rewrite Heq. reflexivity.
  - reflexivity.
Qed.

(** How [redeemPromo] ends: with the store above, or thrown with the store
    untouched. *)
Lemma redeemPromo_cases now user i s :
  (∃ p, promo_codes s !! i = Some p ∧ is_active p = true ∧ isFreePromo p = true)
  ∨ (∃ msg, redeemPromo now user i s = (inl msg, s)).
Proof.
  destruct (promo_codes s !! i) as [p|] eqn:Hlk.
  - destruct (is_active p) eqn:Ha.
    + destruct (isFreePromo p) eqn:Hfree.
      * left. eauto.
      * right. eexists. apply (redeemPromo_not_free now user i s p Hlk Ha Hfree).
    + right. eexists. apply redeemPromo_no_row. intros q Hq. congruence.
  - right. eexists. apply redeemPromo_no_row. intros q Hq. congruence.
Qed.

(** X9.  A successful redemption changes three things and nothing else:
    the code's own [times_used] grows by one, the pair (code, user) is in
    the redemptions, and the user's subscription is pro and active with the
    code's duration.  Every other promo row, every other user's subscription
    and all usage counters are as before, and no redemption is removed. *)
Theorem redeemPromo_frame (now : Z) (user i : string) (s s' : Store) (b : Body) :
  redeemPromo now user i s = (inr b, s') →
  (∃ p, promo_codes s !! i = Some p
        ∧ promo_codes s' !! i = Some (with_times_used (times_used p + 1) p)
        ∧ b = Redeemed (plan_duration p)
        ∧ ∃ sub, user_subscriptions s' !! user = Some sub
                 ∧ plan sub = "pro" ∧ Db.status sub = "active"
                 ∧ sub_plan_duration sub = plan_duration p
                 ∧ current_period_end sub
                   = Some (getDurationEnd (plan_duration p) now))
  ∧ (∀ j, j ≠ i → promo_codes s' !! j = promo_codes s !! j)
  ∧ (∀ u, u ≠ user → user_subscriptions s' !! u = user_subscriptions s !! u)
  ∧ (∀ pair, pair ∈ promo_redemptions s' ↔ pair = (i, user) ∨ pair ∈ promo_redemptions s)
  ∧ daily_usage s' = daily_usage s.
Proof.
  intros Hrun.
  destruct (redeemPromo_cases now user i s) as [(p & Hlk & Ha & Hfree)|[msg Hthrow]];
    [|rewrite Hthrow in Hrun; discriminate Hrun].
  rewrite (redeemPromo_store now user i s p Hlk Ha Hfree) in Hrun.
  injection Hrun as <- <-. cbn [promo_codes promo_redemptions user_subscriptions daily_usage].
  split; [|split; [|split; [|split]]].
  - exists p. split; [exact Hlk|]. split; [rewrite lookup_alter_eq, Hlk; reflexivity|].
    split; [reflexivity|]. eexists. rewrite lookup_insert_eq.
    split; [reflexivity|]. repeat split.
  - intros j Hj. apply lookup_alter_ne. congruence.
  - intros u Hu. apply lookup_insert_ne. congruence.
  - intros pair. set_solver.
  - reflexivity.
Qed.

Lemma validatePromo_Valid_inv now user c s dt dv pd i :
  fst (validatePromo now user c s) = inr (Valid dt dv pd i) →
  ∃ p, promo_codes s !! i = Some p ∧ is_active p = true
       ∧ ((i, user) ∉ promo_redemptions s)
       ∧ dt = discount_type p ∧ dv = discount_value p ∧ pd = plan_duration p.
Proof.
  destruct (select_by_code_total s (toUpperCase c)) as [r Hsel].
  rewrite (validatePromo_unfold now user c s r Hsel). cbn [fst].
  destruct r as [[j p]|]; [|discriminate].
  assert (Hrow : promo_codes s !! j = Some p ∧ is_active p = true).
  { unfold select_active_promo_by_code in Hsel.
    assert (Hin : (j, p) ∈ List.filter
                    (fun r => bool_decide (code (snd r) = toUpperCase c) && is_active (snd r))
                    (map_to_list (promo_codes s))).
    { injection Hsel as Hsel.
      destruct (List.filter _ _) as [|x [|y l]]; try discriminate Hsel.
      injection Hsel as ->. left. }
    apply elem_of_active_by_code in Hin. tauto. }
  destruct (expired now p); [discriminate|].
  destruct (exhausted p); [discriminate|].
  destruct (bool_decide _) eqn:Hr; [discriminate|].
  apply bool_decide_eq_false in Hr.
  intros [= <- <- <- <-]. exists p. tauto.
Qed.

(** X10.  Once a user has redeemed a code, [validatePromo] never again
    answers valid for that user and that code, whatever the clock and
    however the code is spelled. *)
Theorem redeem_then_validate (now now' : Z) (user i c : string) (s s' : Store)
    (b : Body) :
  redeemPromo now user i s = (inr b, s') →
  ∀ dt dv pd, fst (validatePromo now' user c s') ≠ inr (Valid dt dv pd i).
Proof.
  intros Hrun dt dv pd Hvalid.
  apply validatePromo_Valid_inv in Hvalid as (p & _ & _ & Hnot & _).
  apply Hnot.
  destruct (redeemPromo_cases now user i s) as [(q & Hlk & Ha & Hfree)|[msg Hthrow]];
    [|rewrite Hthrow in Hrun; discriminate Hrun].
  rewrite (redeemPromo_store now user i s q Hlk Ha Hfree) in Hrun.
  injection Hrun as _ <-. cbn [promo_redemptions]. set_solver.
Qed.

(** X11.  The upgrade dialog and the server agree on what is free: when
    [validatePromo] answers valid, the dialog classifies the answer as a free
    redemption exactly when [redeemPromo] on the returned promo id, run on
    the same store, succeeds; otherwise [redeemPromo] throws and the store is
    untouched. *)
Theorem client_server_agree (now now' : Z) (user c : string) (s : Store)
    (dt : string) (dv : Q) (pd i : string) :
  fst (validatePromo now user c s) = inr (Valid dt dv pd i) →
  (client_isFreePromo (Valid dt dv pd i) = true
   ↔ ∃ s', redeemPromo now' user i s = (inr (Redeemed pd), s'))
  ∧ (client_isFreePromo (Valid dt dv pd i) = false →
     redeemPromo now' user i s
     = (inl "This promo code gives a discount. Please proceed with payment.", s)).
Proof.
  intros Hvalid.
  apply validatePromo_Valid_inv in Hvalid as (p & Hlk & Ha & _ & -> & -> & ->).
  change (client_isFreePromo (Valid (discount_type p) (discount_value p)
                                    (plan_duration p) i))
    with (isFreePromo p).
  split; [split|].
  - intros Hfree. eexists. apply (redeemPromo_store now' user i s p Hlk Ha Hfree).
  - intros [s' Hrun]. destruct (isFreePromo p) eqn:Hfree; [reflexivity|].
    rewrite (redeemPromo_not_free now' user i s p Hlk Ha Hfree) in Hrun.
    discriminate Hrun.
  - intros Hfree. apply (redeemPromo_not_free now' user i s p Hlk Ha Hfree).
Qed.

End RedeemEffects.

(* ===================================================================== *)
(** ** Further theorems: the amount of an order                           *)
(* ===================================================================== *)

Section OrderAmount.
Import Db AdminApi CreateOrder Flows OrderSpec Examples Samples.
Import SpecFloat.


(** X12.  Without a usable promo the full price is charged: when no promo id
    is sent, or it is empty, unknown or names an inactive code, the amount is
    the base price, 900 for the currency "USD" and 49900 for anything else. *)
Theorem orderAmount_full_price (s : Store) (cur : string) (promoId : option string) :
  (∀ i p, promoId = Some i → i ≠ EmptyString → promo_codes s !! i = Some p →
          is_active p = false) →
  orderAmount s cur promoId = base_amount cur
  ∧ (cur ≠ "USD" → orderAmount s cur promoId = Double.of_Z 49900)
  ∧ (cur = "USD" → orderAmount s cur promoId = Double.of_Z 900).
Proof.
  intros Hnone.
  assert (Hbase : orderAmount s cur promoId = base_amount cur).
  { unfold orderAmount, select_active_promo_by_id, base_amount, currencyOf.
    destruct promoId as [i|].
    - destruct (bool_decide (i = EmptyString)) eqn:Hi.
      + destruct (bool_decide (cur = "USD")); reflexivity.
      + apply bool_decide_eq_false in Hi. cbn [fst].
        destruct (promo_codes s !! i) as [p|] eqn:Hlk.
        * rewrite (Hnone i p eq_refl Hi Hlk).
          destruct (bool_decide (cur = "USD")); reflexivity.
        * destruct (bool_decide (cur = "USD")); reflexivity.
    - destruct (bool_decide (cur = "USD")); reflexivity. }
  rewrite Hbase. unfold base_amount. split; [reflexivity|]. split; intros Hc.
  - rewrite bool_decide_eq_false_2 by exact Hc. reflexivity.
  - rewrite bool_decide_eq_true_2 by exact Hc. reflexivity.
Qed.



(** The numbers of the model are the doubles of the language: 0.1 and 256.1
    are read as their nearest doubles, 0.1 * 3 is not 0.3, and [Math.round]
    takes 2.5 to 3, -2.5 to -2, the double below 0.5 to 0 and -0.2 to -0. *)
Example double_samples :
  Double.of_Q (1 # 10) = S754_finite false 7205759403792794 (-56)
  ∧ Double.of_Q (2561 # 10) = S754_finite false 4505358845974938 (-44)
  ∧ Double.mul (Double.of_Q (1 # 10)) (Double.of_Z 3)
    = Double.of_Q (30000000000000004 # 100000000000000000)
  ∧ Math_round (Double.of_Q (5 # 2)) = Double.of_Z 3
  ∧ Math_round (Double.of_Q (-5 # 2)) = Double.of_Z (-2)
  ∧ Math_round (Double.of_Q (49999999999999994 # 100000000000000000)) = S754_zero false
  ∧ Math_round (Double.of_Q (-2 # 10)) = S754_zero true
  ∧ Math_max (Double.of_Z 100) (Double.of_Z (-5)) = Double.of_Z 100.
Proof. repeat split; vm_compute; reflexivity. Qed.

(** *** Rounding never produces [NaN] *)











(** *** Whole-number discounts *)




(** The arithmetic is that of doubles: 42.5% of 49900 is charged as 28692
    (the exact product is 28692.5), and a fixed discount of 256.1 leaves
    24289.999999999996. *)
Example orderAmount_fractional :
  orderAmount store_fraction "INR" (Some "p1") = Double.of_Z 28692
  ∧ orderAmount store_fixed_fraction "INR" (Some "p1")
    = Double.of_Q (24289999999999996 # 1000000000000).
Proof. split; vm_compute; reflexivity. Qed.


End OrderAmount.

(* ===================================================================== *)
(** ** Further theorems: what a payment confirmation writes               *)
(* ===================================================================== *)

Section PaymentEffects.
Import Db Billing.

Lemma confirm_twice now1 now2 user pay1 ord1 pay2 ord2 s :
  confirm now2 user pay2 ord2 (confirm now1 user pay1 ord1 s)
  = confirm now2 user pay2 ord2 s.
Proof.
  unfold confirm, set_user_subscriptions. cbn [user_subscriptions promo_codes
    promo_redemptions daily_usage]. f_equal.
  rewrite lookup_insert_eq, insert_insert_eq. reflexivity.
Qed.

Lemma verify_serve_cases env now req s :
  (∃ msg, RazorpayVerify.serve env now req s
          = ({| RazorpayVerify.status := 400;
                RazorpayVerify.body := RazorpayVerify.ErrorBody msg |}, s))
  ∨ (∃ authHeader user,
       truthy (RazorpayVerify.authorization req) = Some authHeader
       ∧ sessions env !! authHeader = Some user
       ∧ RazorpayVerify.serve env now req s
         = ({| RazorpayVerify.status := 200;
               RazorpayVerify.body := RazorpayVerify.Success "pro" |},
            confirm now user (Some (RazorpayVerify.razorpay_payment_id req))
              (Some (RazorpayVerify.razorpay_order_id req)) s)).
Proof.
  unfold RazorpayVerify.serve, RazorpayVerify.handle.
  destruct (truthy (RAZORPAY_KEY_SECRET env)) as [secret|]; [|left; eexists; reflexivity].
  destruct (truthy (RazorpayVerify.authorization req)) as [a|]; [|left; eexists; reflexivity].
  destruct (sessions env !! a) as [user|] eqn:Hu; [|left; eexists; reflexivity].
  destruct (RazorpayVerify.verifySignature _ _ _ _); [|left; eexists; reflexivity].
  right. exists a, user. split; [reflexivity|]. split; [exact Hu|]. reflexivity.
Qed.

(** X14.  What [razorpay-verify] writes.  A request answered with anything
    but 200 leaves the store as it was.  A request answered with 200 rewrites
    the subscription row of the signed-in user alone: plan pro, status
    active, the payment and order ids of the request, a period from the time
    of the call to one month later, and the duration column of the earlier
    row untouched.  Promo codes, redemptions, usage counters and the rows of
    all other users are never changed. *)
Theorem verify_writes_one_row (env : Env) (now : Z) (req : RazorpayVerify.Request)
    (s : Store) :
  let r := RazorpayVerify.serve env now req s in
  (RazorpayVerify.status (fst r) ≠ 200%Z → snd r = s)
  ∧ (RazorpayVerify.status (fst r) = 200%Z →
     ∃ authHeader user,
       truthy (RazorpayVerify.authorization req) = Some authHeader
       ∧ sessions env !! authHeader = Some user
       ∧ user_subscriptions (snd r) !! user
         = Some (paid_row now (Some (RazorpayVerify.razorpay_payment_id req))
                   (Some (RazorpayVerify.razorpay_order_id req))
                   (user_subscriptions s !! user))
       ∧ ∀ u, u ≠ user → user_subscriptions (snd r) !! u = user_subscriptions s !! u)
  ∧ promo_codes (snd r) = promo_codes s
  ∧ promo_redemptions (snd r) = promo_redemptions s
  ∧ daily_usage (snd r) = daily_usage s.
Proof.
  intros r. subst r.
  destruct (verify_serve_cases env now req s) as [[msg ->]|(a & user & Ha & Hu & ->)];
    cbn [fst snd RazorpayVerify.status].
  - split; [reflexivity|]. split; [discriminate|]. repeat split.
  - split; [intros H; contradiction H; reflexivity|]. split; [|repeat split].
    intros _. exists a, user. split; [exact Ha|]. split; [exact Hu|].
    unfold confirm. cbn [user_subscriptions set_user_subscriptions]. split.
    + apply lookup_insert_eq.
    + intros u Hne. apply lookup_insert_ne. congruence.
Qed.

(** X15.  A confirmation that is sent again is accepted again, and the later
    call alone decides the row: confirming at [now1] and then at [now2]
    leaves the same answer and the same store as confirming at [now2] only,
    so the period restarts at the time of the repeat. *)
Theorem verify_repeat_is_last_write (env : Env) (now1 now2 : Z)
    (req : RazorpayVerify.Request) (s : Store) :
  RazorpayVerify.serve env now2 req (snd (RazorpayVerify.serve env now1 req s))
  = RazorpayVerify.serve env now2 req s
  ∧ fst (RazorpayVerify.serve env now2 req s)
    = fst (RazorpayVerify.serve env now1 req s).
Proof.
  destruct (verify_serve_cases env now1 req s) as [[msg H1]|(a & user & Ha & Hu & H1)].
  - rewrite H1. cbn [snd fst]. split; [reflexivity|].
    destruct (verify_serve_cases env now2 req s) as [[msg2 H2]|(a2 & user2 & Ha2 & Hu2 & H2)].
    + rewrite H2. cbn [fst]. revert H1 H2.
      unfold RazorpayVerify.serve, RazorpayVerify.handle.
      destruct (truthy (RAZORPAY_KEY_SECRET env)); [|congruence].
      destruct (truthy (RazorpayVerify.authorization req)) as [a|]; [|congruence].
      destruct (sessions env !! a); [|congruence].
      destruct (RazorpayVerify.verifySignature _ _ _ _); cbn; congruence.
    + exfalso. revert H1 H2.
      unfold RazorpayVerify.serve, RazorpayVerify.handle.
      destruct (truthy (RAZORPAY_KEY_SECRET env)); [|discriminate].
      destruct (truthy (RazorpayVerify.authorization req)) as [a|]; [|discriminate].
      destruct (sessions env !! a); [|discriminate].
      destruct (RazorpayVerify.verifySignature _ _ _ _); cbn; discriminate.
  - rewrite H1. cbn [snd fst].
    destruct (verify_serve_cases env now2 req s) as [[msg2 H2]|(a2 & user2 & Ha2 & Hu2 & H2)].
    + exfalso. revert H1 H2.
      unfold RazorpayVerify.serve, RazorpayVerify.handle.
      destruct (truthy (RAZORPAY_KEY_SECRET env)); [|discriminate].
      destruct (truthy (RazorpayVerify.authorization req)) as [a'|]; [|discriminate].
      destruct (sessions env !! a'); [|discriminate].
      destruct (RazorpayVerify.verifySignature _ _ _ _); cbn; discriminate.
    + rewrite H2. cbn [fst]. split; [|reflexivity].
      assert (a2 = a) as -> by congruence. assert (user2 = user) as -> by congruence.
      destruct (verify_serve_cases env now2 req
                  (confirm now1 user (Some (RazorpayVerify.razorpay_payment_id req))
                     (Some (RazorpayVerify.razorpay_order_id req)) s))
        as [[msg3 H3]|(a3 & user3 & Ha3 & Hu3 & H3)].
      * exfalso. revert H2 H3.
        unfold RazorpayVerify.serve, RazorpayVerify.handle.
        destruct (truthy (RAZORPAY_KEY_SECRET env)); [|discriminate].
        destruct (truthy (RazorpayVerify.authorization req)) as [a'|]; [|discriminate].
        destruct (sessions env !! a'); [|discriminate].
        destruct (RazorpayVerify.verifySignature _ _ _ _); cbn; discriminate.
      * rewrite H3. assert (a3 = a) as -> by congruence.
        assert (user3 = user) as -> by congruence.
        rewrite confirm_twice. reflexivity.
Qed.

Lemma webhook_serve_cases JSON_parse env now req s :
  (∃ resp, RazorpayWebhook.serve JSON_parse env now req s = (resp, s)
           ∧ (RazorpayWebhook.status resp = 200%Z → RazorpayWebhook.body resp = RazorpayWebhook.Ok))
  ∨ (∃ ev pay user,
       JSON_parse (RazorpayWebhook.text req) = Some ev
       ∧ RazorpayWebhook.event ev = "payment.captured"
       ∧ RazorpayWebhook.payment ev = Some pay
       ∧ truthy (RazorpayWebhook.notes_user_id pay) = Some user
       ∧ RazorpayWebhook.serve JSON_parse env now req s
         = ({| RazorpayWebhook.status := 200; RazorpayWebhook.body := RazorpayWebhook.Ok |},
            notify now user pay s)).
Proof.
  unfold RazorpayWebhook.serve.
  destruct (truthy (RAZORPAY_KEY_SECRET env)) as [secret|];
    [|left; eexists; split; [reflexivity|discriminate]].
  destruct (RazorpayWebhook.verifyWebhookSignature _ _ _); cbn [negb];
    [|left; eexists; split; [reflexivity|discriminate]].
  destruct (JSON_parse (RazorpayWebhook.text req)) as [ev|] eqn:Hev;
    [|left; eexists; split; [reflexivity|discriminate]].
  unfold bind.
  destruct (bool_decide (RazorpayWebhook.event ev = "payment.captured")) eqn:Hcap.
  - apply bool_decide_eq_true in Hcap. unfold RazorpayWebhook.activate.
    destruct (RazorpayWebhook.payment ev) as [pay|] eqn:Hpay;
      [|left; eexists; split; [reflexivity|discriminate]].
    destruct (truthy (RazorpayWebhook.notes_user_id pay)) as [user|] eqn:Hu;
      [|left; eexists; split; [reflexivity|reflexivity]].
    right. exists ev, pay, user. repeat split; try assumption; reflexivity.
  - destruct (bool_decide (RazorpayWebhook.event ev = "payment.failed")).
    + destruct (RazorpayWebhook.payment ev);
        left; eexists; split; try reflexivity; discriminate.
    + left; eexists; split; reflexivity.
Qed.

(** X16.  What [razorpay-webhook] writes.  The store changes only for a
    notification that parses to a [payment.captured] event whose payment
    carries a non-empty user id in its notes; the answer is then 200 and the
    row of that user alone is rewritten: plan pro, status active, a period
    from the time of the call to one month later, the duration column as it
    was.  An id or order id that the notification carries (a string or null)
    is stored; one that it lacks leaves the column of the earlier row as it
    was.  No other event, and no failure, writes anything, and promo codes,
    redemptions and usage counters are never changed. *)
Theorem webhook_writes_one_row (JSON_parse : string → option RazorpayWebhook.Event)
    (env : Env) (now : Z) (req : RazorpayWebhook.Request) (s : Store) :
  let r := RazorpayWebhook.serve JSON_parse env now req s in
  (snd r ≠ s →
     ∃ ev pay user,
       JSON_parse (RazorpayWebhook.text req) = Some ev
       ∧ RazorpayWebhook.event ev = "payment.captured"
       ∧ RazorpayWebhook.payment ev = Some pay
       ∧ RazorpayWebhook.notes_user_id pay = Some user ∧ user ≠ EmptyString
       ∧ RazorpayWebhook.status (fst r) = 200%Z
       ∧ (∃ row,
            user_subscriptions (snd r) !! user = Some row
            ∧ row = notified_row now pay (user_subscriptions s !! user)
            ∧ plan row = "pro" ∧ Db.status row = "active"
            ∧ current_period_start row = At now
            ∧ current_period_end row = Some (AddMonths 1 (At now))
            ∧ sub_plan_duration row
              = from_option sub_plan_duration "month" (user_subscriptions s !! user)
            ∧ (∀ v, RazorpayWebhook.id pay = Some v → razorpay_payment_id row = v)
            ∧ (RazorpayWebhook.id pay = None →
               razorpay_payment_id row
               = from_option razorpay_payment_id None (user_subscriptions s !! user))
            ∧ (∀ v, RazorpayWebhook.order_id pay = Some v →
               razorpay_subscription_id row = v)
            ∧ (RazorpayWebhook.order_id pay = None →
               razorpay_subscription_id row
               = from_option razorpay_subscription_id None (user_subscriptions s !! user)))
       ∧ ∀ u, u ≠ user → user_subscriptions (snd r) !! u = user_subscriptions s !! u)
  ∧ promo_codes (snd r) = promo_codes s
  ∧ promo_redemptions (snd r) = promo_redemptions s
  ∧ daily_usage (snd r) = daily_usage s.
Proof.
  intros r. subst r.
  destruct (webhook_serve_cases JSON_parse env now req s)
    as [(resp & -> & _)|(ev & pay & user & Hev & Hcap & Hpay & Hu & ->)]; cbn [fst snd].
  - split; [intros H; contradiction H; reflexivity|]. repeat split.
  - split; [|repeat split]. intros _. exists ev, pay, user.
    split; [exact Hev|]. split; [exact Hcap|]. split; [exact Hpay|].
    assert (Hnote : RazorpayWebhook.notes_user_id pay = Some user ∧ user ≠ EmptyString).
    { revert Hu. unfold truthy. destruct (RazorpayWebhook.notes_user_id pay) as [v|];
        [|discriminate].
      destruct (bool_decide (v = EmptyString)) eqn:Hv; [discriminate|].
      apply bool_decide_eq_false in Hv. intros [= <-]. split; [reflexivity|exact Hv]. }
    destruct Hnote as [Hn1 Hn2]. split; [exact Hn1|]. split; [exact Hn2|].
    split; [reflexivity|].
    unfold notify. cbn [user_subscriptions set_user_subscriptions]. split.
    + eexists. split; [apply lookup_insert_eq|]. split; [reflexivity|].
      unfold notified_row, paid_row.
      cbn [plan Db.status current_period_start current_period_end sub_plan_duration
           razorpay_payment_id razorpay_subscription_id].
      repeat split.
      * intros v ->. reflexivity.
      * intros ->. reflexivity.
      * intros v ->. reflexivity.
      * intros ->. reflexivity.
    + intros u Hne. apply lookup_insert_ne. congruence.
Qed.

Lemma notify_confirm now user pay payment order s :
  RazorpayWebhook.id pay = Some payment → RazorpayWebhook.order_id pay = Some order →
  notify now user pay s = confirm now user payment order s.
Proof. intros Hid Hord. unfold notify, confirm, notified_row. rewrite Hid, Hord. reflexivity. Qed.

Lemma verify_serve_ok env now req s authHeader user :
  RazorpayVerify.status (fst (RazorpayVerify.serve env now req s)) = 200%Z →
  truthy (RazorpayVerify.authorization req) = Some authHeader →
  sessions env !! authHeader = Some user →
  ∀ now' t,
    RazorpayVerify.serve env now' req t
    = ({| RazorpayVerify.status := 200;
          RazorpayVerify.body := RazorpayVerify.Success "pro" |},
       confirm now' user (Some (RazorpayVerify.razorpay_payment_id req))
         (Some (RazorpayVerify.razorpay_order_id req)) t).
Proof.
  unfold RazorpayVerify.serve, RazorpayVerify.handle. intros Hok Ha Hu now' t.
  rewrite Ha, Hu in *.
  destruct (truthy (RAZORPAY_KEY_SECRET env)); [|discriminate Hok].
  destruct (RazorpayVerify.verifySignature _ _ _ _); [|discriminate Hok].
  reflexivity.
Qed.

Lemma webhook_serve_ok JSON_parse env now hreq s ev pay user :
  RazorpayWebhook.status (fst (RazorpayWebhook.serve JSON_parse env now hreq s)) = 200%Z →
  JSON_parse (RazorpayWebhook.text hreq) = Some ev →
  RazorpayWebhook.event ev = "payment.captured" →
  RazorpayWebhook.payment ev = Some pay →
  truthy (RazorpayWebhook.notes_user_id pay) = Some user →
  ∀ now' t,
    RazorpayWebhook.serve JSON_parse env now' hreq t
    = ({| RazorpayWebhook.status := 200; RazorpayWebhook.body := RazorpayWebhook.Ok |},
       notify now' user pay t).
Proof.
  unfold RazorpayWebhook.serve. intros Hok Hev Hcap Hpay Hu now' t.
  rewrite Hev in *.
  destruct (truthy (RAZORPAY_KEY_SECRET env)); [|discriminate Hok].
  destruct (RazorpayWebhook.verifyWebhookSignature _ _ _); [|discriminate Hok].
  cbn [negb]. unfold bind. rewrite bool_decide_eq_true_2 by exact Hcap.
  unfold RazorpayWebhook.activate. rewrite Hpay, Hu. reflexivity.
Qed.

(** X17.  The two confirmations of one payment agree.  When [razorpay-verify]
    accepts the request of a signed-in user and the webhook accepts the
    [payment.captured] notification that names the same user, payment and
    order, each of them leaves the same store as the other would; and applied
    one after the other, in either order, the store is that of the later call
    alone. *)
Theorem webhook_agrees_with_verify (JSON_parse : string → option RazorpayWebhook.Event)
    (env : Env) (now1 now2 : Z) (req : RazorpayVerify.Request)
    (hreq : RazorpayWebhook.Request) (ev : RazorpayWebhook.Event)
    (pay : RazorpayWebhook.Payment) (authHeader user : string) (s : Store) :
  RazorpayVerify.status (fst (RazorpayVerify.serve env now1 req s)) = 200%Z →
  RazorpayWebhook.status (fst (RazorpayWebhook.serve JSON_parse env now1 hreq s)) = 200%Z →
  truthy (RazorpayVerify.authorization req) = Some authHeader →
  sessions env !! authHeader = Some user →
  JSON_parse (RazorpayWebhook.text hreq) = Some ev →
  RazorpayWebhook.event ev = "payment.captured" →
  RazorpayWebhook.payment ev = Some pay →
  truthy (RazorpayWebhook.notes_user_id pay) = Some user →
  RazorpayWebhook.id pay = Some (Some (RazorpayVerify.razorpay_payment_id req)) →
  RazorpayWebhook.order_id pay = Some (Some (RazorpayVerify.razorpay_order_id req)) →
  snd (RazorpayWebhook.serve JSON_parse env now1 hreq s)
  = snd (RazorpayVerify.serve env now1 req s)
  ∧ snd (RazorpayWebhook.serve JSON_parse env now2 hreq
           (snd (RazorpayVerify.serve env now1 req s)))
    = snd (RazorpayWebhook.serve JSON_parse env now2 hreq s)
  ∧ snd (RazorpayVerify.serve env now2 req
           (snd (RazorpayWebhook.serve JSON_parse env now1 hreq s)))
    = snd (RazorpayVerify.serve env now2 req s).
Proof.
  intros Hv Hw Ha Hu Hev Hcap Hpay Hnote Hid Hord.
  pose proof (verify_serve_ok env now1 req s authHeader user Hv Ha Hu) as V.
  pose proof (webhook_serve_ok JSON_parse env now1 hreq s ev pay user Hw Hev Hcap Hpay Hnote)
    as W.
  rewrite ?V, ?W. cbn [snd]. rewrite ?V, ?W. cbn [snd].
  rewrite !(notify_confirm _ _ _ _ _ _ Hid Hord).
  rewrite !confirm_twice. repeat split.
Qed.

End PaymentEffects.

Section PaymentEffectExamples.
Import Db Billing Examples Samples.

Lemma webhook_agrees_with_verify_witness :
  snd (RazorpayWebhook.serve decode env 1000 signed_hook store_unpaid)
  = snd (RazorpayVerify.serve env 1000 paid store_unpaid)
  ∧ snd (RazorpayWebhook.serve decode env 2000 signed_hook
           (snd (RazorpayVerify.serve env 1000 paid store_unpaid)))
    = snd (RazorpayWebhook.serve decode env 2000 signed_hook store_unpaid)
  ∧ snd (RazorpayVerify.serve env 2000 paid
           (snd (RazorpayWebhook.serve decode env 1000 signed_hook store_unpaid)))
    = snd (RazorpayVerify.serve env 2000 paid store_unpaid).
Proof.
  apply (webhook_agrees_with_verify decode env 1000 2000 paid signed_hook captured
           captured_payment "Bearer t1" "u1" store_unpaid).
  - vm_compute. reflexivity.
  - vm_compute. reflexivity.
  - reflexivity.
  - reflexivity.
  - reflexivity.
  - reflexivity.
  - reflexivity.
  - reflexivity.
  - reflexivity.
  - reflexivity.
Defined.

(** A notification without ids after a confirmed payment: the period
    restarts, the ids of the payment stay. *)
Example webhook_keeps_earlier_ids :
  let s1 := snd (RazorpayVerify.serve env 1000 paid store_unpaid) in
  let s2 := snd (RazorpayWebhook.serve decode_bare env 2000 signed_hook s1) in
  user_subscriptions s2 !! "u1"
  = Some {| plan := "pro"; Db.status := "active";
            razorpay_payment_id := Some "pay_1";
            razorpay_subscription_id := Some "order_1";
            sub_plan_duration := "month";
            current_period_start := At 2000;
            current_period_end := Some (AddMonths 1 (At 2000)) |}.
Proof. vm_compute. reflexivity. Qed.

End PaymentEffectExamples.

Section RedeemEffectExamples.
Import Db AdminApi CreateOrder Flows Examples.

Lemma redeemPromo_frame_witness :
  ("p1", "u1") ∈ promo_redemptions (snd (redeemPromo 1000 "u1" "p1" store_unpaid))
  ∧ daily_usage (snd (redeemPromo 1000 "u1" "p1" store_unpaid)) = daily_usage store_unpaid.
Proof.
  assert (Hrun : redeemPromo 1000 "u1" "p1" store_unpaid
                 = (inr (Redeemed "month"), snd (redeemPromo 1000 "u1" "p1" store_unpaid))).
  { vm_compute. reflexivity. }
  destruct (redeemPromo_frame 1000 "u1" "p1" store_unpaid _ _ Hrun)
    as (_ & _ & _ & Hred & Husage).
  split; [apply Hred; left; reflexivity|exact Husage].
Defined.

Lemma redeem_then_validate_witness :
  fst (validatePromo 2000 "u1" "launch" (snd (redeemPromo 1000 "u1" "p1" store_unpaid)))
  ≠ inr (Valid "percentage" 100 "month" "p1").
Proof.
  assert (Hrun : redeemPromo 1000 "u1" "p1" store_unpaid
                 = (inr (Redeemed "month"), snd (redeemPromo 1000 "u1" "p1" store_unpaid))).
  { vm_compute. reflexivity. }
  apply (redeem_then_validate 1000 2000 "u1" "p1" "launch" store_unpaid _ _ Hrun).
Defined.

Lemma client_server_agree_witness :
  redeemPromo 2000 "u1" "p1" store_half
  = (inl "This promo code gives a discount. Please proceed with payment.", store_half).
Proof.
  destruct (client_server_agree 1000 2000 "u1" "launch" store_half "percentage" 50
              "month" "p1") as [_ Hpay].
  - vm_compute. reflexivity.
  - apply Hpay. reflexivity.
Defined.

Lemma orderAmount_full_price_witness :
  orderAmount store_half "INR" (Some "nope") = Double.of_Z 49900.
Proof.
  destruct (orderAmount_full_price store_half "INR" (Some "nope")) as (_ & Hinr & _).
  - intros i p [= <-] _ Hlk. vm_compute in Hlk. discriminate Hlk.
  - apply Hinr. discriminate.
Defined.


End RedeemEffectExamples.

(* ===================================================================== *)
(** ** Further theorems: the stored context and the two names             *)
(* ===================================================================== *)

Section ChatContext.
Import Js ChatParser ChatPage ContextSpec.
Local Open Scope list_scope.

Lemma slice_last_short {A} (n : nat) (l : list A) :
  (length l ≤ n)%nat → slice_last n l = l.
Proof.
  intros H. unfold slice_last. replace (length l - n)%nat with 0%nat by lia. reflexivity.
Qed.

Lemma slice_last_length {A} (n : nat) (l : list A) :
  length (slice_last n l) = Nat.min n (length l).
Proof. unfold slice_last. rewrite length_drop. lia. Qed.

Lemma slice_last_nonempty {A} (n : nat) (l : list A) :
  l ≠ [] → (0 < n)%nat → slice_last n l ≠ [].
Proof.
  intros Hl Hn H. apply (f_equal length) in H. rewrite slice_last_length in H.
  destruct l; [contradiction|]. cbn in H. lia.
Qed.

Lemma join_cons sep p q rest :
  join sep (p :: q :: rest) = p ++ sep ++ join sep (q :: rest).
Proof. reflexivity. Qed.

Lemma split_join (ls : list jsstring) :
  ls ≠ [] →
  split (N.eqb 10) (join newline ls) = List.concat (List.map (split (N.eqb 10)) ls).
Proof.
  induction ls as [|p [|q rest] IH]; intros Hne; [contradiction| |].
  - cbn [join List.map List.concat]. rewrite app_nil_r. reflexivity.
  - rewrite join_cons. unfold newline at 1. cbn [app].
    rewrite split_app_sep by reflexivity. rewrite IH by discriminate. reflexivity.
Qed.

Lemma split_length (x : jsstring) :
  length (split (N.eqb 10) x) = S (newlines x).
Proof.
  unfold newlines. induction x as [|c r IH]; [reflexivity|]. cbn [split List.filter].
  destruct (N.eqb 10 c); cbn [length]; [rewrite IH; reflexivity|].
  pose proof (split_nonempty (N.eqb 10) r) as Hne.
  destruct (split (N.eqb 10) r); [contradiction|]. exact IH.
Qed.

Lemma newlines_app (x y : jsstring) : newlines (x ++ y) = (newlines x + newlines y)%nat.
Proof. unfold newlines. rewrite List.filter_app, length_app. reflexivity. Qed.

Lemma no_newline_count (x : jsstring) : no_newline x → newlines x = 0%nat.
Proof.
  unfold no_newline, newlines. induction x as [|c r IH]; [reflexivity|].
  cbn [forallb List.filter]. intros H. apply andb_true_iff in H as [Hc Hr].
  apply negb_true_iff in Hc. rewrite Hc. exact (IH Hr).
Qed.

Lemma no_newline_app (x y : jsstring) : no_newline x → no_newline y → no_newline (x ++ y).
Proof. unfold no_newline. intros Hx Hy. rewrite forallb_app, Hx, Hy. reflexivity. Qed.

Lemma role_cases me other x : role me other x = me ∨ role me other x = other.
Proof. unfold role. destruct (bool_decide _); auto. Qed.

Lemma role_role me other x : role me other (role me other x) = role me other x.
Proof.
  unfold role. destruct (bool_decide (x = me)) eqn:H1.
  - rewrite bool_decide_eq_true_2 by reflexivity. reflexivity.
  - destruct (bool_decide (other = me)) eqn:H2; [|reflexivity].
    apply bool_decide_eq_true in H2. congruence.
Qed.

Lemma starts_with_app (needle rest : jsstring) : starts_with needle (needle ++ rest) = true.
Proof.
  induction needle as [|a n IH]; [reflexivity|]. cbn. rewrite N.eqb_refl, IH. reflexivity.
Qed.

(** A label without [": "] inside is found again in front of the first
    [": "] of its line. *)
Lemma indexOf_label (label text : jsstring) :
  indexOf colon_space label = None →
  indexOf colon_space (label ++ colon_space ++ text) = Some (length label).
Proof.
  induction label as [|c r IH]; intros Hnone.
  - reflexivity.
  - cbn [indexOf] in Hnone.
    destruct (starts_with colon_space (c :: r)) eqn:Hs; [discriminate|].
    destruct (indexOf colon_space r) eqn:Hr; [discriminate|].
    cbn [app indexOf length].
    assert (Hs' : starts_with colon_space (c :: r ++ colon_space ++ text) = false).
    { unfold colon_space in *. cbn [starts_with] in *.
      destruct (N.eqb 58 c); [|reflexivity]. cbn [andb] in *.
      destruct r as [|d r']; [reflexivity|]. cbn [app].
      destruct (N.eqb 32 d); [discriminate Hs|reflexivity]. }
    rewrite Hs', (IH eq_refl). reflexivity.
Qed.

Lemma restore_line now i label text :
  indexOf colon_space label = None →
  restore now i (label ++ colon_space ++ text)
  = {| index := i; imp_sender := label; imp_text := text;
       imp_timestamp := now; imp_isSystem := false |}.
Proof.
  intros H. unfold restore. rewrite (indexOf_label label text H). f_equal.
  - rewrite take_app_length. reflexivity.
  - rewrite app_assoc. replace (length label + 2)%nat with (length (label ++ colon_space))
      by (rewrite length_app; reflexivity).
    apply drop_app_length.
Qed.

Lemma join_nonempty (ls : list jsstring) :
  ls ≠ [] → Forall (fun l => l ≠ []) ls → join newline ls ≠ [].
Proof.
  destruct ls as [|p [|q rest]]; intros Hne Hall; [contradiction| |].
  - inversion Hall; assumption.
  - rewrite join_cons. inversion Hall as [|? ? Hp _]; subst.
    destruct p; [contradiction|discriminate].
Qed.

Lemma loadSession_nonempty now c prev :
  c ≠ [] → loadSession now (Some c) prev = imap (restore now) (split (N.eqb 10) c).
Proof. destruct c; [contradiction|reflexivity]. Qed.

Lemma context_nonempty {M} (sender text : M → jsstring) me other (ms : list M) :
  ms ≠ [] → recentContext sender text me other ms ≠ [].
Proof.
  intros Hne. unfold recentContext. apply join_nonempty.
  - intros H. apply map_eq_nil in H. revert H. apply slice_last_nonempty; [exact Hne|lia].
  - apply List.Forall_forall. intros l Hl. apply in_map_iff in Hl as (m & <- & _).
    destruct (role me other (sender m)); discriminate.
Qed.

Lemma context_lines {M} (sender text : M → jsstring) me other (ms : list M) :
  ms ≠ [] →
  split (N.eqb 10) (recentContext sender text me other ms)
  = List.concat (List.map (split (N.eqb 10))
      (List.map (fun m => role me other (sender m) ++ colon_space ++ text m)
                (slice_last 40 ms))).
Proof.
  intros Hne. unfold recentContext. apply split_join.
  intros H. apply map_eq_nil in H. revert H. apply slice_last_nonempty; [exact Hne|lia].
Qed.

Lemma labelled_context now me other (ms : list ParsedMessage) :
  (length ms ≤ 40)%nat →
  recentContext imp_sender imp_text me other (labelled now me other ms)
  = join newline (List.map (fun m => role me other (sender m) ++ colon_space ++ text m) ms).
Proof.
  intros Hlen. unfold recentContext, labelled.
  rewrite slice_last_short by (rewrite length_imap; exact Hlen). f_equal.
  change (@List.map) with (@fmap list _). rewrite fmap_imap.
  rewrite <- (imap_const (fun m => role me other (sender m) ++ colon_space ++ text m)).
  apply imap_ext. intros i m _. cbn. rewrite role_role. reflexivity.
Qed.

(** X18.  Storing the context and loading it again gives the messages back.
    When neither name holds a line feed or a colon followed by a space, and
    none of the last 40 messages has a line feed in its text, [loadSession]
    applied to the context that [handleMapped] stores restores exactly those
    messages, in order, numbered from 0, each under the name the context gave
    it and with its text unchanged; and the context that the chat view builds
    from the restored messages is the stored one again. *)
Theorem context_round_trip (now : Z) (me other : jsstring) (msgs : list ParsedMessage)
    (prev : list Imported) :
  msgs ≠ [] →
  no_newline me → no_newline other →
  indexOf colon_space me = None → indexOf colon_space other = None →
  Forall (fun m => no_newline (text m)) (slice_last 40 msgs) →
  let stored := recentContext sender text me other msgs in
  loadSession now (Some stored) prev = labelled now me other (slice_last 40 msgs)
  ∧ recentContext imp_sender imp_text me other (loadSession now (Some stored) prev)
    = stored.
Proof.
  intros Hne Hme Hother Hime Hiother Htexts stored.
  assert (Hload : loadSession now (Some stored) prev
                  = labelled now me other (slice_last 40 msgs)).
  { subst stored. rewrite loadSession_nonempty by (apply context_nonempty, Hne).
    rewrite context_lines by exact Hne.
    unfold labelled. generalize (slice_last 40 msgs) Htexts. clear Htexts Hne.
    intros ms Hms.
    assert (Hlines : List.concat (List.map (split (N.eqb 10))
                       (List.map (fun m => role me other (sender m) ++ colon_space ++ text m) ms))
                     = List.map (fun m => role me other (sender m) ++ colon_space ++ text m) ms).
    { induction Hms as [|m ms Hm _ IH]; [reflexivity|]. cbn [List.map List.concat].
      rewrite IH, split_sep_free; [reflexivity|].
      apply no_newline_app; [|apply no_newline_app; [reflexivity|exact Hm]].
      destruct (role_cases me other (sender m)) as [-> | ->]; assumption. }
    rewrite Hlines. clear Hlines Hms.
    change (@List.map) with (@fmap list _). rewrite imap_fmap. apply imap_ext.
    intros i m _. cbn. apply restore_line.
    destruct (role_cases me other (sender m)) as [-> | ->]; assumption. }
  split; [exact Hload|]. rewrite Hload.
  rewrite labelled_context; [reflexivity|]. rewrite slice_last_length.
  apply Nat.le_min_l.
Qed.

Lemma concat_split_length (lines : list jsstring) :
  length (List.concat (List.map (split (N.eqb 10)) lines))
  = (length lines + list_sum (List.map newlines lines))%nat.
Proof.
  induction lines as [|l ls IH]; [reflexivity|].
  cbn [List.map List.concat length]. rewrite length_app, split_length, IH.
  change (list_sum (newlines l :: List.map newlines ls))
    with (newlines l + list_sum (List.map newlines ls))%nat.
  lia.
Qed.

(** X19.  How many messages come back.  For an empty message list the stored
    context is empty and [loadSession] leaves the imported messages as they
    were.  Otherwise, with names free of line feeds, it restores one message
    for each of the last 40 and one more for every line feed in their texts:
    a message of several lines comes back as several messages. *)
Theorem restored_count (now : Z) (me other : jsstring) (msgs : list ParsedMessage)
    (prev : list Imported) :
  no_newline me → no_newline other →
  let stored := recentContext sender text me other msgs in
  (msgs = [] → stored = [] ∧ loadSession now (Some stored) prev = prev)
  ∧ (msgs ≠ [] →
     length (loadSession now (Some stored) prev)
     = (length (slice_last 40 msgs)
        + list_sum (List.map (fun m => newlines (text m)) (slice_last 40 msgs)))%nat).
Proof.
  intros Hme Hother stored. split.
  - intros ->. split; reflexivity.
  - intros Hne. subst stored.
    rewrite loadSession_nonempty by (apply context_nonempty, Hne).
    rewrite length_imap, context_lines by exact Hne.
    rewrite concat_split_length, length_map, List.map_map. f_equal. f_equal.
    apply List.map_ext. intros m. rewrite !newlines_app.
    assert (Hr : newlines (role me other (sender m)) = 0%nat).
    { apply no_newline_count. destruct (role_cases me other (sender m)) as [-> | ->]; assumption. }
    rewrite Hr. reflexivity.
Qed.

Lemma other_of_spec (ps : list jsstring) (me : jsstring) :
  NoDup ps → me ∈ ps →
  (ps = [me] ∧ other_of ps me = [])
  ∨ (∃ o rest, o ≠ me ∧ other_of ps me = o ∧ (ps = o :: rest ∨ ps = me :: o :: rest)).
Proof.
  intros Hnd Hin. destruct ps as [|a rest]; [inversion Hin|].
  unfold other_of. cbn [List.find].
  destruct (bool_decide (a = me)) eqn:Ha; cbn [negb].
  - apply bool_decide_eq_true in Ha. subst a.
    apply NoDup_cons in Hnd as [Hnot _].
    destruct rest as [|b rest']; [left; split; reflexivity|].
    assert (Hb : b ≠ me).
    { intros ->. apply Hnot. left. }
    cbn [List.find]. rewrite bool_decide_eq_false_2 by exact Hb. cbn [negb].
    right. exists b, rest'. split; [exact Hb|]. split; [reflexivity|]. right. reflexivity.
  - apply bool_decide_eq_false in Ha.
    right. exists a, rest. split; [exact Ha|]. split; [reflexivity|]. left. reflexivity.
Qed.

(** X20.  The partner the mapping screen picks.  Once the user has tapped one
    of the participants of a parsed chat, the start button appears only with
    a partner who is a participant too, differs from the user and is the
    first other name of the list: the first participant, or the second when
    the user is the first.  A chat with fewer than two participants never
    gets the button.  With exactly two participants every message keeps its
    own sender as label in the context. *)
Theorem mapping_picks_partner (content me : jsstring) :
  let r := parseWhatsAppChat content in
  let other := other_of (participants r) me in
  me ∈ participants r →
  (can_start me other = true →
     other ∈ participants r ∧ other ≠ me
     ∧ ∃ rest, participants r = other :: rest ∨ participants r = me :: other :: rest)
  ∧ ((length (participants r) < 2)%nat → can_start me other = false)
  ∧ (length (participants r) = 2%nat →
     ∀ m, m ∈ messages r → role me other (sender m) = sender m).
Proof.
  intros r other Hin.
  assert (Hnd : NoDup (participants r) ∧ ∀ y, y ∈ participants r
                   ↔ y ∈ List.map sender (messages r)).
  { subst r. rewrite participants_of_messages. apply first_seen_spec. }
  destruct Hnd as [Hnd Hsenders].
  destruct (other_of_spec (participants r) me Hnd Hin)
    as [[Hone Hoth]|(o & rest & Hne & Hoth & Hshape)]; fold other in Hoth.
  - split; [|split].
    + intros Hs. unfold can_start in Hs. rewrite Hoth in Hs.
      rewrite (bool_decide_eq_true_2 (@nil N = [])) in Hs by reflexivity.
      rewrite andb_false_r in Hs. discriminate.
    + intros _. unfold can_start. rewrite Hoth.
      rewrite (bool_decide_eq_true_2 (@nil N = [])) by reflexivity.
      apply andb_false_r.
    + rewrite Hone. discriminate.
  - split; [|split].
    + intros _. rewrite Hoth. split; [|split; [exact Hne|exists rest; exact Hshape]].
      destruct Hshape as [-> | ->]; [left|right; left].
    + intros Hlen. exfalso. destruct Hshape as [Hs|Hs].
      * rewrite Hs in Hin, Hlen. cbn [length] in Hlen.
        destruct rest; [|cbn in Hlen; lia].
        apply list_elem_of_singleton in Hin. congruence.
      * rewrite Hs in Hlen. cbn [length] in Hlen. lia.
    + intros Hlen m Hm.
      assert (Hsm : sender m ∈ participants r).
      { apply Hsenders, list_elem_of_In, in_map, list_elem_of_In, Hm. }
      unfold role. destruct (bool_decide (sender m = me)) eqn:Hme.
      * apply bool_decide_eq_true in Hme. symmetry. exact Hme.
      * apply bool_decide_eq_false in Hme. rewrite Hoth.
        destruct Hshape as [Hs|Hs]; rewrite Hs in Hsm, Hlen, Hin.
        -- destruct rest as [|x [|y rest']]; try discriminate Hlen.
           apply elem_of_cons in Hin as [Hin|Hin]; [congruence|].
           apply list_elem_of_singleton in Hin. subst x.
           apply elem_of_cons in Hsm as [Hsm|Hsm]; [symmetry; exact Hsm|].
           apply list_elem_of_singleton in Hsm. contradiction.
        -- destruct rest as [|x rest']; [|discriminate Hlen].
           apply elem_of_cons in Hsm as [Hsm|Hsm]; [contradiction|].
           apply list_elem_of_singleton in Hsm. symmetry. exact Hsm.
Qed.

End ChatContext.

Section ChatContextExamples.
Import Js ChatParser ChatPage ContextSpec Examples Samples.
Local Open Scope list_scope.

Lemma context_round_trip_witness :
  loadSession 0 (Some (recentContext sender text alice bob short_messages)) []
  = labelled 0 alice bob (slice_last 40 short_messages)
  ∧ recentContext imp_sender imp_text alice bob
      (loadSession 0 (Some (recentContext sender text alice bob short_messages)) [])
    = recentContext sender text alice bob short_messages.
Proof.
  apply (context_round_trip 0 alice bob short_messages []).
  - vm_compute. discriminate.
  - reflexivity.
  - reflexivity.
  - reflexivity.
  - reflexivity.
  - vm_compute. repeat constructor.
Defined.

Lemma restored_count_witness :
  length (loadSession 0 (Some (recentContext sender text alice bob scenario_messages)) [])
  = (length (slice_last 40 scenario_messages)
     + list_sum (List.map (fun m => newlines (text m))
                          (slice_last 40 scenario_messages)))%nat.
Proof.
  destruct (restored_count 0 alice bob scenario_messages []) as [_ Hcount].
  - reflexivity.
  - reflexivity.
  - apply Hcount. vm_compute. discriminate.
Defined.

Lemma mapping_picks_partner_witness :
  other_of (participants (parseWhatsAppChat chat)) alice
    ∈ participants (parseWhatsAppChat chat)
  ∧ other_of (participants (parseWhatsAppChat chat)) alice ≠ alice.
Proof.
  destruct (mapping_picks_partner chat alice) as ((Hin & Hne & _) & _ & _).
  - apply list_elem_of_In. vm_compute. left. reflexivity.
  - vm_compute. reflexivity.
  - split; [exact Hin|exact Hne].
Defined.

End ChatContextExamples.

(* ===================================================================== *)
(** ** Further theorems: promo codes from creation to validation          *)
(* ===================================================================== *)

Section PromoLifeCycle.
Import Db AdminApi PromoAdmin Spec Invariants.

Lemma no_clash_spec (t : gmap string PromoCode) (c : string) :
  existsb (fun r => bool_decide (code (snd r) = c)) (map_to_list t) = false
  ↔ ∀ j q, t !! j = Some q → code q ≠ c.
Proof.
  split.
  - intros H j q Hlk Hc.
    assert (Hex : existsb (fun r => bool_decide (code (snd r) = c)) (map_to_list t) = true).
    { apply existsb_exists. exists (j, q). split.
      - apply list_elem_of_In, elem_of_map_to_list, Hlk.
      - apply bool_decide_eq_true_2, Hc. }
    congruence.
  - intros H. destruct (existsb _ _) eqn:Hex; [|reflexivity].
    apply existsb_exists in Hex as ([j q] & Hin & Hc).
    apply list_elem_of_In, elem_of_map_to_list in Hin.
    apply bool_decide_eq_true in Hc. exfalso. exact (H j q Hin Hc).
Qed.

(** [create-promo] either throws and leaves the store, or inserts the new
    row under a key and a code that were both free. *)
Lemma createPromo_cases now id body s :
  (∃ msg, createPromo now id body s = (inl msg, s))
  ∨ (∃ c, b_code body = Some c
          ∧ promo_codes s !! id = None
          ∧ (∀ j q, promo_codes s !! j = Some q → code q ≠ toUpperCase c)
          ∧ createPromo now id body s
            = (inr Success, set_promo_codes (insert id (new_promo now c body)) s)).
Proof.
  unfold createPromo. destruct (b_code body) as [c|]; [|left; eexists; reflexivity].
  unfold bind, insert_promo.
  destruct (negb _ || negb _); [left; eexists; reflexivity|].
  destruct (existsb _ _) eqn:Hclash; [left; eexists; reflexivity|].
  destruct (promo_codes s !! id) eqn:Hid; [left; eexists; reflexivity|].
  right. exists c. split; [reflexivity|]. split; [reflexivity|]. split; [|reflexivity].
  exact (proj1 (no_clash_spec (promo_codes s) (code (new_promo now c body))) Hclash).
Qed.

Lemma as_admin_cases {A} admins user (action : Handler A) s :
  (user ∈ admins ∧ as_admin admins user action s = action s)
  ∨ ((user ∉ admins)
     ∧ as_admin admins user action s = (inl "Forbidden: Admin access required", s)).
Proof.
  unfold as_admin, require_admin, bind.
  destruct (bool_decide (user ∈ admins)) eqn:H.
  - left. apply bool_decide_eq_true in H. split; [exact H|reflexivity].
  - right. apply bool_decide_eq_false in H. split; [exact H|reflexivity].
Qed.

Lemma unique_codes_insert (t : gmap string PromoCode) (id : string) (row : PromoCode) :
  unique_codes t → (∀ j q, t !! j = Some q → code q ≠ code row) →
  unique_codes (<[id := row]> t).
Proof.
  intros Hu Hfree i j p q Hi Hj Hc.
  destruct (decide (i = id)) as [->|Hni]; destruct (decide (j = id)) as [->|Hnj].
  - reflexivity.
  - rewrite lookup_insert_eq in Hi. rewrite lookup_insert_ne in Hj by congruence.
    injection Hi as <-. exfalso. apply (Hfree j q Hj). congruence.
  - rewrite lookup_insert_eq in Hj. rewrite lookup_insert_ne in Hi by congruence.
    injection Hj as <-. exfalso. apply (Hfree i p Hi). congruence.
  - rewrite lookup_insert_ne in Hi, Hj by congruence. exact (Hu i j p q Hi Hj Hc).
Qed.

(** X21.  A code an admin creates can be used at once, in any spelling of
    upper and lower case.  When [create-promo] answers 200 the caller is an
    admin, the request named a code, and exactly one row was added, under a
    key and a code that were free.  [validate-promo] then answers, for every
    user and every spelling of the code: invalid when the code was created
    inactive, expired when [valid_until] lies before the time of the call,
    fully redeemed when the cap is negative, and valid with the terms of the
    request otherwise; a cap of 0 is stored as no cap. *)
Theorem createPromo_then_validate (admins : gset string) (now : Z) (admin id : string)
    (body : CreateBody) (s s' : Store) (r : string + Done) :
  consistent s →
  respond (as_admin admins admin (createPromo now id body)) s = (200%Z, r, s') →
  admin ∈ admins
  ∧ ∃ c, b_code body = Some c
         ∧ promo_codes s !! id = None
         ∧ s' = set_promo_codes (insert id (new_promo now c body)) s
         ∧ (b_max_uses body = Some 0%Z → max_uses (new_promo now c body) = None)
         ∧ ∀ now' user c',
             toUpperCase c' = toUpperCase c →
             validatePromo now' user c' s'
             = (inr (if negb (is_active (new_promo now c body))
                     then Invalid "Invalid promo code"
                     else if expired now' (new_promo now c body)
                     then Invalid "Promo code expired"
                     else if match b_max_uses body with
                             | Some m => (m <? 0)%Z
                             | None => false
                             end
                     then Invalid "Promo code fully redeemed"
                     else Valid (discount_type (new_promo now c body))
                                (discount_value (new_promo now c body))
                                (plan_duration (new_promo now c body)) id), s').
Proof.
  intros [Hu Hrefer] Hrun. unfold respond in Hrun.
  destruct (as_admin_cases admins admin (createPromo now id body) s)
    as [[Hadmin Hact]|[_ Hact]]; rewrite Hact in Hrun; [|discriminate Hrun].
  split; [exact Hadmin|].
  destruct (createPromo_cases now id body s) as [[msg Hc]|(c & Hcode & Hid & Hfree & Hc)];
    rewrite Hc in Hrun.
  { exfalso. destruct (includes msg "Forbidden"); [discriminate Hrun|].
    destruct (includes msg "Unauthorized"); discriminate Hrun. }
  injection Hrun as _ <-. exists c. split; [exact Hcode|]. split; [exact Hid|].
  split; [reflexivity|]. split.
  { intros Hm. unfold new_promo. cbn [max_uses]. rewrite Hm. reflexivity. }
  intros now' user c' Hspell.
  set (row := new_promo now c body).
  set (s' := set_promo_codes (insert id row) s).
  assert (Hu' : unique_codes (promo_codes s')).
  { apply unique_codes_insert; [exact Hu|exact Hfree]. }
  assert (Hlk : promo_codes s' !! id = Some row) by apply lookup_insert_eq.
  destruct (is_active row) eqn:Hact'; cbn [negb].
  - rewrite (validatePromo_row now' user c' s' id row Hu' Hlk (eq_sym Hspell) Hact').
    f_equal. destruct (expired now' row); [reflexivity|].
    assert (Hex : exhausted row
                  = match b_max_uses body with Some m => (m <? 0)%Z | None => false end).
    { unfold exhausted, row, new_promo. cbn [max_uses times_used].
      destruct (b_max_uses body) as [m|]; [|reflexivity].
      destruct (Z.eqb_spec m 0) as [->|Hm]; [reflexivity|].
      apply Z.eqb_neq in Hm. rewrite Hm. cbn [negb andb].
      apply Z.eqb_neq in Hm.
      destruct (Z.leb_spec m 0); destruct (Z.ltb_spec m 0); try reflexivity; lia. }
    rewrite Hex. destruct (match b_max_uses body with Some m => _ | None => _ end);
      [reflexivity|].
    rewrite bool_decide_eq_false_2; [reflexivity|].
    intros Hred. destruct (Hrefer id user Hred) as [q Hq]. congruence.
  - apply validatePromo_no_row; [exact Hu'|].
    intros i p Hi Hcp. destruct (decide (i = id)) as [->|Hne].
    + rewrite Hlk in Hi. injection Hi as <-. exact Hact'.
    + exfalso. unfold s' in Hi. cbn [promo_codes set_promo_codes] in Hi.
      rewrite lookup_insert_ne in Hi by congruence.
      apply (Hfree i p Hi). congruence.
Qed.

Lemma consistent_same_promos (s s' : Store) :
  promo_codes s' = promo_codes s → promo_redemptions s' = promo_redemptions s →
  consistent s → consistent s'.
Proof.
  intros Hc Hr [Hu Hf]. split.
  - rewrite Hc. exact Hu.
  - intros i u. rewrite Hc, Hr. apply Hf.
Qed.

Lemma unique_codes_alter (t : gmap string PromoCode) (f : PromoCode → PromoCode) i :
  (∀ p, code (f p) = code p) → unique_codes t → unique_codes (alter f i t).
Proof.
  intros Hf Hu a b p q Ha Hb Hc.
  assert (Hold : ∀ k x, alter f i t !! k = Some x → ∃ y, t !! k = Some y ∧ code y = code x).
  { intros k x Hk. destruct (decide (k = i)) as [->|Hne].
    - rewrite lookup_alter_eq in Hk. destruct (t !! i) as [y|]; [|discriminate].
      injection Hk as <-. exists y. split; [reflexivity|]. symmetry. apply Hf.
    - rewrite lookup_alter_ne in Hk by congruence. exists x. split; [exact Hk|reflexivity]. }
  destruct (Hold a p Ha) as (p0 & Hp0 & Hcp). destruct (Hold b q Hb) as (q0 & Hq0 & Hcq).
  apply (Hu a b p0 q0 Hp0 Hq0). congruence.
Qed.

Lemma consistent_redeem now user i s : consistent s → consistent (snd (redeemPromo now user i s)).
Proof.
  intros [Hu Hf].
  destruct (redeemPromo_cases now user i s) as [(p & Hlk & Ha & Hfree)|[msg Hthrow]].
  - rewrite (redeemPromo_store now user i s p Hlk Ha Hfree). cbn [snd]. split.
    + cbn [promo_codes]. apply unique_codes_alter; [reflexivity|exact Hu].
    + intros j u. cbn [promo_codes promo_redemptions]. intros Hin.
      apply elem_of_union in Hin as [Hin|Hin].
      * apply elem_of_singleton in Hin. injection Hin as -> ->.
        rewrite lookup_alter_eq, Hlk. eexists. reflexivity.
      * destruct (Hf j u Hin) as [q Hq]. destruct (decide (j = i)) as [->|Hne].
        -- rewrite lookup_alter_eq, Hq. eexists. reflexivity.
        -- rewrite lookup_alter_ne by congruence. eexists. exact Hq.
  - rewrite Hthrow. split; assumption.
Qed.

Lemma consistent_create admins now user id body s :
  consistent s → consistent (snd (as_admin admins user (createPromo now id body) s)).
Proof.
  intros [Hu Hf].
  destruct (as_admin_cases admins user (createPromo now id body) s)
    as [[_ ->]|[_ ->]]; [|split; assumption].
  destruct (createPromo_cases now id body s) as [[msg ->]|(c & _ & Hid & Hfree & ->)];
    [split; assumption|].
  cbn [snd]. split.
  - cbn [promo_codes set_promo_codes]. apply unique_codes_insert; [exact Hu|exact Hfree].
  - intros j u. cbn [promo_codes promo_redemptions set_promo_codes]. intros Hin.
    destruct (Hf j u Hin) as [q Hq]. destruct (decide (j = id)) as [->|Hne].
    + rewrite lookup_insert_eq. eexists. reflexivity.
    + rewrite lookup_insert_ne by congruence. eexists. exact Hq.
Qed.

Lemma consistent_delete admins user i s :
  consistent s → consistent (snd (as_admin admins user (deletePromo i) s)).
Proof.
  intros [Hu Hf].
  destruct (as_admin_cases admins user (deletePromo i) s)
    as [[_ ->]|[_ ->]]; [|split; assumption].
  unfold deletePromo, delete_promo, bind, ret. cbn [snd]. split.
  - cbn [promo_codes set_promo_codes set_promo_redemptions].
    intros a b p q Ha Hb Hc.
    apply lookup_delete_Some in Ha as [_ Ha]. apply lookup_delete_Some in Hb as [_ Hb].
    exact (Hu a b p q Ha Hb Hc).
  - intros j u. cbn [promo_codes promo_redemptions set_promo_codes set_promo_redemptions].
    intros Hin. apply elem_of_filter in Hin as [Hne Hin]. cbn in Hne.
    destruct (Hf j u Hin) as [q Hq]. exists q.
    apply lookup_delete_Some. split; [congruence|exact Hq].
Qed.

(** X22.  The constraints of the promo tables hold after every action:
    when the codes are unique and every redemption is of an existing code,
    the same is true after [validate-promo], [redeem-promo], the gated
    [create-promo] and [delete-promo], a payment confirmation and a webhook
    call, whatever their arguments and whatever they answer. *)
Theorem promo_tables_stay_consistent (s : Store) :
  consistent s →
  (∀ now user c, consistent (snd (validatePromo now user c s)))
  ∧ (∀ now user i, consistent (snd (redeemPromo now user i s)))
  ∧ (∀ admins now user id body,
       consistent (snd (as_admin admins user (createPromo now id body) s)))
  ∧ (∀ admins user i, consistent (snd (as_admin admins user (deletePromo i) s)))
  ∧ (∀ env now req, consistent (snd (RazorpayVerify.serve env now req s)))
  ∧ (∀ JSON_parse env now req,
       consistent (snd (RazorpayWebhook.serve JSON_parse env now req s))).
Proof.
  intros Hs. split; [|split; [|split; [|split; [|split]]]].
  - intros now user c. destruct (select_by_code_total s (toUpperCase c)) as [r Hsel].
    rewrite (validatePromo_unfold now user c s r Hsel). exact Hs.
  - intros now user i. apply consistent_redeem, Hs.
  - intros admins now user id body. apply consistent_create, Hs.
  - intros admins user i. apply consistent_delete, Hs.
  - intros env now req.
    destruct (verify_serve_cases env now req s) as [[msg ->]|(a & u & _ & _ & ->)];
      [exact Hs|].
    apply (consistent_same_promos s); [reflexivity|reflexivity|exact Hs].
  - intros JSON_parse env now req.
    destruct (webhook_serve_cases JSON_parse env now req s)
      as [(resp & -> & _)|(ev & pay & u & _ & _ & _ & _ & ->)]; [exact Hs|].
    apply (consistent_same_promos s); [reflexivity|reflexivity|exact Hs].
Qed.

End PromoLifeCycle.

Section PromoLifeCycleExamples.
Import Db AdminApi PromoAdmin Spec Invariants Examples Samples.

Lemma store_unpaid_consistent : consistent store_unpaid.
Proof.
  split.
  - apply unique_codes_singleton.
  - intros i u Hin. exfalso. revert Hin. apply not_elem_of_empty.
Defined.

Lemma createPromo_then_validate_witness :
  "admin1" ∈ admin_users
  ∧ ∃ c, b_code welcome = Some c
         ∧ promo_codes store_unpaid !! "p2" = None
         ∧ snd (createPromo 1000 "p2" welcome store_unpaid)
           = set_promo_codes (insert "p2" (new_promo 1000 c welcome)) store_unpaid
         ∧ validatePromo 2000 "u1" "Welcome" (snd (createPromo 1000 "p2" welcome store_unpaid))
           = (inr (Valid "fixed" 100 "week" "p2"),
              snd (createPromo 1000 "p2" welcome store_unpaid)).
Proof.
  destruct (createPromo_then_validate admin_users 1000 "admin1" "p2" welcome store_unpaid
              (snd (createPromo 1000 "p2" welcome store_unpaid)) (inr Success))
    as (Hadmin & c & Hc & Hid & Hs & _ & Hval).
  - exact store_unpaid_consistent.
  - vm_compute. reflexivity.
  - split; [exact Hadmin|]. exists c. split; [exact Hc|]. split; [exact Hid|].
    split; [exact Hs|].
    assert (c = "welcome") as -> by (cbn in Hc; congruence).
    exact (Hval 2000%Z "u1" "Welcome" eq_refl).
Defined.

Lemma promo_tables_stay_consistent_witness :
  consistent (snd (redeemPromo 1000 "u1" "p1" store_unpaid))
  ∧ consistent (snd (as_admin admin_users "admin1" (deletePromo "p1") store_unpaid)).
Proof.
  destruct (promo_tables_stay_consistent store_unpaid store_unpaid_consistent)
    as (_ & Hredeem & _ & Hdelete & _).
  split; [apply Hredeem|apply Hdelete].
Defined.

End PromoLifeCycleExamples.
